(** * slop-detector: source model extraction and dependency graph engine

    A shallow embedding of the parsers ([parsers/base.py],
    [parsers/python_parser.py], [parsers/javascript_parser.py]), of the graph
    builder ([graph/builder.py]) and of the graph analyzer
    ([graph/analyzer.py]), with the properties their specification states.

    Conventions.  A Python [str] is a [string]; each character stands for one
    code point below 256.  A [dict] is an association list in insertion
    order.  A call that may raise returns a [Result].  A function of the
    program that calls itself takes the number of nested calls the
    interpreter still allows and raises [RecursionError] without one.  The
    libraries the
    program calls ([ast], [esprima], [re], [networkx.simple_cycles], the
    file system) are Section variables, fixed by their documented contract
    where a property depends on it. *)

From Stdlib Require Import String Ascii List Lia Bool Arith.
From Stdlib Require Import Sorted Permutation.
#[local] Set Warnings "-register-all".
Import ListNotations.
Local Open Scope string_scope.
Local Open Scope list_scope.

(** ** Python strings *)

Module PyStr.

(** [str.isspace] on one character: the code points below 256 that Python
    counts as whitespace. *)
Definition isspace (c : ascii) : bool :=
  let n := nat_of_ascii c in
  (((9 <=? n) && (n <=? 13)) || ((28 <=? n) && (n <=? 32))
   || (n =? 133) || (n =? 160))%nat.

Definition all_space (s : string) : Prop :=
  Forall (fun c => isspace c = true) (list_ascii_of_string s).

Definition is_empty (s : string) : bool :=
  match s with EmptyString => true | String _ _ => false end.

(** Truth value of a string: [bool(s)]. *)
Definition truthy (s : string) : bool := negb (is_empty s).

Fixpoint lstrip (s : string) : string :=
  match s with
  | EmptyString => EmptyString
  | String c t => if isspace c then lstrip t else s
  end.

Fixpoint rstrip (s : string) : string :=
  match s with
  | EmptyString => EmptyString
  | String c t =>
      let t' := rstrip t in
      if isspace c && is_empty t' then EmptyString else String c t'
  end.

(** [s.strip()] *)
Definition strip (s : string) : string := rstrip (lstrip s).

(** [s.startswith(p)] *)
Definition startswith (p s : string) : bool := String.prefix p s.

(** [s.startswith((p1, p2, ...))] *)
Definition startswith_any (ps : list string) (s : string) : bool :=
  existsb (fun p => startswith p s) ps.

Fixpoint drop (n : nat) (s : string) : string :=
  match n, s with
  | S k, String _ t => drop k t
  | _, _ => s
  end.

(** [s.endswith(p)] *)
Definition endswith (p s : string) : bool :=
  (String.length p <=? String.length s)%nat
  && String.eqb (drop (String.length s - String.length p) s) p.

(** [needle in hay] *)
Fixpoint contains (needle hay : string) : bool :=
  String.prefix needle hay
  || match hay with
     | EmptyString => false
     | String _ t => contains needle t
     end.

(** [s.split(sep)] for a one-character separator. *)
Fixpoint split (sep : ascii) (s : string) : list string :=
  match s with
  | EmptyString => [EmptyString]
  | String c t =>
      if Ascii.eqb c sep then EmptyString :: split sep t
      else match split sep t with
           | h :: r => String c h :: r
           | [] => [String c EmptyString]
           end
  end.

(** [sep.join(parts)] *)
Definition join (sep : string) (parts : list string) : string :=
  String.concat sep parts.

(** [s.replace(old, new)] for a non-empty [old] (every call site passes a
    literal): occurrences are replaced left to right, without overlap.
    [skip] counts the characters of a matched occurrence still to pass. *)
Fixpoint replace_from (old new s : string) (skip : nat) : string :=
  match s with
  | EmptyString => EmptyString
  | String c t =>
      match skip with
      | S k => replace_from old new t k
      | O =>
          if String.prefix old s
          then (new ++ replace_from old new t (String.length old - 1))%string
          else String c (replace_from old new t 0)
      end
  end.

Definition replace (old new s : string) : string := replace_from old new s 0.

(** [s.rfind(sep) + 1] cut: the part of [s] up to and including the last
    [sep], and the part after it. *)
Definition rsplit_sep (sep : ascii) (s : string) : string * string :=
  let parts := split sep s in
  ((String.concat (String sep EmptyString) (removelast parts)
    ++ (if (1 <? List.length parts)%nat then String sep EmptyString
        else EmptyString))%string,
   last parts EmptyString).

Definition newline : ascii := "010"%char.
Definition slash : ascii := "/"%char.

(** [p] occurs in [s]: what [p in s] decides. *)
Definition occurs_in (p s : string) : Prop :=
  exists pre suf, s = (pre ++ p ++ suf)%string.

(** A comment line: optional whitespace, then [#] or [//]. *)
Definition is_comment_line (line : string) : Prop :=
  exists ws rest,
    all_space ws
    /\ (line = (ws ++ "#" ++ rest)%string \/ line = (ws ++ "//" ++ rest)%string).

(** [s.lower()] on code points below 256: the letters [A]-[Z] and the
    capital letters of Latin-1 (192-222 but the multiplication sign, 215)
    go 32 up. *)
Definition lower_char (c : ascii) : ascii :=
  let n := nat_of_ascii c in
  if (((65 <=? n) && (n <=? 90))
      || ((192 <=? n) && (n <=? 222) && negb (n =? 215)))%nat
  then ascii_of_nat (n + 32)
  else c.

Fixpoint lower (s : string) : string :=
  match s with
  | EmptyString => EmptyString
  | String c t => String (lower_char c) (lower t)
  end.

End PyStr.

(** ** [os.path] on POSIX ([os.sep] is ["/"]) *)

Module OsPath.
Import PyStr.

Definition sep : string := "/".

(** [os.path.basename] *)
Definition basename (p : string) : string := snd (rsplit_sep slash p).

Fixpoint all_slashes (s : string) : bool :=
  match s with
  | EmptyString => true
  | String c t => Ascii.eqb c slash && all_slashes t
  end.

Fixpoint rstrip_slashes (s : string) : string :=
  match s with
  | EmptyString => EmptyString
  | String c t =>
      let t' := rstrip_slashes t in
      if Ascii.eqb c slash && is_empty t' then EmptyString else String c t'
  end.

(** [os.path.dirname] *)
Definition dirname (p : string) : string :=
  let head := fst (rsplit_sep slash p) in
  if truthy head && negb (all_slashes head) then rstrip_slashes head else head.

(** [os.path.join(a, b)] *)
Definition join (a b : string) : string :=
  if startswith sep b then b
  else if is_empty a || endswith sep a then (a ++ b)%string
  else (a ++ sep ++ b)%string.

End OsPath.

(** ** Exceptions

    A call that may raise returns [Raise e]; [try ... except E] is
    [try_except] with the handler's test on the exception. *)

Inductive exn : Type :=
| OSError            (* open() failed: missing file, permission, directory *)
| UnicodeDecodeError
| SyntaxError
| AttributeError
| TypeError
| ValueError
| RecursionError
| OtherException.    (* any other class derived from Exception *)

Inductive Result (A : Type) : Type :=
| Ok (a : A)
| Raise (e : exn).
Arguments Ok {A} a.
Arguments Raise {A} e.

Definition bind {A B : Type} (r : Result A) (k : A -> Result B) : Result B :=
  match r with
  | Ok a => k a
  | Raise e => Raise e
  end.

Notation "x <- r ;; k" := (bind r (fun x => k))
  (at level 61, r at next level, right associativity).

(** [try: body  except <handles>: handler] *)
Definition try_except {A : Type} (body : Result A) (handles : exn -> bool)
    (handler : Result A) : Result A :=
  match body with
  | Ok a => Ok a
  | Raise e => if handles e then handler else Raise e
  end.

Definition is_UnicodeDecodeError (e : exn) : bool :=
  match e with UnicodeDecodeError => true | _ => false end.

Definition is_SyntaxError (e : exn) : bool :=
  match e with SyntaxError => true | _ => false end.

(** [except Exception]: every exception of the model derives from
    [Exception]. *)
Definition is_Exception (e : exn) : bool := true.

(** ** The source model ([parsers/base.py]) *)

Inductive EntityType : Type := FUNCTION | CLASS | METHOD | VARIABLE | IMPORT.

(** [EntityType.value] *)
Definition value (t : EntityType) : string :=
  match t with
  | FUNCTION => "function"
  | CLASS => "class"
  | METHOD => "method"
  | VARIABLE => "variable"
  | IMPORT => "import"
  end.

(** The field [line] of a [Comment] is [comment_line] here, [line] being the
    field of [Import]. *)
Record Comment : Type := mkComment {
  text : string;
  comment_line : nat;
  is_docstring : bool;
  parent_entity : option string
}.

Record Import : Type := mkImport {
  module : string;
  names : list string;
  line : nat;
  is_star_import : bool;
  alias : option string
}.

(** The dataclass [Definition] of the source. *)
Record Defn : Type := mkDefn {
  name : string;
  type : EntityType;
  line_start : nat;
  line_end : nat;
  parent : option string;
  calls : list string;
  nesting_depth : nat;
  docstring : option string;
  parameters : list string
}.

Record ParsedFile : Type := mkParsedFile {
  file_path : string;
  language : string;
  imports : list Import;
  definitions : list Defn;
  comments : list Comment;
  lines_of_code : nat;
  raw_content : string
}.

(** [ParsedFile(file_path=..., language=..., raw_content=..., lines_of_code=...)]:
    the list fields take their defaults. *)
Definition new_ParsedFile (path lang content : string) (loc : nat) : ParsedFile :=
  mkParsedFile path lang [] [] [] loc content.

Definition set_imports (pf : ParsedFile) (v : list Import) : ParsedFile :=
  mkParsedFile (file_path pf) (language pf) v (definitions pf) (comments pf)
    (lines_of_code pf) (raw_content pf).

Definition set_definitions (pf : ParsedFile) (v : list Defn) : ParsedFile :=
  mkParsedFile (file_path pf) (language pf) (imports pf) v (comments pf)
    (lines_of_code pf) (raw_content pf).

Definition set_comments (pf : ParsedFile) (v : list Comment) : ParsedFile :=
  mkParsedFile (file_path pf) (language pf) (imports pf) (definitions pf) v
    (lines_of_code pf) (raw_content pf).

(** ** [BaseParser] *)

Module BaseParser.
Import PyStr.

(** The condition of the list comprehension of [_count_lines]:
    [line.strip() and not line.strip().startswith(('#', '//'))]. *)
Definition counted (line : string) : bool :=
  truthy (strip line) && negb (startswith_any ["#"; "//"] (strip line)).

Definition _count_lines (content : string) : nat :=
  let lines := split newline content in
  List.length (filter counted lines).

(** [count_where P l n]: exactly [n] entries of [l] satisfy [P]. *)
Inductive count_where {A : Type} (P : A -> Prop) : list A -> nat -> Prop :=
| count_nil : count_where P [] 0
| count_in (x : A) (l : list A) (n : nat) :
    P x -> count_where P l n -> count_where P (x :: l) (S n)
| count_out (x : A) (l : list A) (n : nat) :
    ~ P x -> count_where P l n -> count_where P (x :: l) n.

(** A line of code: neither blank nor a comment line. *)
Definition code_line (line : string) : Prop :=
  ~ all_space line /\ ~ is_comment_line line.

(** Text mode with [newline=None]: ["\r\n"] and a lone ["\r"] are read as
    ["\n"]. *)
Definition cr : string := String "013"%char EmptyString.
Definition lf : string := String newline EmptyString.

Definition universal_newlines (s : string) : string :=
  replace cr lf (replace (cr ++ lf)%string lf s).

(** The latin-1 codec maps every byte to the code point of the same number
    and rejects none. *)
Definition decode_latin1 (bs : list Byte.byte) : string :=
  string_of_list_byte bs.

Section ReadFile.

(** [fs_open path]: the bytes of the file, [None] when [open] raises. *)
Variable fs_open : string -> option (list Byte.byte).
(** The utf-8 codec; [None] is [UnicodeDecodeError]. *)
Variable decode_utf8 : list Byte.byte -> option string.

(** [with open(file_path, 'r', encoding=enc) as f: return f.read()] *)
Definition open_read (path : string)
    (decode : list Byte.byte -> Result string) : Result string :=
  match fs_open path with
  | None => Raise OSError
  | Some bs => s <- decode bs ;; Ok (universal_newlines s)
  end.

Definition utf8 (bs : list Byte.byte) : Result string :=
  match decode_utf8 bs with
  | Some s => Ok s
  | None => Raise UnicodeDecodeError
  end.

Definition latin1 (bs : list Byte.byte) : Result string :=
  Ok (decode_latin1 bs).

Definition _read_file (path : string) : Result string :=
  try_except (open_read path utf8) is_UnicodeDecodeError
    (open_read path latin1).

(** The text of a file with the bytes [bs]: its utf-8 decoding, or its
    latin-1 decoding when utf-8 rejects the bytes. *)
Definition text_of (bs : list Byte.byte) : string :=
  universal_newlines
    (match decode_utf8 bs with
     | Some s => s
     | None => decode_latin1 bs
     end).

End ReadFile.

(** The model of a file in which nothing was found. *)
Definition bare (path lang content : string) : ParsedFile :=
  mkParsedFile path lang [] [] [] (_count_lines content) content.

End BaseParser.

(** ** [pathlib.PurePosixPath], as far as [_get_relative_path] uses it *)

Module PathLib.
Import PyStr.

(** The root of a path string: ["/"], ["//"] (exactly two leading slashes)
    or none. *)
Definition root_of (p : string) : string :=
  match p with
  | String "/" (String "/" (String "/" _)) => "/"
  | String "/" (String "/" _) => "//"
  | String "/" _ => "/"
  | _ => ""
  end.

(** [Path(p).parts] without the root: empty and ["."] components vanish. *)
Definition components (p : string) : list string :=
  filter (fun c => truthy c && negb (String.eqb c ".")) (split slash p).

Record Path : Type := mkPath { root : string; parts : list string }.

Definition of_string (p : string) : Path := mkPath (root_of p) (components p).

(** [str(path)] *)
Definition to_string (p : Path) : string :=
  if is_empty (root p) && (List.length (parts p) =? 0)%nat then "."
  else (root p ++ String.concat "/" (parts p))%string.

Fixpoint strip_prefix (pre l : list string) : option (list string) :=
  match pre, l with
  | [], _ => Some l
  | a :: pre', b :: l' => if String.eqb a b then strip_prefix pre' l' else None
  | _ :: _, [] => None
  end.

(** [self.relative_to(other)]; [ValueError] unless [other] is [self] or one
    of its ancestors. *)
Definition relative_to (self other : Path) : Result Path :=
  if String.eqb (root self) (root other) then
    match strip_prefix (parts other) (parts self) with
    | Some rest => Ok (mkPath "" rest)
    | None => Raise ValueError
    end
  else Raise ValueError.

(** A path component: not empty, not ["."], without a slash. *)
Definition is_component (c : string) : bool :=
  truthy c && negb (String.eqb c ".")
  && forallb (fun x => negb (Ascii.eqb x slash)) (list_ascii_of_string c).

End PathLib.

(** ** Dictionaries in insertion order *)

Module Dict.

Section WithKey.
Context {K V : Type}.
Variable eqb : K -> K -> bool.

Fixpoint get (k : K) (d : list (K * V)) : option V :=
  match d with
  | [] => None
  | (k', v) :: r => if eqb k' k then Some v else get k r
  end.

Definition mem (k : K) (d : list (K * V)) : bool :=
  match get k d with Some _ => true | None => false end.

(** [d[k] = v]: an existing key keeps its position. *)
Fixpoint set (k : K) (v : V) (d : list (K * V)) : list (K * V) :=
  match d with
  | [] => [(k, v)]
  | (k', v') :: r => if eqb k' k then (k', v) :: r else (k', v') :: set k v r
  end.

(** [d.update(new)] *)
Definition update (d new : list (K * V)) : list (K * V) :=
  fold_left (fun acc kv => set (fst kv) (snd kv) acc) new d.

(** Apply [f] to the value stored under [k]. *)
Definition modify (k : K) (f : V -> V) (d : list (K * V)) : list (K * V) :=
  map (fun kv => if eqb (fst kv) k then (fst kv, f (snd kv)) else kv) d.

End WithKey.

End Dict.

(** ** [networkx.DiGraph] *)

Module Nx.

(** Attribute values. *)
Inductive pyval : Type :=
| PyNone
| PyBool (b : bool)
| PyInt (n : nat)
| PyStr (s : string).

Abbreviation attrs := (list (string * pyval)).

Abbreviation edge_key := (string * string)%type.

Definition edge_eqb (a b : edge_key) : bool :=
  String.eqb (fst a) (fst b) && String.eqb (snd a) (snd b).

(** Nodes and edges with their attribute dicts, each in insertion order.
    In a graph built through [add_node] and [add_edge] node ids and edge keys
    are unique. *)
Record DiGraph : Type := mkDiGraph {
  node_table : list (string * attrs);
  edge_table : list (edge_key * attrs)
}.

Definition empty : DiGraph := mkDiGraph [] [].

(** [G.clear()] *)
Definition clear (g : DiGraph) : DiGraph := empty.

(** [n in G] *)
Definition has_node (g : DiGraph) (n : string) : bool :=
  Dict.mem String.eqb n (node_table g).

(** [G.has_edge(u, v)] *)
Definition has_edge (g : DiGraph) (u v : string) : bool :=
  Dict.mem edge_eqb (u, v) (edge_table g).

(** [G.add_node(n, **a)] *)
Definition add_node (g : DiGraph) (n : string) (a : attrs) : DiGraph :=
  if has_node g n
  then mkDiGraph
         (Dict.modify String.eqb n (fun old => Dict.update String.eqb old a)
            (node_table g))
         (edge_table g)
  else mkDiGraph (node_table g ++ [(n, Dict.update String.eqb [] a)])
         (edge_table g).

(** [G.add_edge(u, v, **a)]: missing end points become nodes. *)
Definition add_edge (g : DiGraph) (u v : string) (a : attrs) : DiGraph :=
  let g := if has_node g u then g else add_node g u [] in
  let g := if has_node g v then g else add_node g v [] in
  if has_edge g u v
  then mkDiGraph (node_table g)
         (Dict.modify edge_eqb (u, v) (fun old => Dict.update String.eqb old a)
            (edge_table g))
  else mkDiGraph (node_table g)
         (edge_table g ++ [((u, v), Dict.update String.eqb [] a)]).

(** [G.nodes()] *)
Definition nodes (g : DiGraph) : list string := map fst (node_table g).

(** [G.edges()] *)
Definition edges (g : DiGraph) : list edge_key := map fst (edge_table g).

(** [G.in_degree(n)] *)
Definition in_degree (g : DiGraph) (n : string) : nat :=
  List.length (filter (fun e => String.eqb (snd e) n) (edges g)).

(** [G.out_degree(n)] *)
Definition out_degree (g : DiGraph) (n : string) : nat :=
  List.length (filter (fun e => String.eqb (fst e) n) (edges g)).

(** [G.successors(n)] and [G.predecessors(n)] *)
Definition successors (g : DiGraph) (n : string) : list string :=
  map snd (filter (fun e => String.eqb (fst e) n) (edges g)).

Definition predecessors (g : DiGraph) (n : string) : list string :=
  map fst (filter (fun e => String.eqb (snd e) n) (edges g)).

(** [G.nodes[n][k] = v] *)
Definition set_node_attr (g : DiGraph) (n k : string) (v : pyval) : DiGraph :=
  mkDiGraph (Dict.modify String.eqb n (Dict.set String.eqb k v) (node_table g))
    (edge_table g).

(** [G.edges[u, v][k] = x] *)
Definition set_edge_attr (g : DiGraph) (u v k : string) (x : pyval) : DiGraph :=
  mkDiGraph (node_table g)
    (Dict.modify edge_eqb (u, v) (Dict.set String.eqb k x) (edge_table g)).

(** [G.nodes[n].get(k)] and [G.edges[u, v].get(k)] *)
Definition node_attr (g : DiGraph) (n k : string) : option pyval :=
  match Dict.get String.eqb n (node_table g) with
  | Some a => Dict.get String.eqb k a
  | None => None
  end.

Definition edge_attr (g : DiGraph) (u v k : string) : option pyval :=
  match Dict.get edge_eqb (u, v) (edge_table g) with
  | Some a => Dict.get String.eqb k a
  | None => None
  end.

(** No edge of the graph joins a node to itself. *)
Definition no_self_edge (g : DiGraph) : Prop :=
  forall u, has_edge g u u = false.

(** *** Elementary cycles, the objects [networkx.simple_cycles] lists *)

(** Consecutive nodes of [l] are joined by edges. *)
Fixpoint chain (g : DiGraph) (l : list string) : Prop :=
  match l with
  | a :: (b :: _) as t => has_edge g a b = true /\ chain g t
  | _ => True
  end.

(** A closed directed walk through distinct nodes, written without its
    repeated end: [[v]] is a self-loop on [v]. *)
Definition elementary_cycle (g : DiGraph) (c : list string) : Prop :=
  match c with
  | [] => False
  | v :: _ => NoDup c /\ chain g (c ++ [v])
  end.

(** The pairs of neighbours in [l], and the edges a cycle runs through:
    those between neighbours and the one from its last node back to its
    first. *)
Fixpoint pairs (l : list string) : list edge_key :=
  match l with
  | a :: (b :: _) as t => (a, b) :: pairs t
  | _ => []
  end.

Definition cycle_pairs (c : list string) : list edge_key :=
  match c with
  | [] => []
  | v :: _ => pairs (c ++ [v])
  end.

(** The same cycle, started at another of its nodes. *)
Definition rotation (c c' : list string) : Prop :=
  exists a b, c = a ++ b /\ c' = b ++ a.

(** What [list(networkx.simple_cycles(G))] is documented to be: every
    elementary cycle of [G], each once, as the list of its nodes from some
    starting node. *)
Definition lists_elementary_cycles (g : DiGraph) (cs : list (list string))
    : Prop :=
  (forall c, In c cs -> elementary_cycle g c)
  /\ (forall c, elementary_cycle g c -> exists c', In c' cs /\ rotation c c')
  /\ NoDup cs
  /\ (forall c c', In c cs -> In c' cs -> rotation c c' -> c = c').

(** *** Well-formed graphs *)

(** Every edge joins two nodes of the graph. *)
Definition closed (g : DiGraph) : Prop :=
  forall u v, In (u, v) (edges g) -> In u (nodes g) /\ In v (nodes g).

(** What [networkx] keeps of a graph changed through [add_node] and
    [add_edge] only: node ids and edge keys are unique, edges join nodes. *)
Definition well_formed (g : DiGraph) : Prop :=
  NoDup (nodes g) /\ NoDup (edges g) /\ closed g.

End Nx.

(** ** The graph builder ([graph/builder.py]) *)

Module GraphBuilder.
Import PyStr Nx.

(** The truth value of an [Optional[str]]. *)
Definition opt_truthy (o : option string) : bool :=
  match o with Some s => truthy s | None => false end.

Definition opt_pyval (o : option string) : pyval :=
  match o with Some s => PyStr s | None => PyNone end.

Section WithRoot.

(** [self.root_dir] *)
Variable root_dir : string.

Definition _get_relative_path (path : string) : string :=
  match PathLib.relative_to (PathLib.of_string path)
          (PathLib.of_string root_dir) with
  | Ok p => PathLib.to_string p
  | Raise _ => OsPath.basename path
  end.

Definition _get_cluster (rel_path : string) : string :=
  let dirname := OsPath.dirname rel_path in
  if truthy dirname then dirname else ".".

(** [module_path[:-len(ext)]] for the first extension that ends the path. *)
Fixpoint strip_first_ext (exts : list string) (module_path : string) : string :=
  match exts with
  | [] => module_path
  | ext :: rest =>
      if endswith ext module_path
      then substring 0 (String.length module_path - String.length ext)
             module_path
      else strip_first_ext rest module_path
  end.

Definition module_map_t : Type := list (string * string).

Definition set_if_absent (k v : string) (m : module_map_t) : module_map_t :=
  if Dict.mem String.eqb k m then m else Dict.set String.eqb k v m.

(** One iteration of the loop of [_create_module_mapping]. *)
Definition map_one_file (module_map : module_map_t) (pf : ParsedFile)
    : module_map_t :=
  let rel_path := _get_relative_path (file_path pf) in
  if String.eqb (language pf) "python" then
    let module_parts := split slash (replace ".py" "" rel_path) in
    let module_name := join "." module_parts in
    let module_map := Dict.set String.eqb module_name rel_path module_map in
    let filename := replace ".py" "" (OsPath.basename rel_path) in
    set_if_absent filename rel_path module_map
  else
    let module_path := strip_first_ext [".js"; ".jsx"; ".ts"; ".tsx"] rel_path in
    let module_map := Dict.set String.eqb module_path rel_path module_map in
    let module_map :=
      Dict.set String.eqb ("./" ++ module_path)%string rel_path module_map in
    let filename := OsPath.basename module_path in
    set_if_absent filename rel_path module_map.

Definition _create_module_mapping (parsed_files : list ParsedFile)
    : module_map_t :=
  fold_left map_one_file parsed_files [].

(** The keys one file brings to the module map: those assigned whatever the
    map holds, and the bare file name, assigned only while it is no key. *)
Definition assigned_keys (pf : ParsedFile) : list string :=
  let rel_path := _get_relative_path (file_path pf) in
  if String.eqb (language pf) "python" then
    [join "." (split slash (replace ".py" "" rel_path))]
  else
    let module_path := strip_first_ext [".js"; ".jsx"; ".ts"; ".tsx"] rel_path in
    [module_path; ("./" ++ module_path)%string].

Definition filename_key (pf : ParsedFile) : string :=
  let rel_path := _get_relative_path (file_path pf) in
  if String.eqb (language pf) "python" then
    replace ".py" "" (OsPath.basename rel_path)
  else
    OsPath.basename (strip_first_ext [".js"; ".jsx"; ".ts"; ".tsx"] rel_path).

(** The walk over the segments of a relative module string. *)
Definition walk_part (current_dir part : string) : string :=
  if String.eqb part "." then current_dir
  else if String.eqb part ".." then OsPath.dirname current_dir
  else OsPath.join current_dir part.

(** The probe loop over the suffixes, left at the first hit. *)
Fixpoint probe (module_map : module_map_t) (current_dir : string)
    (exts : list string) : list string :=
  match exts with
  | [] => []
  | ext :: rest =>
      let candidate := (current_dir ++ ext)%string in
      match Dict.get String.eqb candidate module_map with
      | Some target => [target]
      | None => probe module_map current_dir rest
      end
  end.

Definition _resolve_import (module source_file : string)
    (module_map : module_map_t) (parsed_files : list ParsedFile)
    : list string :=
  match Dict.get String.eqb module module_map with
  | Some target => [target]
  | None =>
      if startswith "." module then
        let source_dir := OsPath.dirname (_get_relative_path source_file) in
        let parts := split slash module in
        let current_dir := fold_left walk_part parts source_dir in
        probe module_map current_dir
          [""; ".py"; ".js"; ".jsx"; ".ts"; ".tsx"; "/index.js"; "/index.ts"]
      else
        map (fun pf => _get_relative_path (file_path pf))
          (filter
             (fun pf => contains (replace "." OsPath.sep module)
                          (_get_relative_path (file_path pf)))
             parsed_files)
  end.

(** The node loop of [build_file_graph]. *)
Definition add_file_node (g : DiGraph) (pf : ParsedFile) : DiGraph :=
  let rel_path := _get_relative_path (file_path pf) in
  let cluster := _get_cluster rel_path in
  add_node g rel_path
    [("file_path", PyStr (file_path pf));
     ("language", PyStr (language pf));
     ("lines_of_code", PyInt (lines_of_code pf));
     ("cluster", PyStr cluster);
     ("num_definitions", PyInt (List.length (definitions pf)));
     ("num_imports", PyInt (List.length (imports pf)))].

(** The edge loops of [build_file_graph]. *)
Definition add_import_target (source : string) (g : DiGraph) (target : string)
    : DiGraph :=
  if has_node g target
  then add_edge g source target [("import_type", PyStr "direct")]
  else g.

Definition add_import_edges (module_map : module_map_t)
    (parsed_files : list ParsedFile) (pf : ParsedFile) (source : string)
    (g : DiGraph) (imp : Import) : DiGraph :=
  let target_files :=
    _resolve_import (module imp) (file_path pf) module_map parsed_files in
  fold_left (add_import_target source) target_files g.

Definition add_file_edges (module_map : module_map_t)
    (parsed_files : list ParsedFile) (g : DiGraph) (pf : ParsedFile)
    : DiGraph :=
  let source := _get_relative_path (file_path pf) in
  fold_left (add_import_edges module_map parsed_files pf source) (imports pf) g.

(** What [build_file_graph] does to the graph object [self.file_graph]. *)
Definition fill_file_graph (file_graph : DiGraph)
    (parsed_files : list ParsedFile) : DiGraph :=
  let g := clear file_graph in
  let module_to_file := _create_module_mapping parsed_files in
  let g := fold_left add_file_node parsed_files g in
  fold_left (add_file_edges module_to_file parsed_files) parsed_files g.

(** [f"{rel_path}::{defn.parent}.{defn.name}"] or [f"{rel_path}::{defn.name}"] *)
Definition entity_id (rel_path : string) (defn : Defn) : string :=
  match parent defn with
  | Some p =>
      if truthy p then (rel_path ++ "::" ++ p ++ "." ++ name defn)%string
      else (rel_path ++ "::" ++ name defn)%string
  | None => (rel_path ++ "::" ++ name defn)%string
  end.

Definition entity_map_t : Type := list (string * (string * Defn)).

(** The node loop of [build_entity_graph]: the state is the name index and
    the graph. *)
Definition add_entity_node (rel_path : string) (st : entity_map_t * DiGraph)
    (defn : Defn) : entity_map_t * DiGraph :=
  let '(entity_map, g) := st in
  let id := entity_id rel_path defn in
  let entity_map := Dict.set String.eqb (name defn) (rel_path, defn) entity_map in
  let entity_map :=
    match parent defn with
    | Some p =>
        if truthy p
        then Dict.set String.eqb (p ++ "." ++ name defn)%string
               (rel_path, defn) entity_map
        else entity_map
    | None => entity_map
    end in
  (entity_map,
   add_node g id
     [("name", PyStr (name defn));
      ("type", PyStr (value (type defn)));
      ("file", PyStr rel_path);
      ("cluster", PyStr rel_path);
      ("line_start", PyInt (line_start defn));
      ("line_end", PyInt (line_end defn));
      ("nesting_depth", PyInt (nesting_depth defn));
      ("parent", opt_pyval (parent defn))]).

Definition add_entity_nodes (st : entity_map_t * DiGraph) (pf : ParsedFile)
    : entity_map_t * DiGraph :=
  let rel_path := _get_relative_path (file_path pf) in
  fold_left (add_entity_node rel_path) (definitions pf) st.

(** The edge loops of [build_entity_graph]. *)
Definition add_call_edge (entity_map : entity_map_t) (source_id : string)
    (g : DiGraph) (call : string) : DiGraph :=
  match Dict.get String.eqb call entity_map with
  | Some (target_file, target_defn) =>
      let target_id := entity_id target_file target_defn in
      if has_node g target_id && negb (String.eqb source_id target_id)
      then add_edge g source_id target_id [("call_type", PyStr "direct")]
      else g
  | None => g
  end.

Definition add_defn_edges (entity_map : entity_map_t) (rel_path : string)
    (g : DiGraph) (defn : Defn) : DiGraph :=
  let source_id := entity_id rel_path defn in
  fold_left (add_call_edge entity_map source_id) (calls defn) g.

Definition add_entity_edges (entity_map : entity_map_t) (g : DiGraph)
    (pf : ParsedFile) : DiGraph :=
  let rel_path := _get_relative_path (file_path pf) in
  fold_left (add_defn_edges entity_map rel_path) (definitions pf) g.

(** What [build_entity_graph] does to the graph object [self.entity_graph]. *)
Definition fill_entity_graph (entity_graph : DiGraph)
    (parsed_files : list ParsedFile) : DiGraph :=
  let g := clear entity_graph in
  let '(entity_map, g) := fold_left add_entity_nodes parsed_files ([], g) in
  fold_left (add_entity_edges entity_map) parsed_files g.

(** The definitions of the parsed files with the relative path of their
    file, in the order of the node loop of [build_entity_graph], and the
    names under which that loop enters a definition in the name index. *)
Definition entities (parsed_files : list ParsedFile) : list (string * Defn) :=
  flat_map
    (fun pf => map (pair (_get_relative_path (file_path pf))) (definitions pf))
    parsed_files.

Definition entity_names (defn : Defn) : list string :=
  name defn
  :: (if opt_truthy (parent defn)
      then [(match parent defn with Some p => p | None => "" end
             ++ "." ++ name defn)%string]
      else []).

(** The name index [entity_map] once the node loop is over. *)
Definition entity_index (parsed_files : list ParsedFile) : entity_map_t :=
  fst (fold_left add_entity_nodes parsed_files ([], empty)).

End WithRoot.

(** The builder object.  [__init__] creates two graph objects and every
    build call returns one of them, so a returned graph is a reference to
    an attribute of the builder: [graph_ref] names the object, the builder
    record holds what each object contains. *)
Inductive graph_ref : Type := FileGraphObj | EntityGraphObj.

Record t : Type := mkBuilder {
  root_dir : string;
  file_graph : DiGraph;
  entity_graph : DiGraph
}.

(** [GraphBuilder(root_dir)] *)
Definition init (root : string) : t := mkBuilder root empty empty.

(** The graph a reference denotes in a builder state. *)
Definition deref (b : t) (r : graph_ref) : DiGraph :=
  match r with
  | FileGraphObj => file_graph b
  | EntityGraphObj => entity_graph b
  end.

(** [build_file_graph(parsed_files)]: the builder afterwards and the
    returned reference, [self.file_graph]. *)
Definition build_file_graph (b : t) (parsed_files : list ParsedFile)
    : t * graph_ref :=
  (mkBuilder (root_dir b)
     (fill_file_graph (root_dir b) (file_graph b) parsed_files)
     (entity_graph b),
   FileGraphObj).

(** [build_entity_graph(parsed_files)]: the builder afterwards and the
    returned reference, [self.entity_graph]. *)
Definition build_entity_graph (b : t) (parsed_files : list ParsedFile)
    : t * graph_ref :=
  (mkBuilder (root_dir b) (file_graph b)
     (fill_entity_graph (root_dir b) (entity_graph b) parsed_files),
   EntityGraphObj).

End GraphBuilder.

(** ** The graph analyzer ([graph/analyzer.py]) *)

Module GraphAnalyzer.
Import PyStr Nx.

(** [cycles.sort(key=len)]: Python's sort is stable, so is this insertion
    sort (an element goes before the first one that is not shorter). *)
Fixpoint insert_by_len (c : list string) (l : list (list string))
    : list (list string) :=
  match l with
  | [] => [c]
  | h :: t =>
      if (List.length c <=? List.length h)%nat then c :: l
      else h :: insert_by_len c t
  end.

Fixpoint sort_by_len (l : list (list string)) : list (list string) :=
  match l with
  | [] => []
  | c :: t => insert_by_len c (sort_by_len t)
  end.

(** [x in s] for a set of strings. *)
Definition mem (x : string) (s : list string) : bool :=
  existsb (String.eqb x) s.

Section WithNetworkx.

(** [list(nx.simple_cycles(G))] *)
Variable simple_cycles : DiGraph -> Result (list (list string)).

Definition find_circular_dependencies (g : DiGraph) : list (list string) :=
  match simple_cycles g with
  | Ok cycles =>
      let cycles := filter (fun c => (1 <? List.length c)%nat) cycles in
      sort_by_len cycles
  | Raise _ => []
  end.

(** The body of the edge loop of [mark_cycles] for index [i] of [cycle]. *)
Definition mark_cycle_edge (cycle : list string) (g : DiGraph) (i : nat)
    : DiGraph :=
  let source := nth i cycle "" in
  let target := nth ((i + 1) mod List.length cycle) cycle "" in
  if has_edge g source target
  then set_edge_attr g source target "in_cycle" (PyBool true)
  else g.

Definition mark_cycle_edges (g : DiGraph) (cycle : list string) : DiGraph :=
  fold_left (mark_cycle_edge cycle) (seq 0 (List.length cycle)) g.

Definition mark_node (nodes_in_cycles : list string) (g : DiGraph)
    (node : string) : DiGraph :=
  set_node_attr g node "in_cycle" (PyBool (mem node nodes_in_cycles)).

(** [mark_cycles] changes the graph in place: the graph afterwards. *)
Definition mark_cycles (g : DiGraph) : DiGraph :=
  let cycles := find_circular_dependencies g in
  let nodes_in_cycles := concat cycles in
  let g := fold_left (mark_node nodes_in_cycles) (nodes g) g in
  fold_left mark_cycle_edges cycles g.

End WithNetworkx.

Definition find_isolated_nodes (g : DiGraph) : list string :=
  filter (fun node => (in_degree g node =? 0)%nat && (out_degree g node =? 0)%nat)
    (nodes g).

(** [entry_points] defaults to [None]; [entry_points or []] turns [None]
    (and the empty list) into the empty list. *)
Definition find_stranded_nodes (g : DiGraph)
    (entry_points : option (list string)) : list string :=
  let entry_points :=
    match entry_points with
    | Some l => l
    | None => []
    end in
  filter
    (fun node =>
       let in_degree := in_degree g node in
       let is_entry_point := existsb (fun ep => contains ep node) entry_points in
       (in_degree =? 0)%nat && negb is_entry_point)
    (nodes g).

Definition get_dependencies (g : DiGraph) (node : string) : list string :=
  if has_node g node then successors g node else [].

Definition get_dependents (g : DiGraph) (node : string) : list string :=
  if has_node g node then predecessors g node else [].

(** *** A reference enumeration of the elementary cycles

    Every cycle is listed from its node that comes first among the nodes
    with an outgoing edge, and grown one edge at a time through later
    nodes only. *)

Fixpoint dedup (l : list string) : list string :=
  match l with
  | [] => []
  | x :: t => if mem x t then dedup t else x :: dedup t
  end.

(** One more edge on each walk; walks are kept in reverse, the current
    node first. *)
Definition extend (g : DiGraph) (allowed : list string)
    (walks : list (list string)) : list (list string) :=
  flat_map
    (fun w =>
       match w with
       | [] => []
       | cur :: _ =>
           map (fun x => x :: w)
             (filter (fun x => has_edge g cur x && negb (mem x w)) allowed)
       end)
    walks.

(** The walks of 0, 1, ..., [n] edges from the walks given. *)
Fixpoint grow (g : DiGraph) (allowed : list string) (n : nat)
    (walks : list (list string)) : list (list string) :=
  match n with
  | O => walks
  | S k => walks ++ grow g allowed k (extend g allowed walks)
  end.

Definition closes (g : DiGraph) (start : string) (w : list string) : bool :=
  match w with
  | [] => false
  | cur :: _ => has_edge g cur start
  end.

(** The cycles through [start] and nodes of [later] only. *)
Definition cycles_from (g : DiGraph) (start : string) (later : list string)
    : list (list string) :=
  map (@rev string)
    (filter (closes g start) (grow g later (List.length later) [[start]])).

Fixpoint cycles_over (g : DiGraph) (vs : list string) : list (list string) :=
  match vs with
  | [] => []
  | v :: later => cycles_from g v later ++ cycles_over g later
  end.

Definition reference_cycles (g : DiGraph) : list (list string) :=
  cycles_over g (dedup (map fst (edges g))).

Definition reference_simple_cycles (g : DiGraph)
    : Result (list (list string)) :=
  Ok (reference_cycles g).

(** A walk kept in reverse: every node is reached by an edge from the node
    after it in the list. *)
Fixpoint rchain (g : DiGraph) (w : list string) : Prop :=
  match w with
  | x :: (cur :: _) as t => has_edge g cur x = true /\ rchain g t
  | _ => True
  end.

(** What every walk the enumeration holds satisfies: it starts at [start],
    goes on through [later] and visits no node twice. *)
Definition walk_inv (g : DiGraph) (start : string) (later : list string)
    (w : list string) : Prop :=
  exists pre,
    w = pre ++ [start] /\ incl pre later /\ NoDup w /\ rchain g w.

(** *** Vocabulary of the properties *)

(** The order of the result of [find_circular_dependencies]. *)
Definition shorter (a b : list string) : Prop :=
  List.length a <= List.length b.

(** What [mark_cycles] does to one entry of the node table and of the edge
    table, given the nodes and the pairs of the cycles found. *)
Definition flag_node (nodes_in_cycles : list string) (e : string * attrs)
    : string * attrs :=
  (fst e,
   Dict.set String.eqb "in_cycle" (PyBool (mem (fst e) nodes_in_cycles))
     (snd e)).

Definition on_pairs (ps : list (string * string)) (k : string * string) : bool :=
  existsb (edge_eqb k) ps.

Definition flag_edge (ps : list (string * string))
    (e : (string * string) * attrs) : (string * string) * attrs :=
  if on_pairs ps (fst e)
  then (fst e, Dict.set String.eqb "in_cycle" (PyBool true) (snd e))
  else e.

Definition mark_pair (g : DiGraph) (p : string * string) : DiGraph :=
  if has_edge g (fst p) (snd p)
  then set_edge_attr g (fst p) (snd p) "in_cycle" (PyBool true)
  else g.

(** *** The remaining queries of the analyzer *)

(** [dict(self.graph.nodes[node])], [{}] for a node the graph lacks. *)
Definition get_node_data (g : DiGraph) (node : string) : attrs :=
  if has_node g node
  then match Dict.get String.eqb node (node_table g) with
       | Some a => a
       | None => []
       end
  else [].

(** Python's [==] on attribute values, the equality of dict keys: [True] is
    [1] and [False] is [0]. *)
Definition py_eqb (a b : pyval) : bool :=
  match a, b with
  | PyNone, PyNone => true
  | PyBool x, PyBool y => Bool.eqb x y
  | PyInt n, PyInt m => Nat.eqb n m
  | PyBool x, PyInt n => Nat.eqb (if x then 1 else 0) n
  | PyInt n, PyBool x => Nat.eqb n (if x then 1 else 0)
  | PyStr s, PyStr t => String.eqb s t
  | _, _ => false
  end.

(** [node_data.get('cluster', 'unknown')] *)
Definition cluster_of (g : DiGraph) (node : string) : pyval :=
  let node_data :=
    match Dict.get String.eqb node (node_table g) with
    | Some a => a
    | None => []
    end in
  match Dict.get String.eqb "cluster" node_data with
  | Some v => v
  | None => PyStr "unknown"
  end.

(** The body of the loop of [get_clusters]. *)
Definition add_to_cluster (g : DiGraph) (clusters : list (pyval * list string))
    (node : string) : list (pyval * list string) :=
  let cluster := cluster_of g node in
  let clusters :=
    if Dict.mem py_eqb cluster clusters then clusters
    else Dict.set py_eqb cluster [] clusters in
  Dict.modify py_eqb cluster (fun members => members ++ [node]) clusters.

Definition get_clusters (g : DiGraph) : list (pyval * list string) :=
  fold_left (add_to_cluster g) (nodes g) [].

End GraphAnalyzer.

(** ** The stranded-file check ([detectors/unused_code.py]) *)

Module UnusedCodeDetector.
Import PyStr Nx.

Inductive IssueSeverity : Type := INFO | WARNING | ERROR | CRITICAL.

(** The dataclass [Issue].  [file_path] holds what the caller passes, here
    an attribute value of a node. *)
Record Issue : Type := mkIssue {
  severity : IssueSeverity;
  category : string;
  message : string;
  file_path : pyval;
  line : nat;
  line_end : nat;
  code_snippet : string;
  suggestion : string;
  metadata : list (string * pyval)
}.

(** The [Issue(...)] of [_check_stranded_files] for one node. *)
Definition stranded_issue (file_graph : DiGraph) (node : string) : Issue :=
  let file_path :=
    match node_attr file_graph node "file_path" with
    | Some v => v
    | None => PyStr node
    end in
  mkIssue ERROR "Stranded File" ("File is never imported: " ++ node)%string
    file_path 0 0 ""
    "Remove file or add imports if it's an entry point"
    [("file", PyStr node)].

(** The body of the loop of [_check_stranded_files]; [issues] is
    [self.issues]. *)
Definition check_node (file_graph : DiGraph) (entry_points : list string)
    (issues : list Issue) (node : string) : list Issue :=
  let in_degree := in_degree file_graph node in
  if (in_degree =? 0)%nat then
    let is_entry := existsb (fun ep => contains ep node) entry_points in
    let is_test := contains "test" (lower node) || endswith "_test.py" node in
    if negb is_entry && negb is_test
    then issues ++ [stranded_issue file_graph node]
    else issues
  else issues.

(** [_check_stranded_files(file_graph)] with [entry_points] the list the
    configuration holds: [self.issues] afterwards. *)
Definition _check_stranded_files (entry_points : list string)
    (issues : list Issue) (file_graph : DiGraph) : list Issue :=
  fold_left (check_node file_graph entry_points) (nodes file_graph) issues.

End UnusedCodeDetector.

(** ** The parse loop of the command line ([cli.py], [analyze]) *)

Module Cli.

(** [utils.file_scanner.FileInfo] *)
Record FileInfo : Type := mkFileInfo {
  path : string;
  size : nat;
  language : string;
  relative_path : string
}.

Section ParseLoop.

(** [python_parser.parse_file] and [js_parser.parse_file] *)
Variable python_parse_file : string -> Result ParsedFile.
Variable js_parse_file : string -> Result ParsedFile.

(** The state of the loop: [parsed_files], [entity_count], and the paths
    the warning line was echoed for. *)
Record state : Type := mkState {
  parsed_files : list ParsedFile;
  entity_count : nat;
  warned : list string
}.

(** The call the [try] block makes for one file. *)
Definition parse_of (file_info : FileInfo) : Result ParsedFile :=
  if String.eqb (language file_info) "python"
  then python_parse_file (path file_info)
  else js_parse_file (path file_info).

(** One iteration: the [try] block and its [except Exception] handler. *)
Definition parse_step (st : state) (file_info : FileInfo) : Result state :=
  try_except
    (parsed <- parse_of file_info ;;
     Ok (mkState (parsed_files st ++ [parsed])
           (entity_count st + List.length (definitions parsed))
           (warned st)))
    is_Exception
    (Ok (mkState (parsed_files st) (entity_count st)
           (warned st ++ [path file_info]))).

Fixpoint parse_loop (st : state) (files : list FileInfo) : Result state :=
  match files with
  | [] => Ok st
  | file_info :: rest => st' <- parse_step st file_info ;; parse_loop st' rest
  end.

(** The loop from its initial state. *)
Definition parse_files (files : list FileInfo) : Result state :=
  parse_loop (mkState [] 0 []) files.

End ParseLoop.

End Cli.

(** ** Python syntax trees, as [ast.parse] returns them *)

Module Ast.

Record alias : Type := mkAlias { alias_name : string; asname : option string }.

(** The compound statements [_calculate_nesting] counts. *)
Inductive compound : Type := If | For | While | With | Try.

(** A node carries what the parser reads from it, and its child nodes in
    the order of [ast.iter_child_nodes].  [doc] is [ast.get_docstring] of
    the node.  Leaves the parser reads nothing from (an [alias], a [Load]
    context) may be left out of [children]; the tree is then a level lower
    where they hung. *)
Inductive node : Type :=
| Mod (doc : option string) (body : list node)
| AstImport (names : list alias) (lineno : nat)
| ImportFrom (module : option string) (names : list alias) (level : nat)
    (lineno : nat)
| FunctionDef (is_async : bool) (name : string) (args : list string)
    (doc : option string) (lineno : nat) (end_lineno : option nat)
    (children : list node)
| ClassDef (name : string) (doc : option string) (lineno : nat)
    (end_lineno : option nat) (children : list node)
| Compound (kind : compound) (children : list node)
| Call (func : node) (rest : list node)
| Name (id : string)
| Attribute (value : node) (attr : string)
| Other (children : list node).

(** [ast.iter_child_nodes] *)
Definition iter_child_nodes (n : node) : list node :=
  match n with
  | Mod _ body => body
  | AstImport _ _ => []
  | ImportFrom _ _ _ _ => []
  | FunctionDef _ _ _ _ _ _ children => children
  | ClassDef _ _ _ _ children => children
  | Compound _ children => children
  | Call func rest => func :: rest
  | Name _ => []
  | Attribute value _ => [value]
  | Other children => children
  end.

Fixpoint height (n : node) : nat :=
  let fix heights (l : list node) : nat :=
    match l with
    | [] => 0
    | x :: t => Nat.max (height x) (heights t)
    end in
  match n with
  | Mod _ body => S (heights body)
  | AstImport _ _ => 1
  | ImportFrom _ _ _ _ => 1
  | FunctionDef _ _ _ _ _ _ children => S (heights children)
  | ClassDef _ _ _ _ children => S (heights children)
  | Compound _ children => S (heights children)
  | Call func rest => S (Nat.max (height func) (heights rest))
  | Name _ => 1
  | Attribute value _ => S (height value)
  | Other children => S (heights children)
  end.

(** The queue of [ast.walk], one level of the tree at a time. *)
Fixpoint walk_levels (levels : nat) (level : list node) : list node :=
  match levels with
  | O => []
  | S k => level ++ walk_levels k (flat_map iter_child_nodes level)
  end.

(** [ast.walk]: the node and its descendants, breadth first. *)
Definition walk (n : node) : list node := walk_levels (height n) [n].

(** [x] is [n] or a descendant of [n]. *)
Inductive subnode (x : node) : node -> Prop :=
| subnode_self : subnode x x
| subnode_child (c n : node) :
    In c (iter_child_nodes n) -> subnode x c -> subnode x n.

End Ast.

(** ** The Python parser ([parsers/python_parser.py]) *)

Module PythonParser.
Import PyStr Ast.

Definition can_parse (language : string) : bool := String.eqb language "python".

(** The body of the loop of [_extract_imports] for one node. *)
Definition imports_of_node (n : node) : list Import :=
  match n with
  | AstImport names lineno =>
      map (fun a => mkImport (alias_name a) [alias_name a] lineno false (asname a))
        names
  | ImportFrom (Some module) names _ lineno =>
      if truthy module then
        let names := map alias_name names in
        let is_star := existsb (String.eqb "*") names in
        [mkImport module names lineno is_star None]
      else []
  | _ => []
  end.

Definition _extract_imports (tree : node) : list Import :=
  flat_map imports_of_node (walk tree).

(** [DefinitionVisitor._extract_calls]: the loop body for one node. *)
Definition calls_of_node (child : node) : list string :=
  match child with
  | Call (Name id) _ => [id]
  | Call (Attribute (Name id) attr) _ => [(id ++ "." ++ attr)%string]
  | Call (Attribute _ attr) _ => [attr]
  | _ => []
  end.

Definition _extract_calls (n : node) : list string :=
  flat_map calls_of_node (walk n).

Definition increases_nesting (n : node) : bool :=
  match n with Compound _ _ => true | _ => false end.

(** *** The recursion limit

    [DefinitionVisitor.visit] with [generic_visit], and the closure
    [calculate_depth], call themselves once for every level of the tree,
    and the interpreter allows only so many nested calls.  [frames] is the
    number of nested calls still allowed: each call that stays on the stack
    while the recursion goes on takes one, and a call that finds none left
    raises [RecursionError].  The calls that return before the recursion
    goes on ([ast.get_docstring], [_extract_calls] with its [ast.walk], the
    generators of [ast]) are taken to fit, and a leaf left out of a tree
    would have cost the frames of its own visit. *)

(** [calculate_depth(n, current_depth)].  The [nonlocal max_depth] is passed
    in and handed back. *)
Fixpoint calculate_depth (frames : nat) (n : node)
    (current_depth max_depth : nat) : Result nat :=
  match frames with
  | O => Raise RecursionError
  | S frames =>
      let max_depth := Nat.max max_depth current_depth in
      let current_depth :=
        if increases_nesting n then S current_depth else current_depth in
      fold_left
        (fun acc child =>
           max_depth <- acc ;;
           calculate_depth frames child current_depth max_depth)
        (iter_child_nodes n) (Ok max_depth)
  end.

(** [_calculate_nesting(node)]: [max_depth = 0], then [calculate_depth(node)]. *)
Definition _calculate_nesting (frames : nat) (n : node) : Result nat :=
  match frames with
  | O => Raise RecursionError
  | S frames => calculate_depth frames n 0 0
  end.

(** What a call of [calculate_depth] that runs to its end leaves in
    [max_depth], when it was not larger before: the largest
    [current_depth] any node of the subtree is reached with. *)
Fixpoint reached_depth (n : node) (current_depth : nat) : nat :=
  let inner := if increases_nesting n then S current_depth else current_depth in
  let fix over (l : list node) (max_depth : nat) : nat :=
    match l with
    | [] => max_depth
    | child :: t => over t (Nat.max max_depth (reached_depth child inner))
    end in
  match n with
  | Mod _ body => over body current_depth
  | AstImport _ _ => current_depth
  | ImportFrom _ _ _ _ => current_depth
  | FunctionDef _ _ _ _ _ _ children => over children current_depth
  | ClassDef _ _ _ _ children => over children current_depth
  | Compound _ children => over children current_depth
  | Call func rest =>
      over rest (Nat.max current_depth (reached_depth func inner))
  | Name _ => current_depth
  | Attribute value _ => Nat.max current_depth (reached_depth value inner)
  | Other children => over children current_depth
  end.

(** [node.end_lineno or node.lineno] *)
Definition end_or (end_lineno : option nat) (lineno : nat) : nat :=
  match end_lineno with
  | Some (S e) => S e
  | _ => lineno
  end.

(** The loop of [generic_visit]: [self.visit(child)] for each child, the
    definitions appended in that order. *)
Definition visit_each (visit_child : node -> Result (list Defn))
    (children : list node) : Result (list Defn) :=
  fold_left
    (fun acc child =>
       definitions <- acc ;;
       more <- visit_child child ;;
       Ok (definitions ++ more))
    children (Ok []).

(** [DefinitionVisitor.visit], which returns the definitions it appends;
    [current_class] is saved and restored around a class body, so it is an
    argument here.  [NodeVisitor.visit] takes a frame and the method it
    dispatches to takes one: [visit_ClassDef], which calls [generic_visit],
    [visit_FunctionDef], reached through [visit_AsyncFunctionDef] for an
    async function, or [generic_visit] itself.  A function body is not
    visited. *)
Fixpoint visit (frames : nat) (current_class : option string) (n : node)
    : Result (list Defn) :=
  match frames with
  | O => Raise RecursionError
  | S O => Raise RecursionError
  | S (S frames) =>
      match n with
      | ClassDef name doc lineno end_lineno children =>
          let defn :=
            mkDefn name CLASS lineno (end_or end_lineno lineno) current_class
              [] 0 doc [] in
          match frames with
          | O => Raise RecursionError
          | S frames =>
              more <- visit_each (visit frames (Some name)) children ;;
              Ok (defn :: more)
          end
      | FunctionDef is_async name args doc lineno end_lineno _ =>
          match (if is_async then frames else S frames) with
          | O => Raise RecursionError
          | S frames =>
              let entity_type :=
                if GraphBuilder.opt_truthy current_class then METHOD
                else FUNCTION in
              let calls := _extract_calls n in
              nesting <- _calculate_nesting frames n ;;
              Ok [mkDefn name entity_type lineno (end_or end_lineno lineno)
                    current_class calls nesting doc args]
          end
      | _ => visit_each (visit frames current_class) (iter_child_nodes n)
      end
  end.

(** [visitor.visit(tree)], then [visitor.definitions]; [frames] is what the
    interpreter allows the visitor. *)
Definition _extract_definitions (frames : nat) (tree : node) (content : string)
    : Result (list Defn) :=
  visit frames None tree.

(** The first loop of [_extract_comments]: lines numbered from [i]. *)
Fixpoint line_comments (i : nat) (lines : list string) : list Comment :=
  match lines with
  | [] => []
  | line :: t =>
      let stripped := strip line in
      (if startswith "#" stripped
       then [mkComment (strip (drop 1 stripped)) i false None]
       else [])
      ++ line_comments (S i) t
  end.

(** The second loop of [_extract_comments] for one node: an
    [AsyncFunctionDef] is not an instance of [FunctionDef]. *)
Definition docstring_of_node (n : node) : list Comment :=
  let entry (doc : option string) (parent_name : option string) (line_no : nat) :=
    match doc with
    | Some d => if truthy d then [mkComment d line_no true parent_name] else []
    | None => []
    end in
  match n with
  | FunctionDef false name _ doc lineno _ _ => entry doc (Some name) lineno
  | ClassDef name doc lineno _ _ => entry doc (Some name) lineno
  | Mod doc _ => entry doc None 1
  | _ => []
  end.

Definition _extract_comments (content : string) (tree : node) : list Comment :=
  let lines := split newline content in
  line_comments 1 lines ++ flat_map docstring_of_node (walk tree).

Section WithEnvironment.

Variable fs_open : string -> option (list Byte.byte).
Variable decode_utf8 : list Byte.byte -> option string.
(** [ast.parse(content, filename=file_path)] *)
Variable ast_parse : string -> Result node.
(** The nested calls the interpreter allows the visitor of
    [_extract_definitions] when [parse_file] gets there. *)
Variable frames : nat.

Definition parse_file (path : string) : Result ParsedFile :=
  content <- BaseParser._read_file fs_open decode_utf8 path ;;
  let parsed :=
    new_ParsedFile path "python" content (BaseParser._count_lines content) in
  try_except
    (tree <- ast_parse content ;;
     let parsed := set_imports parsed (_extract_imports tree) in
     definitions <- _extract_definitions frames tree content ;;
     let parsed := set_definitions parsed definitions in
     let parsed := set_comments parsed (_extract_comments content tree) in
     Ok parsed)
    is_SyntaxError
    (Ok parsed).

End WithEnvironment.

End PythonParser.

(** ** The JavaScript/TypeScript parser ([parsers/javascript_parser.py]) *)

Module JavaScriptParser.
Import PyStr.

Definition can_parse (language : string) : bool :=
  String.eqb language "javascript" || String.eqb language "typescript".

(** [s.endswith((p1, p2, ...))] *)
Definition endswith_any (ps : list string) (s : string) : bool :=
  existsb (fun p => endswith p s) ps.

(** ['typescript' if file_path.endswith(('.ts', '.tsx')) else 'javascript'] *)
Definition language_of (path : string) : string :=
  if endswith_any [".ts"; ".tsx"] path then "typescript" else "javascript".

Section WithEnvironment.

Variable fs_open : string -> option (list Byte.byte).
Variable decode_utf8 : list Byte.byte -> option string.

(** What [esprima.parseModule] returns is used in two ways: the import and
    definition walks act on a value only when [isinstance(node, dict)], the
    comment walk only when [hasattr(tree, 'comments')].  A dict has no
    attribute of that name, so a tree is a dict or another object. *)
Variable dict_node : Type.
Variable object_node : Type.

Inductive tree : Type :=
| DictTree (d : dict_node)
| ObjectTree (o : object_node).

(** [esprima.parseModule(content, {'loc': True, 'range': True, 'comment': True})] *)
Variable parseModule : string -> Result tree.

(** The walks themselves stay abstract: each yields its list or raises
    (a [.get] on [None], a call of a missing method).
    [visit_imports] and [visit_definitions] are the closures [visit_node] of
    [_extract_imports] and [_extract_definitions] on a dict;
    [comments_attr] is [tree.comments] when the attribute exists and
    [comment_loop] the loop of [_extract_comments] over it. *)
Variable visit_imports : dict_node -> Result (list Import).
Variable visit_definitions : dict_node -> string -> Result (list Defn).
Variable comments_type : Type.
Variable comments_attr : object_node -> option comments_type.
Variable comment_loop : comments_type -> Result (list Comment).

(** The fallback extraction with [re]. *)
Variable _extract_imports_regex : string -> list Import.
Variable _extract_comments_regex : string -> list Comment.

Definition _extract_imports (t : tree) : Result (list Import) :=
  match t with
  | DictTree d => visit_imports d
  | ObjectTree _ => Ok []
  end.

Definition _extract_definitions (t : tree) (content : string)
    : Result (list Defn) :=
  match t with
  | DictTree d => visit_definitions d content
  | ObjectTree _ => Ok []
  end.

Definition _extract_comments (t : tree) (content : string)
    : Result (list Comment) :=
  match t with
  | DictTree _ => Ok []
  | ObjectTree o =>
      match comments_attr o with
      | Some cs => comment_loop cs
      | None => Ok []
      end
  end.

(** The primary path went through: the parse and the three walks
    returned. *)
Definition primary_result (content : string)
    (imps : list Import) (defs : list Defn) (cs : list Comment) : Prop :=
  exists t,
    parseModule content = Ok t
    /\ _extract_imports t = Ok imps
    /\ _extract_definitions t content = Ok defs
    /\ _extract_comments t content = Ok cs.

(** The [except Exception] block, run on the [parsed] object as the
    [try] block left it. *)
Definition fallback (parsed : ParsedFile) (content : string) : ParsedFile :=
  let parsed := set_imports parsed (_extract_imports_regex content) in
  set_comments parsed (_extract_comments_regex content).

(** The [try] block: the [parsed] object when it ends, and the exception
    that ended it, if any. *)
Definition try_block (parsed : ParsedFile) (content : string)
    : ParsedFile * option exn :=
  match parseModule content with
  | Raise e => (parsed, Some e)
  | Ok t =>
      match _extract_imports t with
      | Raise e => (parsed, Some e)
      | Ok imps =>
          let parsed := set_imports parsed imps in
          match _extract_definitions t content with
          | Raise e => (parsed, Some e)
          | Ok defs =>
              let parsed := set_definitions parsed defs in
              match _extract_comments t content with
              | Raise e => (parsed, Some e)
              | Ok cs => (set_comments parsed cs, None)
              end
          end
      end
  end.

Definition parse_file (path : string) : Result ParsedFile :=
  content <- BaseParser._read_file fs_open decode_utf8 path ;;
  let language := language_of path in
  let parsed :=
    new_ParsedFile path language content (BaseParser._count_lines content) in
  match try_block parsed content with
  | (parsed, None) => Ok parsed
  | (parsed, Some e) =>
      if is_Exception e then Ok (fallback parsed content) else Raise e
  end.

End WithEnvironment.

End JavaScriptParser.

(** ** Concrete environments used to run the program *)

Module Env.
Import PyStr.

(** A utf-8 decoder for files of ASCII bytes only; any other byte is
    reported as a decoding error. *)
Definition decode_ascii (bs : list Byte.byte) : option string :=
  if forallb (fun b => (Byte.to_nat b <? 128)%nat) bs
  then Some (string_of_list_byte bs)
  else None.

(** A file system given by the list of its files. *)
Definition fs_of (files : list (string * string)) (path : string)
    : option (list Byte.byte) :=
  option_map list_byte_of_string (Dict.get String.eqb path files).

(** A parser given by the list of the sources it accepts, with the tree of
    each; every other source is a syntax error. *)
Definition parser_of (trees : list (string * Ast.node)) (content : string)
    : Result Ast.node :=
  match Dict.get String.eqb content trees with
  | Some t => Ok t
  | None => Raise SyntaxError
  end.

Definition nl : string := String newline EmptyString.

(** The recursion limit of CPython as it comes, taken as the frames the
    visitor may use. *)
Definition recursion_limit : nat := 1000.

(** An [esprima] that accepts the listed sources, each with its tree as a
    dict, and raises on every other source.  The walks over a dict are
    given by what they return for it. *)
Record js_dict : Type := mkJsDict {
  dict_imports : Result (list Import);
  dict_definitions : Result (list Defn)
}.

Definition js_parser_of (trees : list (string * js_dict)) (content : string)
    : Result (JavaScriptParser.tree js_dict unit) :=
  match Dict.get String.eqb content trees with
  | Some d => Ok (JavaScriptParser.DictTree js_dict unit d)
  | None => Raise OtherException
  end.

(** The JS parser over a listed file system and listed trees; the regex
    fallback is given by its results. *)
Definition js_parse_file (files : list (string * string))
    (trees : list (string * js_dict))
    (regex_imports : string -> list Import)
    (regex_comments : string -> list Comment) (path : string)
    : Result ParsedFile :=
  JavaScriptParser.parse_file (fs_of files) decode_ascii js_dict unit
    (js_parser_of trees) dict_imports (fun d _ => dict_definitions d)
    unit (fun _ => None) (fun _ => Ok [])
    regex_imports regex_comments path.

End Env.

(** The two files of the cycle scenario, under the project root [/proj]. *)

Module CycleScenario.
Import Ast Env.

Definition a_source : string :=
  ("from . import b" ++ nl ++ "def fa(): return b.fb()" ++ nl)%string.

Definition b_source : string :=
  ("from . import a" ++ nl ++ "def fb(): return a.fa()" ++ nl)%string.

(** [ast.parse(a_source)]: a relative [from . import b] has [module=None]
    and [level=1]; the function body is [Return(Call(Attribute(Name)))]. *)
Definition a_tree : node :=
  Mod None
    [ImportFrom None [mkAlias "b" None] 1 1;
     FunctionDef false "fa" [] None 2 (Some 2)
       [Other []; Other [Call (Attribute (Name "b") "fb") []]]].

Definition b_tree : node :=
  Mod None
    [ImportFrom None [mkAlias "a" None] 1 1;
     FunctionDef false "fb" [] None 2 (Some 2)
       [Other []; Other [Call (Attribute (Name "a") "fa") []]]].

Definition fs_open : string -> option (list Byte.byte) :=
  fs_of [("/proj/a.py", a_source); ("/proj/b.py", b_source)].

Definition ast_parse : string -> Result node :=
  parser_of [(a_source, a_tree); (b_source, b_tree)].

Definition parse (path : string) : Result ParsedFile :=
  PythonParser.parse_file fs_open decode_ascii ast_parse recursion_limit path.

(** The [ParsedFile] collection the CLI loop gathers: the files whose
    parse returned. *)
Definition collect (results : list (Result ParsedFile)) : list ParsedFile :=
  flat_map (fun r => match r with Ok pf => [pf] | Raise _ => [] end) results.

Definition parsed_files : list ParsedFile :=
  collect [parse "/proj/a.py"; parse "/proj/b.py"].

Definition builder : GraphBuilder.t := GraphBuilder.init "/proj".

Definition file_graph : Nx.DiGraph :=
  let '(b, r) := GraphBuilder.build_file_graph builder parsed_files in
  GraphBuilder.deref b r.

Definition entity_graph : Nx.DiGraph :=
  let '(b, r) := GraphBuilder.build_entity_graph builder parsed_files in
  GraphBuilder.deref b r.

End CycleScenario.

(** A file whose name contains the name of a module it imports. *)

Module SelfImportScenario.
Import Ast Env.

Definition source : string := ("import os" ++ nl)%string.

Definition tree : node := Mod None [AstImport [mkAlias "os" None] 1].

Definition parse (path : string) : Result ParsedFile :=
  PythonParser.parse_file (fs_of [("/proj/os_utils.py", source)]) decode_ascii
    (parser_of [(source, tree)]) recursion_limit path.

Definition parsed_files : list ParsedFile :=
  CycleScenario.collect [parse "/proj/os_utils.py"].

Definition file_graph : Nx.DiGraph :=
  let '(b, r) :=
    GraphBuilder.build_file_graph (GraphBuilder.init "/proj") parsed_files in
  GraphBuilder.deref b r.

End SelfImportScenario.

(** Graphs to run the analyzer on. *)

Module Samples.
Import Nx.

Definition add_edges (g : DiGraph) (es : list (string * string)) : DiGraph :=
  fold_left (fun g e => add_edge g (fst e) (snd e) []) es g.

(** [a -> b -> a], [b -> c -> a], a self-loop on [c], and [d] apart. *)
Definition two_cycles : DiGraph :=
  add_node
    (add_edges empty [("a", "b"); ("b", "a"); ("b", "c"); ("c", "a"); ("c", "c")])
    "d" [].

(** [a -> b] alone, the edge still flagged from an earlier marking, made
    when [b -> a] was an edge too. *)
Definition stale_flag : DiGraph :=
  add_edge empty "a" "b" [("in_cycle", PyBool true)].

(** Two Python files named [utils.py], one in a package. *)
Definition pkg_utils : ParsedFile :=
  mkParsedFile "/proj/pkg/utils.py" "python" [] [] [] 0 "".
Definition top_utils : ParsedFile :=
  mkParsedFile "/proj/utils.py" "python" [] [] [] 0 "".

(** A class [A] with a method [m] that calls [helper] under an [if]. *)
Definition class_tree : Ast.node :=
  Ast.Mod None
    [Ast.ClassDef "A" None 1 (Some 4)
       [Ast.FunctionDef false "m" ["self"] None 2 (Some 4)
          [Ast.Compound Ast.If
             [Ast.Name "self"; Ast.Call (Ast.Name "helper") []]]]].

Definition method_m : Defn :=
  mkDefn "m" METHOD 2 4 (Some "A") ["helper"] 1 None ["self"].

(** The module [a+a+...+a] with [k] additions: a chain of [BinOp] nodes,
    each with its left operand, its operator and its right operand, below
    an expression statement. *)
Fixpoint sum_source (k : nat) : string :=
  match k with
  | O => "a"
  | S k => (sum_source k ++ "+a")%string
  end.

Fixpoint sum_of (k : nat) : Ast.node :=
  match k with
  | O => Ast.Name "a"
  | S k => Ast.Other [sum_of k; Ast.Other []; Ast.Name "a"]
  end.

Definition sum_module (k : nat) : Ast.node :=
  Ast.Mod None [Ast.Other [sum_of k]].

(** [parse_file] on a file with that sum, under the recursion limit of
    CPython as it comes. *)
Definition parse_sum (k : nat) : Result ParsedFile :=
  PythonParser.parse_file
    (Env.fs_of [("/proj/sum.py", sum_source k)]) Env.decode_ascii
    (Env.parser_of [(sum_source k, sum_module k)]) Env.recursion_limit
    "/proj/sum.py".

End Samples.

(** Files that do not parse. *)

Module Broken.
Import Env.

(** A Python file and a JS file with a syntax error, and what the regex
    fallback finds in the JS file. *)
Definition broken_py : string := ("def f(:" ++ nl ++ "# no body" ++ nl)%string.
Definition broken_js : string := ("import x from 'y'" ++ nl ++ "function (" ++ nl)%string.
Definition regex_imports (content : string) : list Import :=
  if String.eqb content broken_js then [mkImport "y" ["x"] 1 false None] else [].
Definition regex_comments (content : string) : list Comment := [].

Definition broken_js_model : ParsedFile :=
  mkParsedFile "/proj/broken.js" "javascript"
    [mkImport "y" ["x"] 1 false None] [] [] 2 broken_js.

End Broken.

(** * Properties *)

(** ** Strings *)

Section StringFacts.
Import PyStr.
Local Open Scope string_scope.

Lemma prefix_iff (p s : string) :
  String.prefix p s = true <-> exists r, s = (p ++ r)%string.
Proof.
  revert s; induction p as [|a p IH]; intros s.
  - split; [intros _; exists s; reflexivity | intros _; now destruct s].
  - destruct s as [|b s]; simpl.
    + split; [discriminate | intros [r Hr]; discriminate].
    + destruct (ascii_dec a b) as [->|Hab].
      * rewrite IH. split; intros [r Hr]; exists r.
        -- now rewrite Hr.
        -- now injection Hr.
      * split; [discriminate | intros [r Hr]; injection Hr; congruence].
Qed.

Lemma contains_nil (needle : string) :
  contains needle "" = String.prefix needle "".
Proof. unfold contains. apply orb_false_r. Qed.

Lemma contains_cons (needle : string) (c : ascii) (hay : string) :
  contains needle (String c hay)
  = String.prefix needle (String c hay) || contains needle hay.
Proof. reflexivity. Qed.

Lemma contains_iff (needle hay : string) :
  contains needle hay = true <-> occurs_in needle hay.
Proof.
  unfold occurs_in.
  induction hay as [|c hay IH].
  - rewrite contains_nil, prefix_iff. split.
    + intros [r Hr]. exists "", r. exact Hr.
    + intros [pre [suf H]]. destruct pre; [exists suf; exact H | discriminate].
  - rewrite contains_cons, orb_true_iff, IH, prefix_iff. split.
    + intros [[r Hr] | [pre [suf H]]].
      * exists "", r. exact Hr.
      * exists (String c pre), suf. simpl. now rewrite H.
    + intros [pre [suf H]]. destruct pre as [|c' pre].
      * left. exists suf. exact H.
      * right. exists pre, suf. simpl in H. now injection H.
Qed.

Lemma is_empty_iff (s : string) : is_empty s = true <-> s = "".
Proof. destruct s; simpl; split; intros; congruence. Qed.

Lemma all_space_nil : all_space "".
Proof. constructor. Qed.

Lemma all_space_cons (c : ascii) (s : string) :
  all_space (String c s) <-> isspace c = true /\ all_space s.
Proof.
  unfold all_space; simpl. split.
  - intros H. inversion H; subst. now split.
  - intros [H1 H2]. now constructor.
Qed.

Lemma lstrip_decompose (s : string) :
  exists ws, all_space ws /\ s = (ws ++ lstrip s)%string.
Proof.
  induction s as [|c s [ws [Hws Hs]]]; simpl.
  - exists "". split; [apply all_space_nil | reflexivity].
  - destruct (isspace c) eqn:Hc.
    + exists (String c ws). split.
      * now apply all_space_cons.
      * simpl. now rewrite <- Hs.
    + exists "". split; [apply all_space_nil | reflexivity].
Qed.

Lemma lstrip_head (s : string) (c : ascii) (t : string) :
  lstrip s = String c t -> isspace c = false.
Proof.
  induction s as [|a s IH]; simpl; [discriminate|].
  destruct (isspace a) eqn:Ha; [exact IH|].
  intros H. injection H as <- _. exact Ha.
Qed.

Lemma lstrip_app_space (ws s : string) :
  all_space ws -> lstrip (ws ++ s) = lstrip s.
Proof.
  induction ws as [|c ws IH]; simpl; [reflexivity|].
  intros H. apply all_space_cons in H as [Hc Hws].
  rewrite Hc. now apply IH.
Qed.

Lemma lstrip_empty_iff (s : string) : lstrip s = "" <-> all_space s.
Proof.
  induction s as [|c s IH]; simpl.
  - split; [intros _; apply all_space_nil | reflexivity].
  - rewrite all_space_cons. destruct (isspace c) eqn:Hc.
    + rewrite IH. tauto.
    + split; [discriminate | intros [H _]; discriminate].
Qed.

Lemma rstrip_empty_iff (s : string) : rstrip s = "" <-> all_space s.
Proof.
  induction s as [|c s IH]; simpl.
  - split; [intros _; apply all_space_nil | reflexivity].
  - rewrite all_space_cons, <- IH.
    destruct (isspace c) eqn:Hc, (rstrip s) eqn:Hr; simpl;
      split; try discriminate; try tauto; intros [? ?]; discriminate.
Qed.

Lemma all_space_app (a b : string) :
  all_space (a ++ b) <-> all_space a /\ all_space b.
Proof.
  induction a as [|c a IH]; simpl.
  - split; [intros H; split; [apply all_space_nil | exact H] | tauto].
  - rewrite !all_space_cons, IH. tauto.
Qed.

Lemma strip_empty_iff (s : string) : strip s = "" <-> all_space s.
Proof.
  unfold strip. rewrite rstrip_empty_iff.
  destruct (lstrip_decompose s) as [ws [Hws Hs]].
  split.
  - intros H. rewrite Hs. apply all_space_app. now split.
  - intros H. rewrite Hs in H. now apply all_space_app in H.
Qed.

(** A prefix without whitespace is not touched by [rstrip]. *)
Lemma prefix_rstrip (p s : string) :
  Forall (fun c => isspace c = false) (list_ascii_of_string p) ->
  String.prefix p (rstrip s) = String.prefix p s.
Proof.
  revert p; induction s as [|c s IH]; intros p Hp; [reflexivity|].
  destruct p as [|a p]; [now destruct (rstrip (String c s))|].
  simpl in Hp. inversion Hp as [|? ? Ha Hp']; subst.
  simpl rstrip.
  destruct (isspace c && is_empty (rstrip s)) eqn:E.
  - apply andb_true_iff in E as [Hc _]. simpl.
    destruct (ascii_dec a c) as [->|]; [congruence | reflexivity].
  - simpl. destruct (ascii_dec a c); [now apply IH | reflexivity].
Qed.

(** [line.strip().startswith(p)], for a [p] that starts with a character
    that is not whitespace and holds none. *)
Lemma startswith_strip_iff (p line : string) :
  p <> "" ->
  Forall (fun c => isspace c = false) (list_ascii_of_string p) ->
  startswith p (strip line) = true
  <-> exists ws rest, all_space ws /\ line = (ws ++ p ++ rest)%string.
Proof.
  intros Hne Hp. unfold startswith, strip.
  rewrite prefix_rstrip by exact Hp. rewrite prefix_iff.
  destruct (lstrip_decompose line) as [ws [Hws Hl]].
  split.
  - intros [r Hr]. exists ws, r. split; [exact Hws|]. now rewrite <- Hr.
  - intros [ws' [rest [Hws' Hline]]].
    exists rest. rewrite Hline, lstrip_app_space by exact Hws'.
    destruct p as [|a p]; [congruence|].
    inversion Hp as [|? ? Ha _]; subst. simpl. now rewrite Ha.
Qed.

Lemma counted_iff (line : string) :
  BaseParser.counted line = true <-> ~ all_space line /\ ~ is_comment_line line.
Proof.
  unfold BaseParser.counted, startswith_any, truthy. simpl existsb.
  rewrite orb_false_r, andb_true_iff, !negb_true_iff.
  assert (H1 : is_empty (strip line) = false <-> ~ all_space line).
  { rewrite <- strip_empty_iff, <- is_empty_iff.
    destruct (is_empty (strip line)); split; intros; congruence. }
  assert (H2 : startswith "#" (strip line) || startswith "//" (strip line) = false
               <-> ~ is_comment_line line).
  { rewrite <- not_true_iff_false, orb_true_iff.
    rewrite !startswith_strip_iff
      by (first [discriminate | repeat constructor]).
    unfold is_comment_line. split; intros H C; apply H; clear H.
    - destruct C as [ws [rest [Hws [C|C]]]]; [left|right]; now exists ws, rest.
    - destruct C as [[ws [rest [Hws C]]]|[ws [rest [Hws C]]]];
        exists ws, rest; tauto. }
  now rewrite H1, H2.
Qed.

Lemma filter_length_le {A : Type} (f : A -> bool) (l : list A) :
  List.length (filter f l) <= List.length l.
Proof.
  induction l as [|x l IH]; simpl; [lia|].
  destruct (f x); simpl; lia.
Qed.

Lemma filter_none {A : Type} (f : A -> bool) (l : list A) :
  Forall (fun x => f x = false) l -> filter f l = [].
Proof.
  induction 1 as [|x l Hx _ IH]; simpl; [reflexivity|].
  now rewrite Hx.
Qed.

End StringFacts.

(** ** Stranded nodes *)

Section StrandedNodes.
Import PyStr Nx GraphAnalyzer.

Lemma length_zero_iff_no_member {A : Type} (f : A -> bool) (l : list A) :
  List.length (filter f l) = 0 <-> forall x, In x l -> f x = false.
Proof.
  induction l as [|a l IH]; simpl.
  - split; [intros _ x [] | reflexivity].
  - destruct (f a) eqn:Ha; simpl.
    + split; [discriminate|]. intros H. specialize (H a (or_introl eq_refl)).
      congruence.
    + rewrite IH. split.
      * intros H x [<-|Hx]; [exact Ha | now apply H].
      * intros H x Hx. apply H. now right.
Qed.

(** In-degree 0 means that no edge of the graph ends at the node. *)
Lemma in_degree_zero_iff (g : DiGraph) (n : string) :
  in_degree g n = 0 <-> forall u, ~ In (u, n) (edges g).
Proof.
  unfold in_degree. rewrite length_zero_iff_no_member. split.
  - intros H u Hu. specialize (H (u, n) Hu). simpl in H.
    now rewrite String.eqb_refl in H.
  - intros H [u v] Hx. simpl. destruct (String.eqb v n) eqn:E; [|reflexivity].
    apply String.eqb_eq in E. subst v. now apply H in Hx.
Qed.

Lemma no_fragment_iff (entry_points : list string) (node : string) :
  existsb (fun ep => contains ep node) entry_points = false
  <-> forall ep, In ep entry_points -> ~ occurs_in ep node.
Proof.
  rewrite <- not_true_iff_false, existsb_exists. split.
  - intros H ep Hep Hocc. apply H. exists ep. split; [exact Hep|].
    now apply contains_iff.
  - intros H [ep [Hep Hc]]. apply (H ep Hep). now apply contains_iff.
Qed.

(** C7.  A node is returned by [find_stranded_nodes] iff it is a node of the
    graph, its in-degree is 0 and no configured entry-point fragment occurs
    in its id; without a configured list ([None]) only the in-degree
    counts. *)
Theorem find_stranded_nodes_iff (g : DiGraph) (n : string) :
  (forall entry_points,
      In n (find_stranded_nodes g (Some entry_points))
      <-> In n (nodes g) /\ in_degree g n = 0
          /\ forall ep, In ep entry_points -> ~ occurs_in ep n)
  /\ (In n (find_stranded_nodes g None)
      <-> In n (nodes g) /\ in_degree g n = 0).
Proof.
  unfold find_stranded_nodes. split; [intros entry_points|];
    rewrite filter_In, andb_true_iff, negb_true_iff, Nat.eqb_eq.
  - now rewrite no_fragment_iff.
  - simpl. tauto.
Qed.

End StrandedNodes.

(** ** The recursion of the visitor and the frames it needs *)

Section VisitorRecursion.
Import Ast PythonParser.

Lemma heights_ge (c : node) (l : list node) :
  In c l ->
  height c
  <= (fix heights (l : list node) : nat :=
        match l with
        | [] => 0
        | x :: t => Nat.max (height x) (heights t)
        end) l.
Proof.
  induction l as [|x l IH]; [intros []|].
  intros [->|H]; [lia | specialize (IH H); lia].
Qed.

Lemma height_child (n c : node) :
  In c (iter_child_nodes n) -> height c < height n.
Proof.
  destruct n; simpl; intros H; try contradiction;
    try (apply heights_ge in H; lia).
  - destruct H as [->|H]; [lia | apply heights_ge in H; lia].
  - destruct H as [->|[]]. lia.
Qed.

Lemma height_children (n : node) :
  height n = S (list_max (map height (iter_child_nodes n))).
Proof.
  assert (H : forall l,
             (fix heights (l : list node) : nat :=
                match l with
                | [] => 0
                | x :: t => Nat.max (height x) (heights t)
                end) l
             = list_max (map height l)).
  { induction l as [|x l IH]; simpl; [reflexivity | now rewrite IH]. }
  destruct n; simpl; rewrite ?H; try reflexivity.
  now rewrite Nat.max_0_r.
Qed.

Lemma list_max_In (l : list nat) : l <> [] -> In (list_max l) l.
Proof.
  induction l as [|x l IH]; [congruence|]. intros _.
  destruct l as [|y l]; [left; simpl; lia|].
  change (list_max (x :: y :: l)) with (Nat.max x (list_max (y :: l))).
  destruct (Nat.max_spec x (list_max (y :: l))) as [[_ ->]|[_ ->]].
  - right. apply IH. discriminate.
  - now left.
Qed.

(** Below a node of height at least 2 there is a child one lower. *)
Lemma tallest_child (n : node) :
  2 <= height n -> exists c, In c (iter_child_nodes n) /\ height n = S (height c).
Proof.
  rewrite height_children. intros H.
  destruct (iter_child_nodes n) as [|x l] eqn:E; [simpl in H; lia|].
  assert (Hin : In (list_max (map height (x :: l))) (map height (x :: l)))
    by (apply list_max_In; discriminate).
  apply in_map_iff in Hin as [c [Hc Hin]]. exists c. split; [exact Hin|].
  now rewrite Hc.
Qed.

Lemma height_pos (n : node) : 1 <= height n.
Proof. rewrite height_children. lia. Qed.

(** *** [calculate_depth] *)

Lemma depth_loop_raise (frames d : nat) (l : list node) (e : exn) :
  fold_left
    (fun acc child => m <- acc ;; calculate_depth frames child d m)
    l (Raise e)
  = Raise e.
Proof. induction l as [|c l IH]; simpl; [reflexivity | exact IH]. Qed.

Lemma over_fold (inner : nat) (l : list node) (m : nat) :
  (fix over (l : list node) (max_depth : nat) : nat :=
     match l with
     | [] => max_depth
     | child :: t => over t (Nat.max max_depth (reached_depth child inner))
     end) l m
  = fold_left (fun acc c => Nat.max acc (reached_depth c inner)) l m.
Proof. revert m. induction l as [|c l IH]; intros m; simpl; auto. Qed.

Lemma reached_depth_children (n : node) (d : nat) :
  reached_depth n d
  = fold_left
      (fun acc c =>
         Nat.max acc
           (reached_depth c (if increases_nesting n then S d else d)))
      (iter_child_nodes n) d.
Proof.
  destruct n; cbn [reached_depth iter_child_nodes increases_nesting fold_left];
    rewrite ?over_fold; reflexivity.
Qed.

Lemma fold_max_shift (f : node -> nat) (l : list node) (m d : nat) :
  fold_left (fun acc c => Nat.max acc (f c)) l (Nat.max m d)
  = Nat.max m (fold_left (fun acc c => Nat.max acc (f c)) l d).
Proof.
  revert d. induction l as [|x l IH]; intros d; simpl; [reflexivity|].
  now rewrite <- Nat.max_assoc, IH.
Qed.

(** With a frame for every level of the tree the call returns, and
    [max_depth] is then what it was or the depth reached, whichever is
    larger. *)
Lemma calculate_depth_returns (frames : nat) (n : node) (d m : nat) :
  height n <= frames ->
  calculate_depth frames n d m = Ok (Nat.max m (reached_depth n d)).
Proof.
  revert n d m. induction frames as [|frames IH]; intros n d m H.
  { pose proof (height_pos n). lia. }
  cbn [calculate_depth]. rewrite reached_depth_children, <- fold_max_shift.
  set (inner := if increases_nesting n then S d else d).
  assert (Hc : forall c, In c (iter_child_nodes n) -> height c <= frames).
  { intros c Hc. apply height_child in Hc. lia. }
  revert Hc. generalize (Nat.max m d). generalize (iter_child_nodes n).
  induction l as [|c l IHl]; intros a Hc; simpl; [reflexivity|].
  rewrite (IH c inner a) by (apply Hc; now left).
  apply IHl. intros x Hx. apply Hc. now right.
Qed.

(** With fewer frames than levels the call raises [RecursionError]. *)
Lemma calculate_depth_overruns (frames : nat) (n : node) (d m : nat) :
  frames < height n ->
  calculate_depth frames n d m = Raise RecursionError.
Proof.
  revert n d m. induction frames as [|frames IH]; intros n d m H;
    [reflexivity|].
  cbn [calculate_depth].
  destruct (tallest_child n ltac:(lia)) as [c [Hc Hh]].
  set (inner := if increases_nesting n then S d else d).
  assert (Hlow : frames < height c) by lia.
  revert Hc. generalize (Nat.max m d). generalize (iter_child_nodes n).
  induction l as [|x l IHl]; intros a Hc; [destruct Hc|]. simpl.
  destruct (Nat.le_gt_cases (height x) frames) as [Hx|Hx].
  - rewrite (calculate_depth_returns frames x inner a Hx).
    destruct Hc as [->|Hc]; [lia | now apply IHl].
  - rewrite (IH x inner a Hx). apply depth_loop_raise.
Qed.

Lemma calculate_depth_outcome (frames : nat) (n : node) (d m : nat) :
  calculate_depth frames n d m
  = if (height n <=? frames)%nat then Ok (Nat.max m (reached_depth n d))
    else Raise RecursionError.
Proof.
  destruct (Nat.leb_spec (height n) frames).
  - now apply calculate_depth_returns.
  - now apply calculate_depth_overruns.
Qed.

Lemma calculate_nesting_outcome (frames : nat) (n : node) :
  _calculate_nesting frames n
  = if (height n <? frames)%nat then Ok (reached_depth n 0)
    else Raise RecursionError.
Proof.
  destruct frames as [|frames]; [reflexivity|].
  unfold _calculate_nesting. rewrite calculate_depth_outcome.
  change (height n <? S frames)%nat with (height n <=? frames)%nat.
  now destruct (height n <=? frames)%nat.
Qed.

(** *** [visit] *)

Lemma visit_loop_raise (V : node -> Result (list Defn)) (l : list node)
    (e : exn) :
  fold_left
    (fun acc child =>
       definitions <- acc ;; more <- V child ;; Ok (definitions ++ more))
    l (Raise e)
  = Raise e.
Proof. induction l as [|c l IH]; simpl; [reflexivity | exact IH]. Qed.

Lemma visit_loop_outcome (V : node -> Result (list Defn)) (l : list node)
    (a : list Defn) :
  (exists parts,
      Forall2 (fun c ds => V c = Ok ds) l parts
      /\ fold_left
           (fun acc child =>
              definitions <- acc ;; more <- V child ;;
              Ok (definitions ++ more))
           l (Ok a)
         = Ok (a ++ concat parts))
  \/ exists c e,
       In c l /\ V c = Raise e
       /\ fold_left
            (fun acc child =>
               definitions <- acc ;; more <- V child ;;
               Ok (definitions ++ more))
            l (Ok a)
          = Raise e.
Proof.
  revert a. induction l as [|c l IH]; intros a.
  - left. exists []. split; [constructor|]. simpl. now rewrite app_nil_r.
  - simpl. destruct (V c) as [ds|e] eqn:E; simpl.
    + destruct (IH (a ++ ds)) as [[parts [F H]]|[x [e [Hx [Ex H]]]]].
      * left. exists (ds :: parts). split; [now constructor|].
        rewrite H. simpl. now rewrite app_assoc.
      * right. exists x, e. split; [now right|]. now split.
    + right. exists c, e. split; [now left|]. split; [exact E|].
      apply visit_loop_raise.
Qed.

(** What [visit_each] comes to: the definitions of every child in order, or
    the exception of a child. *)
Lemma visit_each_outcome (V : node -> Result (list Defn)) (l : list node) :
  (exists parts,
      Forall2 (fun c ds => V c = Ok ds) l parts
      /\ visit_each V l = Ok (concat parts))
  \/ exists c e, In c l /\ V c = Raise e /\ visit_each V l = Raise e.
Proof. apply (visit_loop_outcome V l []). Qed.



Lemma visit_each_members (V : node -> Result (list Defn)) (l : list node)
    (r : list Defn) (d : Defn) :
  visit_each V l = Ok r -> In d r ->
  exists c ds, In c l /\ V c = Ok ds /\ In d ds.
Proof.
  intros E Hd.
  destruct (visit_each_outcome V l) as [[parts [F H]]|[x [e [_ [_ H]]]]];
    [|congruence].
  rewrite H in E. injection E as <-. apply in_concat in Hd as [ds [Hds Hd]].
  clear H. induction F as [|y ds' l parts Hy _ IH]; [destruct Hds|].
  destruct Hds as [->|Hds].
  - exists y, ds. split; [now left|]. now split.
  - destruct (IH Hds) as [c [ds0 [Hc H]]]. exists c, ds0. split; [now right|].
    exact H.
Qed.

(** The equation of [visit] with two frames or more. *)
Lemma visit_SS (frames : nat) (cls : option string) (n : node) :
  visit (S (S frames)) cls n
  = match n with
    | ClassDef name doc lineno end_lineno children =>
        match frames with
        | O => Raise RecursionError
        | S frames =>
            more <- visit_each (visit frames (Some name)) children ;;
            Ok (mkDefn name CLASS lineno (end_or end_lineno lineno) cls [] 0
                  doc [] :: more)
        end
    | FunctionDef is_async name args doc lineno end_lineno _ =>
        match (if is_async then frames else S frames) with
        | O => Raise RecursionError
        | S frames =>
            nesting <- _calculate_nesting frames n ;;
            Ok [mkDefn name
                  (if GraphBuilder.opt_truthy cls then METHOD else FUNCTION)
                  lineno (end_or end_lineno lineno) cls (_extract_calls n)
                  nesting doc args]
        end
    | _ => visit_each (visit frames cls) (iter_child_nodes n)
    end.
Proof. destruct n; reflexivity. Qed.

(** The visitor raises nothing but [RecursionError]. *)
Lemma visit_raises_recursion_error (frames : nat) (cls : option string)
    (n : node) (e : exn) :
  visit frames cls n = Raise e -> e = RecursionError.
Proof.
  revert cls n e.
  induction frames as [frames IH] using lt_wf_ind. intros cls n e.
  destruct frames as [|[|frames]]; try (intros H; now injection H).
  rewrite visit_SS.
  assert (Each : forall f cls' l,
             f < S (S frames) ->
             visit_each (visit f cls') l = Raise e -> e = RecursionError).
  { intros f cls' l Hf H.
    destruct (visit_each_outcome (visit f cls') l)
      as [[parts [_ E]]|[c [e' [_ [Ec E]]]]]; [congruence|].
    rewrite E in H. injection H as <-. now apply (IH f Hf cls' c). }
  destruct n as [doc body|names lineno|module names level lineno|is_async nm args doc lineno end_lineno children|nm doc lineno end_lineno children|kind children|func rest|id|value attr|children];
    try (apply Each; lia).
  - destruct (if is_async then frames else S frames) as [|g];
      [intros H; now injection H|].
    rewrite calculate_nesting_outcome.
    destruct (height _ <? g)%nat; simpl; intros H; [discriminate | now injection H].
  - destruct frames as [|f]; [intros H; now injection H|].
    destruct (visit_each (visit f (Some nm)) children) eqn:E; simpl;
      [discriminate|].
    intros H. injection H as <-. apply (Each f (Some nm) children); [lia|].
    exact E.
Qed.



End VisitorRecursion.

(** ** Reading and parsing a file *)

Section ParserFacts.
Import PyStr BaseParser.

Variable fs_open : string -> option (list Byte.byte).
Variable decode_utf8 : list Byte.byte -> option string.

#[local] Abbreviation text_of := (BaseParser.text_of decode_utf8).

Lemma read_file_outcome (path : string) :
  _read_file fs_open decode_utf8 path
  = match fs_open path with
    | None => Raise OSError
    | Some bs => Ok (text_of bs)
    end.
Proof.
  unfold _read_file, open_read, BaseParser.text_of, utf8, latin1.
  destruct (fs_open path) as [bs|]; simpl; [|reflexivity].
  destruct (decode_utf8 bs); reflexivity.
Qed.

Lemma count_where_filter (l : list string) :
  count_where code_line l (List.length (filter counted l)).
Proof.
  induction l as [|x l IH]; simpl; [constructor|].
  destruct (counted x) eqn:E; simpl.
  - apply count_in; [now apply counted_iff | exact IH].
  - apply count_out; [|exact IH].
    intros H. apply counted_iff in H. congruence.
Qed.

Lemma count_where_unique {A : Type} (P : A -> Prop) (l : list A) (n m : nat) :
  count_where P l n -> count_where P l m -> n = m.
Proof.
  intros Hn; revert m; induction Hn; intros m Hm; inversion Hm; subst;
    try reflexivity; try contradiction; auto.
Qed.

Lemma count_lines_le (content : string) :
  _count_lines content <= List.length (split newline content).
Proof. apply filter_length_le. Qed.

Lemma count_lines_zero (content : string) :
  Forall (fun l => all_space l \/ is_comment_line l) (split newline content) ->
  _count_lines content = 0.
Proof.
  intros H. unfold _count_lines. rewrite filter_none; [reflexivity|].
  eapply Forall_impl; [|exact H]. intros l Hl. simpl in Hl.
  destruct (counted l) eqn:E; [|reflexivity].
  apply counted_iff in E as [E1 E2]. tauto.
Qed.

Section Python.

Variable ast_parse : string -> Result Ast.node.
Variable frames : nat.

Let py_parse_file :=
  PythonParser.parse_file fs_open decode_utf8 ast_parse frames.

Lemma python_parse_file_outcome (path : string) :
  py_parse_file path
  = match fs_open path with
    | None => Raise OSError
    | Some bs =>
        let content := text_of bs in
        match ast_parse content with
        | Ok tree =>
            match PythonParser._extract_definitions frames tree content with
            | Ok definitions =>
                Ok (mkParsedFile path "python"
                      (PythonParser._extract_imports tree)
                      definitions
                      (PythonParser._extract_comments content tree)
                      (_count_lines content) content)
            | Raise _ => Raise RecursionError
            end
        | Raise e =>
            if is_SyntaxError e then Ok (bare path "python" content)
            else Raise e
        end
    end.
Proof.
  unfold py_parse_file, PythonParser.parse_file.
  rewrite read_file_outcome.
  destruct (fs_open path) as [bs|]; simpl; [|reflexivity].
  destruct (ast_parse (text_of bs)) as [tree|e]; simpl.
  - destruct (PythonParser._extract_definitions frames tree (text_of bs))
      as [ds|e] eqn:E; simpl; [reflexivity|].
    apply visit_raises_recursion_error in E. now subst e.
  - destruct (is_SyntaxError e); reflexivity.
Qed.

(** C9.  When the file can be read and [ast.parse] raises [SyntaxError] on
    its text, [parse_file] raises nothing and returns the [ParsedFile] with
    the raw text and the line count, and no import, definition or
    comment. *)
Theorem python_syntax_error_gives_bare_model (path content : string) :
  _read_file fs_open decode_utf8 path = Ok content ->
  ast_parse content = Raise SyntaxError ->
  py_parse_file path
  = Ok (mkParsedFile path "python" [] [] [] (_count_lines content) content).
Proof.
  intros Hread Hparse.
  rewrite python_parse_file_outcome.
  rewrite read_file_outcome in Hread.
  destruct (fs_open path) as [bs|]; [|discriminate].
  injection Hread as Hread. cbv zeta. rewrite Hread, Hparse. reflexivity.
Qed.

(** A returned model holds the text of the file and its count. *)
Lemma python_parse_file_text (path : string) (pf : ParsedFile) :
  py_parse_file path = Ok pf ->
  exists bs,
    fs_open path = Some bs
    /\ raw_content pf = text_of bs
    /\ lines_of_code pf = _count_lines (text_of bs).
Proof.
  rewrite python_parse_file_outcome.
  destruct (fs_open path) as [bs|]; [|discriminate]. cbv zeta.
  intros H. exists bs. split; [reflexivity|].
  destruct (ast_parse (text_of bs)) as [tree|e].
  - destruct (PythonParser._extract_definitions frames tree (text_of bs));
      [|discriminate].
    injection H as <-. now split.
  - destruct (is_SyntaxError e); [|discriminate].
    injection H as <-. now split.
Qed.

End Python.

Section JavaScript.

Variable dict_node object_node : Type.
Variable parseModule :
  string -> Result (JavaScriptParser.tree dict_node object_node).
Variable visit_imports : dict_node -> Result (list Import).
Variable visit_definitions : dict_node -> string -> Result (list Defn).
Variable comments_type : Type.
Variable comments_attr : object_node -> option comments_type.
Variable comment_loop : comments_type -> Result (list Comment).
Variable _extract_imports_regex : string -> list Import.
Variable _extract_comments_regex : string -> list Comment.

Let js_parse_file :=
  JavaScriptParser.parse_file fs_open decode_utf8 dict_node object_node
    parseModule visit_imports visit_definitions comments_type comments_attr
    comment_loop _extract_imports_regex _extract_comments_regex.
Let js_imports :=
  JavaScriptParser._extract_imports dict_node object_node visit_imports.
Let js_definitions :=
  JavaScriptParser._extract_definitions dict_node object_node visit_definitions.
Let js_comments :=
  JavaScriptParser._extract_comments dict_node object_node comments_type
    comments_attr comment_loop.

Let primary_result :=
  JavaScriptParser.primary_result dict_node object_node parseModule
    visit_imports visit_definitions comments_type comments_attr comment_loop.

(** What [parse_file] returns for a file that opens. *)
Lemma js_parse_file_outcome (path : string) :
  match fs_open path with
  | None => js_parse_file path = Raise OSError
  | Some bs =>
      let content := text_of bs in
      exists imps defs cs,
        js_parse_file path
        = Ok (mkParsedFile path (JavaScriptParser.language_of path) imps defs cs
                (_count_lines content) content)
        /\ (primary_result content imps defs cs
            \/ (~ (exists i d c, primary_result content i d c)
                /\ imps = _extract_imports_regex content
                /\ defs = []
                /\ cs = _extract_comments_regex content))
  end.
Proof.
  unfold js_parse_file, JavaScriptParser.parse_file.
  rewrite read_file_outcome.
  destruct (fs_open path) as [bs|]; simpl; [|reflexivity].
  set (content := text_of bs).
  unfold JavaScriptParser.try_block, primary_result,
    JavaScriptParser.primary_result.
  fold js_imports js_definitions js_comments.
  unfold js_imports, js_definitions, js_comments.
  destruct (parseModule content) as [t|e] eqn:Hp.
  2:{ do 3 eexists. split; [reflexivity|]. right.
      split; [|now repeat split].
      intros [i [d [c [t [Ht _]]]]]. discriminate. }
  destruct t as [d|o]; simpl.
  - destruct (visit_imports d) as [imps|e] eqn:Hi.
    2:{ do 3 eexists. split; [reflexivity|]. right.
        split; [|now repeat split].
        intros [i [d' [c [t [Ht [Hi' _]]]]]].
        injection Ht as <-. simpl in Hi'. congruence. }
    destruct (visit_definitions d content) as [defs|e] eqn:Hd.
    2:{ do 3 eexists. split; [reflexivity|]. right.
        split; [|now repeat split].
        intros [i [d' [c [t [Ht [_ [Hd' _]]]]]]].
        injection Ht as <-. simpl in Hd'. congruence. }
    do 3 eexists. split; [reflexivity|]. left.
    exists (JavaScriptParser.DictTree dict_node object_node d).
    simpl. now repeat split.
  - destruct (comments_attr o) as [cv|] eqn:Hc.
    + destruct (comment_loop cv) as [cs|e] eqn:Hl.
      * do 3 eexists. split; [reflexivity|]. left.
        exists (JavaScriptParser.ObjectTree dict_node object_node o).
        simpl. rewrite Hc. now repeat split.
      * do 3 eexists. split; [reflexivity|]. right.
        split; [|now repeat split].
        intros [i [d' [c [t [Ht [_ [_ Hc']]]]]]].
        injection Ht as <-. simpl in Hc'. rewrite Hc in Hc'. congruence.
    + do 3 eexists. split; [reflexivity|]. left.
      exists (JavaScriptParser.ObjectTree dict_node object_node o).
      simpl. rewrite Hc. now repeat split.
Qed.

(** C5.  The [ParsedFile] of a JS/TS file holds the three results of the
    primary path, all of them and only when the parse and every walk
    returned, or else the results of the regex fallback: its imports, its
    comments and no definition. *)
Theorem js_results_primary_or_fallback (path : string) (pf : ParsedFile) :
  js_parse_file path = Ok pf ->
  let content := raw_content pf in
  primary_result content (imports pf) (definitions pf) (comments pf)
  \/ (~ (exists i d c, primary_result content i d c)
      /\ imports pf = _extract_imports_regex content
      /\ definitions pf = []
      /\ comments pf = _extract_comments_regex content).
Proof.
  intros H. pose proof (js_parse_file_outcome path) as O.
  destruct (fs_open path) as [bs|]; [|congruence].
  destruct O as [imps [defs [cs [E O]]]].
  rewrite E in H. injection H as <-. exact O.
Qed.

Lemma js_parse_file_text (path : string) (pf : ParsedFile) :
  js_parse_file path = Ok pf ->
  exists bs,
    fs_open path = Some bs
    /\ raw_content pf = text_of bs
    /\ lines_of_code pf = _count_lines (text_of bs).
Proof.
  intros H. pose proof (js_parse_file_outcome path) as O.
  destruct (fs_open path) as [bs|]; [|congruence].
  destruct O as [imps [defs [cs [E _]]]].
  rewrite E in H. injection H as <-. exists bs. now repeat split.
Qed.


(** C10.  The [lines_of_code] of a [ParsedFile] either parser returns for a
    path is the number of code lines of the text of the file at that path,
    which is also the [raw_content] recorded: the lines that are not blank
    after stripping and do not start, stripped, with [#] or [//].  It is at
    most the number of lines, and 0 when every line is blank or a
    comment. *)
Theorem lines_of_code_counts_code_lines
    (ast_parse : string -> Result Ast.node) (frames : nat) (path : string)
    (pf : ParsedFile) :
  PythonParser.parse_file fs_open decode_utf8 ast_parse frames path = Ok pf
  \/ js_parse_file path = Ok pf ->
  exists bs,
    fs_open path = Some bs
    /\ raw_content pf = text_of bs
    /\ let lines := split newline (text_of bs) in
       lines_of_code pf
       = List.length
           (filter
              (fun line =>
                 negb (is_empty (strip line))
                 && negb (startswith "#" (strip line)
                          || startswith "//" (strip line)))
              lines)
       /\ count_where code_line lines (lines_of_code pf)
       /\ lines_of_code pf <= List.length lines
       /\ (Forall (fun l => all_space l \/ is_comment_line l) lines ->
           lines_of_code pf = 0).
Proof.
  intros H.
  assert (E : exists bs,
             fs_open path = Some bs
             /\ raw_content pf = text_of bs
             /\ lines_of_code pf = _count_lines (text_of bs)).
  { destruct H as [H|H].
    - now apply (python_parse_file_text ast_parse frames path).
    - now apply (js_parse_file_text path). }
  destruct E as [bs [Hopen [Hraw E]]]. exists bs.
  split; [exact Hopen|]. split; [exact Hraw|].
  cbv zeta. rewrite E. split.
  { unfold _count_lines. f_equal. apply filter_ext. intros line.
    unfold counted, startswith_any, truthy. simpl. now rewrite orb_false_r. }
  split; [apply count_where_filter|].
  split; [apply count_lines_le | apply count_lines_zero].
Qed.

End JavaScript.

End ParserFacts.

(** ** Graph operations *)

Section GraphFacts.
Import Nx.

Lemma modify_keys {K V : Type} (eqb : K -> K -> bool) (k : K) (f : V -> V)
    (d : list (K * V)) :
  map fst (Dict.modify eqb k f d) = map fst d.
Proof.
  unfold Dict.modify. rewrite map_map. apply map_ext.
  intros [k' v]; simpl. now destruct (eqb k' k).
Qed.

Lemma mem_iff_key {V : Type} (k : edge_key) (d : list (edge_key * V)) :
  Dict.mem edge_eqb k d = true <-> In k (map fst d).
Proof.
  unfold Dict.mem. induction d as [|[k' v] d IH]; simpl.
  - split; [discriminate | tauto].
  - destruct (edge_eqb k' k) eqn:E.
    + split; [intros _; left | reflexivity].
      unfold edge_eqb in E. apply andb_true_iff in E as [E1 E2].
      apply String.eqb_eq in E1, E2. destruct k, k'; simpl in *. congruence.
    + rewrite IH. split; [tauto|]. intros [->|H]; [|exact H].
      unfold edge_eqb in E. rewrite !String.eqb_refl in E. discriminate.
Qed.

Lemma mem_iff_node_key {V : Type} (k : string) (d : list (string * V)) :
  Dict.mem String.eqb k d = true <-> In k (map fst d).
Proof.
  unfold Dict.mem. induction d as [|[k' v] d IH]; simpl.
  - split; [discriminate | tauto].
  - destruct (String.eqb k' k) eqn:E.
    + apply String.eqb_eq in E. split; [now left | reflexivity].
    + rewrite IH. split; [tauto|]. intros [->|H]; [|exact H].
      rewrite String.eqb_refl in E. discriminate.
Qed.

Lemma has_edge_iff (g : DiGraph) (u v : string) :
  has_edge g u v = true <-> In (u, v) (edges g).
Proof. apply mem_iff_key. Qed.

Lemma has_node_iff (g : DiGraph) (n : string) :
  has_node g n = true <-> In n (nodes g).
Proof. apply mem_iff_node_key. Qed.

Lemma edges_add_node (g : DiGraph) (n : string) (a : attrs) :
  edges (add_node g n a) = edges g.
Proof. unfold add_node. now destruct (has_node g n). Qed.

(** [add_edge] keeps the edges there are and adds at most its own. *)
Lemma edges_add_edge (g : DiGraph) (u v : string) (a : attrs) :
  edges (add_edge g u v a) = edges g
  \/ edges (add_edge g u v a) = edges g ++ [(u, v)].
Proof.
  unfold add_edge.
  set (g1 := if has_node g u then g else add_node g u []).
  set (g2 := if has_node g1 v then g1 else add_node g1 v []).
  assert (E : edges g2 = edges g).
  { unfold g2, g1.
    destruct (has_node g u); destruct (has_node _ v);
      now rewrite ?edges_add_node. }
  destruct (has_edge g2 u v); unfold edges in *; simpl.
  - left. now rewrite modify_keys.
  - right. now rewrite map_app, E.
Qed.

Lemma no_self_edge_edges (g : DiGraph) :
  no_self_edge g <-> forall e, In e (edges g) -> fst e <> snd e.
Proof.
  unfold no_self_edge. split.
  - intros H [u v] Hin Heq. simpl in Heq. subst v.
    apply has_edge_iff in Hin. now rewrite H in Hin.
  - intros H u. apply not_true_iff_false. intros Hu.
    apply has_edge_iff in Hu. now apply H in Hu.
Qed.

Lemma no_self_edge_empty : no_self_edge empty.
Proof. intros u. reflexivity. Qed.

Lemma no_self_edge_add_node (g : DiGraph) (n : string) (a : attrs) :
  no_self_edge g -> no_self_edge (add_node g n a).
Proof.
  rewrite !no_self_edge_edges, edges_add_node. auto.
Qed.

Lemma no_self_edge_add_edge (g : DiGraph) (u v : string) (a : attrs) :
  u <> v -> no_self_edge g -> no_self_edge (add_edge g u v a).
Proof.
  rewrite !no_self_edge_edges. intros Huv H e.
  destruct (edges_add_edge g u v a) as [-> | ->]; [now apply H|].
  rewrite in_app_iff. intros [He | [<- | []]]; [now apply H | exact Huv].
Qed.

Lemma fold_left_invariant {A B : Type} (P : A -> Prop) (f : A -> B -> A)
    (l : list B) (a : A) :
  (forall x y, P x -> P (f x y)) -> P a -> P (fold_left f l a).
Proof.
  intros Hf. revert a. induction l as [|y l IH]; simpl; auto.
Qed.

End GraphFacts.

(** ** The graph builder *)

Section BuilderFacts.
Import Nx GraphBuilder.

Variable root : string.

Lemma add_entity_nodes_no_self_edge (pfs : list ParsedFile)
    (st : entity_map_t * DiGraph) :
  no_self_edge (snd st) ->
  no_self_edge (snd (fold_left (add_entity_nodes root) pfs st)).
Proof.
  apply fold_left_invariant with (P := fun st => no_self_edge (snd st)).
  intros st' pf. unfold add_entity_nodes.
  apply fold_left_invariant with (P := fun st => no_self_edge (snd st)).
  intros [m g] defn Hg. unfold add_entity_node. simpl.
  now apply no_self_edge_add_node.
Qed.

Lemma add_call_edge_no_self_edge (m : entity_map_t) (source_id : string)
    (g : DiGraph) (call : string) :
  no_self_edge g -> no_self_edge (add_call_edge m source_id g call).
Proof.
  intros Hg. unfold add_call_edge.
  destruct (Dict.get String.eqb call m) as [[target_file target_defn]|];
    [|exact Hg].
  destruct (has_node g _ && negb (String.eqb source_id _)) eqn:E; [|exact Hg].
  apply andb_true_iff in E as [_ E]. apply negb_true_iff in E.
  apply no_self_edge_add_edge; [|exact Hg].
  now apply String.eqb_neq.
Qed.

(** The entity graph never has an edge from a node to itself, whatever the
    parsed files: a call that resolves to its own definition adds
    nothing. *)
Lemma entity_graph_no_self_edge (g0 : DiGraph) (pfs : list ParsedFile) :
  no_self_edge (fill_entity_graph root g0 pfs).
Proof.
  unfold fill_entity_graph.
  pose proof (add_entity_nodes_no_self_edge pfs ([], clear g0)
                no_self_edge_empty) as H.
  destruct (fold_left (add_entity_nodes root) pfs ([], clear g0)) as [m g].
  simpl in H. revert H.
  apply fold_left_invariant. intros g' pf. unfold add_entity_edges.
  apply fold_left_invariant. intros g'' defn. unfold add_defn_edges.
  apply fold_left_invariant. intros g3 call.
  apply add_call_edge_no_self_edge.
Qed.

End BuilderFacts.

Section BuilderClaims.
Import Nx GraphBuilder.

(** C2.  No build of the entity graph puts an edge from a node to itself;
    the file graph has no such guard: for [os_utils.py], which imports
    [os], the substring fallback resolves the import to the file itself
    and the file graph gets the edge [os_utils.py -> os_utils.py]. *)
Theorem self_edge_in_file_graph_only :
  (forall b pfs,
      no_self_edge (deref (fst (build_entity_graph b pfs)) EntityGraphObj))
  /\ nodes SelfImportScenario.file_graph = ["os_utils.py"]
  /\ has_edge SelfImportScenario.file_graph "os_utils.py" "os_utils.py" = true.
Proof.
  split; [|split; reflexivity].
  intros b pfs. simpl. apply entity_graph_no_self_edge.
Qed.

(** C6, as the claim states it, fails: the graph returned by the first
    build is the object the second build clears and fills again. *)
Lemma earlier_graph_is_overwritten :
  let b0 := init "/proj" in
  let '(b1, r1) := build_file_graph b0 CycleScenario.parsed_files in
  let '(b2, r2) := build_file_graph b1 [] in
  r1 = r2
  /\ nodes (deref b1 r1) = ["a.py"; "b.py"]
  /\ nodes (deref b2 r1) = []
  /\ deref b2 r1 <> deref b1 r1.
Proof.
  cbv zeta. simpl. repeat split. discriminate.
Qed.

(** C6, as the code has it.  A build call clears the builder's graph
    object before filling it: what it returns is what a new builder with
    the same root returns for the same files, and the builder's other
    graph object stays as it was.  The returned graph is the builder's own
    object, the same at every call, so after a later call an earlier
    result shows the later content. *)
Theorem build_clears_and_reuses_graph_object (b : t)
    (pfs later : list ParsedFile) :
  let '(bf, rf) := build_file_graph b pfs in
  let '(be, re) := build_entity_graph b pfs in
  let fresh := init (root_dir b) in
  deref bf rf = deref (fst (build_file_graph fresh pfs)) rf
  /\ deref be re = deref (fst (build_entity_graph fresh pfs)) re
  /\ deref bf EntityGraphObj = deref b EntityGraphObj
  /\ deref be FileGraphObj = deref b FileGraphObj
  /\ snd (build_file_graph bf later) = rf
  /\ snd (build_entity_graph be later) = re
  /\ deref (fst (build_file_graph bf later)) rf
     = deref (fst (build_file_graph fresh later)) rf
  /\ deref (fst (build_entity_graph be later)) re
     = deref (fst (build_entity_graph fresh later)) re.
Proof.
  simpl. repeat split; reflexivity.
Qed.

(** C1, as the claim states it, fails: neither graph of the scenario has
    an edge, so [a.py, b.py] is not a cycle of the file graph and
    [a.py::fa, b.py::fb] is not a cycle of the entity graph. *)
Lemma cycle_scenario_graphs_have_no_cycle :
  edges CycleScenario.file_graph = []
  /\ edges CycleScenario.entity_graph = []
  /\ ~ elementary_cycle CycleScenario.file_graph ["a.py"; "b.py"]
  /\ ~ elementary_cycle CycleScenario.entity_graph ["a.py::fa"; "b.py::fb"].
Proof.
  repeat split; try reflexivity; intros [_ [H _]]; discriminate.
Qed.

End BuilderClaims.

(** ** Cycles *)

Section CycleFacts.
Import Nx.

Lemma chain_pairs (g : DiGraph) (l : list string) :
  chain g l
  <-> Forall (fun p => has_edge g (fst p) (snd p) = true) (pairs l).
Proof.
  induction l as [|a [|b t] IH]; simpl.
  - split; [constructor | trivial].
  - split; [constructor | trivial].
  - simpl in IH. rewrite IH. split.
    + intros [H1 H2]. now constructor.
    + intros H. inversion H; subst. now split.
Qed.

Lemma pairs_app (l1 l2 : list string) (x y : string) :
  pairs ((l1 ++ [x]) ++ y :: l2)
  = pairs (l1 ++ [x]) ++ (x, y) :: pairs (y :: l2).
Proof.
  induction l1 as [|a [|b t] IH].
  - reflexivity.
  - simpl. reflexivity.
  - change (pairs (((a :: b :: t) ++ [x]) ++ y :: l2))
      with ((a, b) :: pairs (((b :: t) ++ [x]) ++ y :: l2)).
    rewrite IH. reflexivity.
Qed.

Lemma pairs_snoc (l : list string) (x y : string) :
  pairs ((l ++ [x]) ++ [y]) = pairs (l ++ [x]) ++ [(x, y)].
Proof. apply (pairs_app l [] x y). Qed.

Lemma length_pairs (l : list string) :
  List.length (pairs l) = List.length l - 1.
Proof.
  induction l as [|a [|b t] IH]; try reflexivity.
  change (pairs (a :: b :: t)) with ((a, b) :: pairs (b :: t)).
  simpl List.length in *. rewrite IH. lia.
Qed.

Lemma nth_pairs (l : list string) (i : nat) (d : string) :
  i + 1 < List.length l ->
  nth i (pairs l) (d, d) = (nth i l d, nth (i + 1) l d).
Proof.
  revert i; induction l as [|a [|b t] IH]; intros i Hi; simpl in Hi; try lia.
  change (pairs (a :: b :: t)) with ((a, b) :: pairs (b :: t)).
  destruct i as [|i]; [reflexivity|].
  change (nth (S i) ((a, b) :: pairs (b :: t)) (d, d))
    with (nth i (pairs (b :: t)) (d, d)).
  rewrite IH by (simpl; lia). reflexivity.
Qed.

(** The index loop of [mark_cycles] goes through the pairs of the cycle. *)
Lemma index_pairs (c : list string) :
  map (fun i => (nth i c "", nth ((i + 1) mod List.length c) c ""))
    (seq 0 (List.length c))
  = cycle_pairs c.
Proof.
  destruct c as [|v t]; [reflexivity|].
  change (cycle_pairs (v :: t)) with (pairs ((v :: t) ++ [v])).
  assert (Hv : nth 0 (v :: t) "" = v) by reflexivity.
  assert (Hpos : 0 < List.length (v :: t)) by (simpl; lia).
  revert Hv Hpos. generalize (v :: t) as c. intros c Hv Hpos.
  assert (Hlen : List.length (pairs (c ++ [v])) = List.length c).
  { rewrite length_pairs, length_app. simpl. lia. }
  apply nth_ext with (d := ("", "")) (d' := ("", "")).
  - now rewrite length_map, length_seq, Hlen.
  - intros i Hi. rewrite length_map, length_seq in Hi.
    set (f := fun i => (nth i c "", nth ((i + 1) mod List.length c) c "")).
    rewrite (nth_indep (map f _) ("", "") (f 0))
      by now rewrite length_map, length_seq.
    rewrite map_nth, seq_nth by exact Hi. unfold f.
    rewrite Nat.add_0_l.
    rewrite nth_pairs by (rewrite length_app; simpl; lia).
    rewrite app_nth1 by exact Hi. f_equal.
    destruct (Nat.eq_dec (i + 1) (List.length c)) as [E|E].
    + rewrite E, Nat.Div0.mod_same, app_nth2 by lia.
      now rewrite Nat.sub_diag.
    + rewrite Nat.mod_small by lia. now rewrite app_nth1 by lia.
Qed.

Lemma elementary_cycle_iff (g : DiGraph) (c : list string) :
  elementary_cycle g c
  <-> c <> [] /\ NoDup c
      /\ Forall (fun p => has_edge g (fst p) (snd p) = true) (cycle_pairs c).
Proof.
  destruct c as [|v t].
  - simpl. split; [tauto | intros [H _]; congruence].
  - unfold elementary_cycle, cycle_pairs. rewrite <- chain_pairs. split.
    + intros [H1 H2]. repeat split; [discriminate | exact H1 | exact H2].
    + intros [_ [H1 H2]]. now split.
Qed.

Lemma cycle_pairs_split (a1 b1 : list string) (xa xb : string) :
  cycle_pairs ((a1 ++ [xa]) ++ (b1 ++ [xb]))
  = pairs (a1 ++ [xa]) ++ (xa, hd xb b1) :: pairs (b1 ++ [xb])
    ++ [(xb, hd xa a1)].
Proof.
  assert (E : cycle_pairs ((a1 ++ [xa]) ++ (b1 ++ [xb]))
              = pairs (((a1 ++ [xa]) ++ (b1 ++ [xb])) ++ [hd xa a1])).
  { destruct a1; reflexivity. }
  rewrite E.
  replace (((a1 ++ [xa]) ++ b1 ++ [xb]) ++ [hd xa a1])
    with ((a1 ++ [xa]) ++ hd xb b1 :: (tl (b1 ++ [xb]) ++ [hd xa a1])).
  2:{ destruct b1; simpl; repeat (rewrite <- app_assoc; simpl); reflexivity. }
  rewrite pairs_app. f_equal. f_equal.
  replace (hd xb b1 :: tl (b1 ++ [xb]) ++ [hd xa a1])
    with ((b1 ++ [xb]) ++ [hd xa a1]) by (now destruct b1).
  apply pairs_snoc.
Qed.

Lemma perm_two_blocks {A : Type} (l1 l2 : list A) (x y : A) :
  Permutation (l1 ++ x :: l2 ++ [y]) (x :: y :: l1 ++ l2).
Proof.
  rewrite <- Permutation_middle. apply perm_skip.
  rewrite <- (Permutation_cons_append l2 y).
  now rewrite <- Permutation_middle.
Qed.

Lemma cycle_pairs_rotation (a b : list string) :
  Permutation (cycle_pairs (a ++ b)) (cycle_pairs (b ++ a)).
Proof.
  induction a as [|xa a1 _] using rev_ind.
  { simpl. now rewrite app_nil_r. }
  induction b as [|xb b1 _] using rev_ind.
  { simpl. now rewrite app_nil_r. }
  rewrite !cycle_pairs_split, !perm_two_blocks.
  rewrite perm_swap. do 2 apply perm_skip. apply Permutation_app_comm.
Qed.

Lemma rotation_sym (c c' : list string) : rotation c c' -> rotation c' c.
Proof. intros [a [b [-> ->]]]. now exists b, a. Qed.

Lemma rotation_permutation (c c' : list string) :
  rotation c c' -> Permutation c c'.
Proof. intros [a [b [-> ->]]]. apply Permutation_app_comm. Qed.

Lemma rotation_pairs (c c' : list string) :
  rotation c c' -> Permutation (cycle_pairs c) (cycle_pairs c').
Proof. intros [a [b [-> ->]]]. apply cycle_pairs_rotation. Qed.

(** A rotation of an elementary cycle is an elementary cycle. *)
Lemma rotation_elementary (g : DiGraph) (c c' : list string) :
  rotation c c' -> elementary_cycle g c -> elementary_cycle g c'.
Proof.
  intros R. rewrite !elementary_cycle_iff. intros [Hne [Hnd Hp]].
  pose proof (rotation_permutation _ _ R) as P.
  repeat split.
  - intros ->. apply Permutation_sym, Permutation_nil in P. congruence.
  - now apply (Permutation_NoDup P).
  - now apply (Permutation_Forall (rotation_pairs _ _ R)).
Qed.

(** A rotation that keeps the first node of a list without repetition
    keeps the list. *)
Lemma rotation_same_head (v : string) (t t' : list string) :
  NoDup (v :: t) -> rotation (v :: t) (v :: t') -> t = t'.
Proof.
  intros Hnd [a [b [E1 E2]]].
  destruct a as [|x a]; [simpl in E1; rewrite app_nil_r in E2; congruence|].
  destruct b as [|y b]; [rewrite app_nil_r in E1; simpl in E2; congruence|].
  simpl in E1, E2. injection E1 as <- Et. injection E2 as <- Et'.
  exfalso. rewrite Et in Hnd. inversion Hnd as [|? ? Hnot _]; subst.
  apply Hnot. rewrite in_app_iff. right. now left.
Qed.

(** Cycles with the same edges hold the same nodes on the same graph. *)
Lemma same_edges_same_cycles (g g' : DiGraph) (c : list string) :
  edges g' = edges g -> elementary_cycle g' c <-> elementary_cycle g c.
Proof.
  intros E. rewrite !elementary_cycle_iff.
  assert (H : forall u v, has_edge g' u v = has_edge g u v).
  { intros u v. apply eq_true_iff_eq. rewrite !has_edge_iff. now rewrite E. }
  split; intros [H1 [H2 H3]]; repeat split; try assumption;
    eapply Forall_impl; try exact H3; intros p; simpl;
    now rewrite H.
Qed.

End CycleFacts.

(** ** Attribute dictionaries *)

Section DictFacts.

Lemma set_idempotent {V : Type} (k : string) (v : V) (d : list (string * V)) :
  Dict.set String.eqb k v (Dict.set String.eqb k v d) = Dict.set String.eqb k v d.
Proof.
  induction d as [|[k' v'] d IH]; simpl.
  - now rewrite String.eqb_refl.
  - destruct (String.eqb k' k) eqn:E; simpl; rewrite E; [reflexivity|].
    now rewrite IH.
Qed.

Lemma get_set_same {V : Type} (k : string) (v : V) (d : list (string * V)) :
  Dict.get String.eqb k (Dict.set String.eqb k v d) = Some v.
Proof.
  induction d as [|[k' v'] d IH]; simpl.
  - now rewrite String.eqb_refl.
  - destruct (String.eqb k' k) eqn:E; simpl; now rewrite E.
Qed.

Lemma get_set_other {V : Type} (k k' : string) (v : V)
    (d : list (string * V)) :
  k' <> k ->
  Dict.get String.eqb k' (Dict.set String.eqb k v d)
  = Dict.get String.eqb k' d.
Proof.
  intros Hk. induction d as [|[k0 v0] d IH]; simpl.
  - destruct (String.eqb k k') eqn:E; [|reflexivity].
    apply String.eqb_eq in E. congruence.
  - destruct (String.eqb k0 k) eqn:E; simpl.
    + apply String.eqb_eq in E. subst k0.
      destruct (String.eqb k k') eqn:E'; [|reflexivity].
      apply String.eqb_eq in E'. congruence.
    + now rewrite IH.
Qed.

(** Looking a key up after every value was changed by a function of its
    key and value. *)
Lemma get_map {K V : Type} (eqb : K -> K -> bool) (f : K -> V -> V) (k : K)
    (d : list (K * V)) :
  (forall a b, eqb a b = true -> a = b) ->
  Dict.get eqb k (map (fun e => (fst e, f (fst e) (snd e))) d)
  = option_map (f k) (Dict.get eqb k d).
Proof.
  intros Heq. induction d as [|[k' v'] d IH]; simpl; [reflexivity|].
  destruct (eqb k' k) eqn:E; [|exact IH].
  apply Heq in E. now subst k'.
Qed.

Lemma edge_eqb_eq (a b : string * string) : Nx.edge_eqb a b = true -> a = b.
Proof.
  unfold Nx.edge_eqb. intros H. apply andb_true_iff in H as [H1 H2].
  apply String.eqb_eq in H1, H2. destruct a, b; simpl in *. congruence.
Qed.

Lemma edge_eqb_refl (a : string * string) : Nx.edge_eqb a a = true.
Proof. unfold Nx.edge_eqb. now rewrite !String.eqb_refl. Qed.

Lemma modify_absent {K V : Type} (eqb : K -> K -> bool) (k : K) (f : V -> V)
    (d : list (K * V)) :
  Dict.mem eqb k d = false -> Dict.modify eqb k f d = d.
Proof.
  unfold Dict.mem, Dict.modify.
  induction d as [|[k' v'] d IH]; simpl; [reflexivity|].
  destruct (eqb k' k) eqn:E; [discriminate|].
  intros H. now rewrite IH.
Qed.

End DictFacts.

(** ** Sorting by length *)

Section SortFacts.
Import GraphAnalyzer.

Lemma insert_by_len_perm (c : list string) (l : list (list string)) :
  Permutation (insert_by_len c l) (c :: l).
Proof.
  induction l as [|h t IH]; simpl; [reflexivity|].
  destruct (List.length c <=? List.length h)%nat; [reflexivity|].
  rewrite IH. apply perm_swap.
Qed.

Lemma sort_by_len_perm (l : list (list string)) :
  Permutation (sort_by_len l) l.
Proof.
  induction l as [|c t IH]; simpl; [reflexivity|].
  rewrite insert_by_len_perm. now apply perm_skip.
Qed.

Lemma insert_by_len_sorted (c : list string) (l : list (list string)) :
  StronglySorted shorter l -> StronglySorted shorter (insert_by_len c l).
Proof.
  induction l as [|h t IH]; simpl; intros Hs.
  - repeat constructor.
  - inversion Hs as [|? ? Ht Hh]; subst.
    destruct (List.length c <=? List.length h)%nat eqn:E.
    + apply Nat.leb_le in E. constructor; [exact Hs|].
      constructor; [exact E|].
      eapply Forall_impl; [|exact Hh]. unfold shorter. intros; lia.
    + apply Nat.leb_gt in E. constructor; [now apply IH|].
      apply (Permutation_Forall (Permutation_sym (insert_by_len_perm c t))).
      constructor; [unfold shorter; lia | exact Hh].
Qed.

Lemma sort_by_len_sorted (l : list (list string)) :
  StronglySorted shorter (sort_by_len l).
Proof.
  induction l as [|c t IH]; simpl; [constructor|].
  now apply insert_by_len_sorted.
Qed.

End SortFacts.

(** ** Marking cycles *)

Section MarkFacts.
Import Nx GraphAnalyzer.

Lemma mem_iff (x : string) (s : list string) : mem x s = true <-> In x s.
Proof.
  unfold mem. rewrite existsb_exists. split.
  - intros [y [Hy E]]. apply String.eqb_eq in E. now subst.
  - intros H. exists x. split; [exact H | apply String.eqb_refl].
Qed.

Lemma on_pairs_iff (ps : list (string * string)) (k : string * string) :
  on_pairs ps k = true <-> In k ps.
Proof.
  unfold on_pairs. rewrite existsb_exists. split.
  - intros [y [Hy E]]. apply edge_eqb_eq in E. now subst.
  - intros H. exists k. split; [exact H | apply edge_eqb_refl].
Qed.

Lemma flag_node_idempotent (nic : list string) (e : string * attrs) :
  flag_node nic (flag_node nic e) = flag_node nic e.
Proof. unfold flag_node. simpl. now rewrite set_idempotent. Qed.

Lemma mark_node_fold (nic ids : list string) (g : DiGraph) :
  fold_left (mark_node nic) ids g
  = mkDiGraph
      (map (fun e => if mem (fst e) ids then flag_node nic e else e)
         (node_table g))
      (edge_table g).
Proof.
  revert g; induction ids as [|n ids IH]; intros g; simpl.
  - rewrite map_id. now destruct g.
  - rewrite IH. unfold mark_node, set_node_attr, Dict.modify. simpl.
    f_equal. rewrite map_map. apply map_ext. intros [k a]. simpl.
    destruct (String.eqb k n) eqn:E; simpl.
    + apply String.eqb_eq in E. subst k.
      change (n, Dict.set String.eqb "in_cycle" (PyBool (mem n nic)) a)
        with (flag_node nic (n, a)).
      rewrite flag_node_idempotent. now destruct (mem n ids).
    + reflexivity.
Qed.

Lemma mark_nodes_all (nic : list string) (g : DiGraph) :
  fold_left (mark_node nic) (nodes g) g
  = mkDiGraph (map (flag_node nic) (node_table g)) (edge_table g).
Proof.
  rewrite mark_node_fold. f_equal. apply map_ext_in. intros e He.
  assert (H : mem (fst e) (nodes g) = true).
  { apply mem_iff. unfold nodes. now apply in_map. }
  now rewrite H.
Qed.

Lemma mark_pair_table (g : DiGraph) (p : string * string) :
  mark_pair g p
  = mkDiGraph (node_table g) (map (flag_edge [p]) (edge_table g)).
Proof.
  assert (E : map (flag_edge [p]) (edge_table g)
              = Dict.modify edge_eqb p
                  (Dict.set String.eqb "in_cycle" (PyBool true))
                  (edge_table g)).
  { unfold Dict.modify. apply map_ext. intros [k a].
    unfold flag_edge, on_pairs. simpl. now rewrite orb_false_r. }
  rewrite E. unfold mark_pair, set_edge_attr. destruct p as [u v]. simpl.
  destruct (has_edge g u v) eqn:H; [reflexivity|].
  unfold has_edge in H. rewrite modify_absent by exact H. now destruct g.
Qed.

Lemma flag_edge_compose (ps : list (string * string)) (p : string * string)
    (e : (string * string) * attrs) :
  flag_edge ps (flag_edge [p] e) = flag_edge (p :: ps) e.
Proof.
  unfold flag_edge, on_pairs. destruct e as [k a]. simpl.
  rewrite orb_false_r.
  destruct (edge_eqb k p); simpl.
  - rewrite set_idempotent. now destruct (existsb (edge_eqb k) ps).
  - reflexivity.
Qed.

Lemma mark_pairs_fold (ps : list (string * string)) (g : DiGraph) :
  fold_left mark_pair ps g
  = mkDiGraph (node_table g) (map (flag_edge ps) (edge_table g)).
Proof.
  revert g; induction ps as [|p ps IH]; intros g; simpl.
  - unfold flag_edge. simpl. rewrite map_id. now destruct g.
  - rewrite IH, mark_pair_table. simpl. f_equal.
    rewrite map_map. apply map_ext. intros e. apply flag_edge_compose.
Qed.

Lemma mark_cycle_edges_pairs (g : DiGraph) (cycle : list string) :
  mark_cycle_edges g cycle = fold_left mark_pair (cycle_pairs cycle) g.
Proof.
  unfold mark_cycle_edges. rewrite <- index_pairs.
  generalize (seq 0 (List.length cycle)) as l. intros l. revert g.
  induction l as [|i l IH]; intros g; simpl; [reflexivity|].
  now rewrite IH.
Qed.

Lemma mark_all_cycle_edges (cycles : list (list string)) (g : DiGraph) :
  fold_left mark_cycle_edges cycles g
  = fold_left mark_pair (flat_map cycle_pairs cycles) g.
Proof.
  revert g; induction cycles as [|c cs IH]; intros g; simpl; [reflexivity|].
  now rewrite fold_left_app, IH, mark_cycle_edges_pairs.
Qed.

Section WithNetworkx.

Variable simple_cycles : DiGraph -> Result (list (list string)).

Let cycles_of := find_circular_dependencies simple_cycles.

(** The graph [mark_cycles] leaves, entry by entry. *)
Lemma mark_cycles_tables (g : DiGraph) :
  mark_cycles simple_cycles g
  = mkDiGraph
      (map (flag_node (concat (cycles_of g))) (node_table g))
      (map (flag_edge (flat_map cycle_pairs (cycles_of g))) (edge_table g)).
Proof.
  unfold mark_cycles. fold (cycles_of g).
  now rewrite mark_nodes_all, mark_all_cycle_edges, mark_pairs_fold.
Qed.

Lemma mark_cycles_nodes (g : DiGraph) :
  nodes (mark_cycles simple_cycles g) = nodes g.
Proof.
  rewrite mark_cycles_tables. unfold nodes. simpl.
  rewrite map_map. now apply map_ext.
Qed.

Lemma mark_cycles_edges (g : DiGraph) :
  edges (mark_cycles simple_cycles g) = edges g.
Proof.
  rewrite mark_cycles_tables. unfold edges. simpl.
  rewrite map_map. apply map_ext. intros e. unfold flag_edge.
  now destruct (on_pairs _ (fst e)).
Qed.

End WithNetworkx.

End MarkFacts.

(** ** The analyzer over a [simple_cycles] that keeps its contract *)

Section AnalyzerClaims.
Import Nx GraphAnalyzer.

Variable simple_cycles : DiGraph -> Result (list (list string)).

Let cycles_of := find_circular_dependencies simple_cycles.
Let marked := mark_cycles simple_cycles.

Lemma cycles_of_In (g : DiGraph) (c : list string) :
  In c (cycles_of g)
  <-> exists cs, simple_cycles g = Ok cs /\ In c cs /\ 1 < List.length c.
Proof.
  unfold cycles_of, find_circular_dependencies.
  destruct (simple_cycles g) as [cs|e].
  - split.
    + intros H. apply (Permutation_in _ (sort_by_len_perm _)) in H.
      apply filter_In in H as [H1 H2]. apply Nat.ltb_lt in H2.
      now exists cs.
    + intros [cs' [E [H1 H2]]]. injection E as <-.
      apply (Permutation_in _ (Permutation_sym (sort_by_len_perm _))).
      apply filter_In. split; [exact H1 | now apply Nat.ltb_lt].
  - split; [intros [] | intros [cs [E _]]; discriminate].
Qed.

(** The attributes [mark_cycles] leaves on a node and on an edge. *)
Lemma marked_node_attr (g : DiGraph) (n k : string) :
  In n (nodes g) ->
  node_attr (marked g) n k
  = if String.eqb k "in_cycle"
    then Some (PyBool (mem n (concat (cycles_of g))))
    else node_attr g n k.
Proof.
  intros Hn. unfold marked. rewrite mark_cycles_tables. fold (cycles_of g).
  unfold node_attr. simpl. unfold flag_node.
  rewrite (get_map String.eqb
             (fun k a => Dict.set String.eqb "in_cycle"
                           (PyBool (mem k (concat (cycles_of g)))) a))
    by (intros a b; apply String.eqb_eq).
  apply has_node_iff in Hn. unfold has_node, Dict.mem in Hn.
  destruct (Dict.get String.eqb n (node_table g)) as [a|]; [|discriminate].
  simpl. destruct (String.eqb k "in_cycle") eqn:E.
  - apply String.eqb_eq in E. subst k. apply get_set_same.
  - apply get_set_other. now apply String.eqb_neq.
Qed.

Lemma marked_edge_attr (g : DiGraph) (u v k : string) :
  In (u, v) (edges g) ->
  edge_attr (marked g) u v k
  = if String.eqb k "in_cycle"
       && on_pairs (flat_map cycle_pairs (cycles_of g)) (u, v)
    then Some (PyBool true)
    else edge_attr g u v k.
Proof.
  intros Huv. unfold marked. rewrite mark_cycles_tables. fold (cycles_of g).
  set (ps := flat_map cycle_pairs (cycles_of g)).
  unfold edge_attr. simpl.
  assert (E : map (flag_edge ps) (edge_table g)
              = map (fun e => (fst e,
                               (fun k a =>
                                  if on_pairs ps k
                                  then Dict.set String.eqb "in_cycle"
                                         (PyBool true) a
                                  else a) (fst e) (snd e)))
                  (edge_table g)).
  { apply map_ext. intros [k' a]. unfold flag_edge. simpl.
    now destruct (on_pairs ps k'). }
  rewrite E.
  rewrite (get_map edge_eqb
             (fun k a => if on_pairs ps k
                         then Dict.set String.eqb "in_cycle" (PyBool true) a
                         else a))
    by apply edge_eqb_eq.
  apply has_edge_iff in Huv. unfold has_edge, Dict.mem in Huv.
  destruct (Dict.get edge_eqb (u, v) (edge_table g)) as [a|]; [|discriminate].
  simpl. destruct (on_pairs ps (u, v)); [|now rewrite andb_false_r].
  rewrite andb_true_r. destruct (String.eqb k "in_cycle") eqn:Ek.
  - apply String.eqb_eq in Ek. subst k. apply get_set_same.
  - apply get_set_other. now apply String.eqb_neq.
Qed.

(** [networkx.simple_cycles] keeps its contract on every graph. *)
Hypothesis simple_cycles_spec :
  forall g, exists cs, simple_cycles g = Ok cs /\ lists_elementary_cycles g cs.

Lemma rotation_length (c c' : list string) :
  rotation c c' -> List.length c' = List.length c.
Proof.
  intros R. symmetry. apply Permutation_length.
  now apply rotation_permutation.
Qed.

Lemma cycles_of_listed (g : DiGraph) :
  exists cs,
    simple_cycles g = Ok cs /\ lists_elementary_cycles g cs
    /\ forall c, In c (cycles_of g) <-> In c cs /\ 1 < List.length c.
Proof.
  destruct (simple_cycles_spec g) as [cs [E H]].
  exists cs. split; [exact E|]. split; [exact H|].
  intros c. rewrite cycles_of_In. split.
  - intros [cs' [E' Hc]]. now replace cs with cs' by congruence.
  - intros Hc. now exists cs.
Qed.

Lemma cycles_of_sound (g : DiGraph) (c : list string) :
  In c (cycles_of g) -> elementary_cycle g c /\ 1 < List.length c.
Proof.
  destruct (cycles_of_listed g) as [cs [_ [[Hsound _] Hin]]].
  intros Hc. apply Hin in Hc as [Hc Hl]. split; [now apply Hsound | exact Hl].
Qed.

Lemma cycles_of_complete (g : DiGraph) (c : list string) :
  elementary_cycle g c -> 1 < List.length c ->
  exists c', In c' (cycles_of g) /\ rotation c c'.
Proof.
  destruct (cycles_of_listed g) as [cs [_ [[_ [Hall _]] Hin]]].
  intros Hc Hlen. destruct (Hall c Hc) as [c' [Hc' R]].
  exists c'. split; [|exact R]. apply Hin. split; [exact Hc'|].
  now rewrite (rotation_length _ _ R).
Qed.

(** C8.  [find_circular_dependencies] returns elementary cycles of more
    than one node only; every elementary cycle of more than one node is
    returned, once, from one of its nodes; and no cycle comes before a
    shorter one. *)
Theorem find_circular_dependencies_spec (g : DiGraph) :
  let found := find_circular_dependencies simple_cycles g in
  (forall c, In c found -> elementary_cycle g c /\ 1 < List.length c)
  /\ (forall c, elementary_cycle g c -> 1 < List.length c ->
        exists c', In c' found /\ rotation c c')
  /\ NoDup found
  /\ (forall c c', In c found -> In c' found -> rotation c c' -> c = c')
  /\ StronglySorted shorter found.
Proof.
  cbv zeta. fold (cycles_of g).
  split; [apply cycles_of_sound|]. split; [apply cycles_of_complete|].
  destruct (cycles_of_listed g) as [cs [E [[_ [_ [Hnd Huniq]]] Hin]]].
  split; [|split].
  - unfold cycles_of, find_circular_dependencies. rewrite E.
    apply (Permutation_NoDup (Permutation_sym (sort_by_len_perm _))).
    now apply NoDup_filter.
  - intros c c' Hc Hc'. apply Huniq; now apply Hin.
  - unfold cycles_of, find_circular_dependencies. rewrite E.
    apply sort_by_len_sorted.
Qed.

(** The nodes and the pairs of the cycles found depend on the edges of the
    graph only. *)
Lemma node_on_cycle_iff (g : DiGraph) (n : string) :
  In n (concat (cycles_of g))
  <-> exists c, elementary_cycle g c /\ 1 < List.length c /\ In n c.
Proof.
  rewrite in_concat. split.
  - intros [c [Hin Hn]]. exists c.
    destruct (cycles_of_sound g c Hin). now repeat split.
  - intros [c [He [Hl Hn]]].
    destruct (cycles_of_complete g c He Hl) as [c' [Hin R]].
    exists c'. split; [exact Hin|].
    now apply (Permutation_in _ (rotation_permutation _ _ R)).
Qed.

Lemma pair_on_cycle_iff (g : DiGraph) (p : string * string) :
  In p (flat_map cycle_pairs (cycles_of g))
  <-> exists c,
        elementary_cycle g c /\ 1 < List.length c /\ In p (cycle_pairs c).
Proof.
  rewrite in_flat_map. split.
  - intros [c [Hin Hn]]. exists c.
    destruct (cycles_of_sound g c Hin). now repeat split.
  - intros [c [He [Hl Hn]]].
    destruct (cycles_of_complete g c He Hl) as [c' [Hin R]].
    exists c'. split; [exact Hin|].
    now apply (Permutation_in _ (rotation_pairs _ _ R)).
Qed.

Lemma marked_same_cycles (g : DiGraph) (c : list string) :
  elementary_cycle (marked g) c <-> elementary_cycle g c.
Proof. apply same_edges_same_cycles, mark_cycles_edges. Qed.

(** Marking twice is marking once. *)
Lemma mark_cycles_idempotent (g : DiGraph) : marked (marked g) = marked g.
Proof.
  assert (En : forall n, mem n (concat (cycles_of (marked g)))
                         = mem n (concat (cycles_of g))).
  { intros n. apply eq_true_iff_eq. rewrite !mem_iff, !node_on_cycle_iff.
    split; intros [c [H1 H2]]; exists c; split;
      try exact H2; now apply marked_same_cycles. }
  assert (Ee : forall k,
             on_pairs (flat_map cycle_pairs (cycles_of (marked g))) k
             = on_pairs (flat_map cycle_pairs (cycles_of g)) k).
  { intros k. apply eq_true_iff_eq. rewrite !on_pairs_iff, !pair_on_cycle_iff.
    split; intros [c [H1 H2]]; exists c; split;
      try exact H2; now apply marked_same_cycles. }
  pose proof (mark_cycles_tables simple_cycles g) as T.
  pose proof (mark_cycles_tables simple_cycles (marked g)) as T'.
  fold marked in T, T'. fold (cycles_of g) in T.
  fold (cycles_of (marked g)) in T'.
  revert En Ee T'.
  generalize (concat (cycles_of (marked g))) as nic'.
  generalize (flat_map cycle_pairs (cycles_of (marked g))) as ps'.
  intros ps' nic' En Ee T'. rewrite T'. rewrite T. simpl.
  f_equal; rewrite map_map; apply map_ext; intros e.
  - unfold flag_node. simpl. now rewrite En, set_idempotent.
  - unfold flag_edge. destruct e as [k a]. simpl.
    destruct (on_pairs (flat_map cycle_pairs (cycles_of g)) k) eqn:Ek; simpl;
      rewrite Ee, Ek; [now rewrite set_idempotent | reflexivity].
Qed.

(** C4, as the code has it.  [mark_cycles] keeps the nodes, the edges and
    every other attribute.  It writes the flag of every node: [True] iff
    the node is on a cycle [find_circular_dependencies] returns.  It sets
    the flag of every edge between neighbours of such a cycle to [True] and
    leaves the flag of any other edge as it finds it, set or not.  Marking
    again changes nothing. *)
Theorem mark_cycles_spec (g : DiGraph) :
  let g' := mark_cycles simple_cycles g in
  let found := find_circular_dependencies simple_cycles g in
  let on_cycle (u v : string) :=
    exists c, In c found /\ In (u, v) (cycle_pairs c) in
  nodes g' = nodes g
  /\ edges g' = edges g
  /\ (forall n, In n (nodes g) ->
        exists b, node_attr g' n "in_cycle" = Some (PyBool b)
                  /\ (b = true <-> exists c, In c found /\ In n c))
  /\ (forall u v, In (u, v) (edges g) -> on_cycle u v ->
        edge_attr g' u v "in_cycle" = Some (PyBool true))
  /\ (forall u v, In (u, v) (edges g) -> ~ on_cycle u v ->
        edge_attr g' u v "in_cycle" = edge_attr g u v "in_cycle")
  /\ (forall n k, In n (nodes g) -> k <> "in_cycle" ->
        node_attr g' n k = node_attr g n k)
  /\ (forall u v k, In (u, v) (edges g) -> k <> "in_cycle" ->
        edge_attr g' u v k = edge_attr g u v k)
  /\ mark_cycles simple_cycles g' = g'.
Proof.
  cbv zeta. fold (cycles_of g). fold marked.
  split; [apply mark_cycles_nodes|]. split; [apply mark_cycles_edges|].
  split; [|split; [|split; [|split; [|split]]]].
  - intros n Hn. exists (mem n (concat (cycles_of g))).
    rewrite (marked_node_attr g n "in_cycle" Hn). split; [reflexivity|].
    rewrite mem_iff, in_concat. reflexivity.
  - intros u v Huv Hon. rewrite (marked_edge_attr g u v "in_cycle" Huv).
    assert (H : on_pairs (flat_map cycle_pairs (cycles_of g)) (u, v) = true).
    { apply on_pairs_iff, in_flat_map. exact Hon. }
    now rewrite H.
  - intros u v Huv Hoff. rewrite (marked_edge_attr g u v "in_cycle" Huv).
    assert (H : on_pairs (flat_map cycle_pairs (cycles_of g)) (u, v) = false).
    { apply not_true_iff_false. intros H. apply Hoff.
      now apply on_pairs_iff, in_flat_map in H. }
    now rewrite H.
  - intros n k Hn Hk. rewrite (marked_node_attr g n k Hn).
    apply String.eqb_neq in Hk. now rewrite Hk.
  - intros u v k Huv Hk. rewrite (marked_edge_attr g u v k Huv).
    apply String.eqb_neq in Hk. now rewrite Hk.
  - apply mark_cycles_idempotent.
Qed.

End AnalyzerClaims.

(** ** The reference enumeration keeps the contract of [simple_cycles] *)

Section ReferenceCycles.
Import Nx GraphAnalyzer.

Variable g : DiGraph.

#[local] Abbreviation rchain := (GraphAnalyzer.rchain g).

Lemma chain_snoc (l : list string) (x : string) :
  chain g (l ++ [x])
  <-> chain g l
      /\ match rev l with
         | [] => True
         | y :: _ => has_edge g y x = true
         end.
Proof.
  induction l as [|y l0 _] using rev_ind.
  - simpl. tauto.
  - rewrite rev_app_distr. simpl rev. simpl app.
    rewrite !chain_pairs, pairs_snoc, Forall_app. split.
    + intros [H1 H2]. inversion H2; subst. now split.
    + intros [H1 H2]. split; [exact H1|]. now repeat constructor.
Qed.

Lemma rchain_rev (w : list string) : rchain w <-> chain g (rev w).
Proof.
  induction w as [|x t IH]; [simpl; tauto|].
  simpl rev. rewrite chain_snoc, rev_involutive, <- IH.
  destruct t as [|cur t']; simpl; tauto.
Qed.

Lemma rchain_tail (x : string) (w : list string) : rchain (x :: w) -> rchain w.
Proof. destruct w; simpl; tauto. Qed.

Lemma rchain_app_r (a b : list string) : rchain (a ++ b) -> rchain b.
Proof.
  induction a as [|x a IH]; simpl app; [trivial|].
  intros H. apply IH. now apply rchain_tail in H.
Qed.

Section FromStart.

Variable start : string.
Variable later : list string.

#[local] Abbreviation walk_inv := (GraphAnalyzer.walk_inv g start later).

Lemma extend_spec (ws : list (list string)) (w' : list string) :
  In w' (extend g later ws)
  <-> exists x cur rest,
        w' = x :: cur :: rest /\ In (cur :: rest) ws /\ In x later
        /\ has_edge g cur x = true /\ ~ In x (cur :: rest).
Proof.
  unfold extend. rewrite in_flat_map. split.
  - intros [w [Hw H]]. destruct w as [|cur rest]; [destruct H|].
    apply in_map_iff in H as [x [<- Hx]].
    apply filter_In in Hx as [Hx1 Hx2].
    apply andb_true_iff in Hx2 as [He Hm]. apply negb_true_iff in Hm.
    exists x, cur, rest. repeat split; try assumption.
    intros Hin. apply mem_iff in Hin. congruence.
  - intros [x [cur [rest [-> [Hw [Hx [He Hn]]]]]]].
    exists (cur :: rest). split; [exact Hw|].
    apply in_map_iff. exists x. split; [reflexivity|].
    apply filter_In. split; [exact Hx|].
    rewrite He. simpl. apply negb_true_iff, not_true_iff_false.
    intros Hm. apply Hn. now apply mem_iff.
Qed.

Lemma extend_inv (ws : list (list string)) :
  (forall w, In w ws -> walk_inv w) ->
  forall w, In w (extend g later ws) -> walk_inv w.
Proof.
  intros H w Hw. apply extend_spec in Hw
    as [x [cur [rest [-> [Hin [Hx [He Hn]]]]]]].
  destruct (H _ Hin) as [pre [E [Hincl [Hnd Hch]]]].
  exists (x :: pre). repeat split.
  - simpl. now rewrite E.
  - intros y [<-|Hy]; [exact Hx | now apply Hincl].
  - now constructor.
  - exact He.
  - exact Hch.
Qed.

Lemma grow_inv (n : nat) (ws : list (list string)) :
  (forall w, In w ws -> walk_inv w) ->
  forall w, In w (grow g later n ws) -> walk_inv w.
Proof.
  revert ws; induction n as [|n IH]; intros ws H w; simpl; [apply H|].
  rewrite in_app_iff. intros [Hw|Hw]; [now apply H|].
  apply (IH (extend g later ws)); [|exact Hw]. now apply extend_inv.
Qed.

Lemma grow_start (n : nat) (ws : list (list string)) (w : list string) :
  In w ws -> In w (grow g later n ws).
Proof.
  destruct n; simpl; [trivial|]. intros H. apply in_app_iff. now left.
Qed.

(** Every walk that extends a held walk through [later] is reached. *)
Lemma grow_complete (pre : list string) :
  forall (w0 : list string) (ws : list (list string)) (n : nat),
    In w0 ws -> w0 <> [] -> incl pre later -> NoDup (pre ++ w0) ->
    rchain (pre ++ w0) -> List.length pre <= n ->
    In (pre ++ w0) (grow g later n ws).
Proof.
  induction pre as [|x1 pre2 IH] using rev_ind;
    intros w0 ws n Hin Hne Hincl Hnd Hch Hlen.
  - now apply grow_start.
  - rewrite length_app in Hlen. simpl in Hlen.
    destruct n as [|k]; [lia|].
    rewrite <- app_assoc in *. simpl app in *.
    simpl grow. apply in_app_iff. right.
    apply IH; try assumption; try discriminate.
    + destruct w0 as [|cur rest]; [congruence|].
      apply extend_spec. exists x1, cur, rest.
      repeat split; try assumption.
      * apply Hincl. apply in_app_iff. right. now left.
      * apply rchain_app_r in Hch. now destruct Hch.
      * apply NoDup_app_remove_l in Hnd. now inversion Hnd.
    + intros y Hy. apply Hincl. apply in_app_iff. now left.
    + lia.
Qed.

Lemma cycles_from_sound (c : list string) :
  In c (cycles_from g start later) ->
  elementary_cycle g c /\ exists t, c = start :: t /\ incl t later.
Proof.
  unfold cycles_from. intros H.
  apply in_map_iff in H as [w [<- Hw]].
  apply filter_In in Hw as [Hw Hc].
  apply grow_inv in Hw.
  2:{ intros w' [<-|[]]. exists []. repeat split.
      - intros y [].
      - repeat constructor. intros [].
  }
  destruct Hw as [pre [E [Hincl [Hnd Hch]]]].
  assert (Er : rev w = start :: rev pre).
  { rewrite E, rev_app_distr. reflexivity. }
  split.
  - rewrite Er. unfold elementary_cycle. rewrite <- Er. split.
    + now apply NoDup_rev.
    + apply chain_snoc. split; [now apply rchain_rev|].
      rewrite rev_involutive. destruct w as [|cur rest]; [discriminate|].
      exact Hc.
  - exists (rev pre). split; [exact Er|].
    intros y Hy. apply Hincl. now apply in_rev.
Qed.

Lemma cycles_from_complete (t : list string) :
  elementary_cycle g (start :: t) -> incl t later ->
  In (start :: t) (cycles_from g start later).
Proof.
  intros [Hnd Hch] Hincl. unfold cycles_from.
  apply chain_snoc in Hch as [Hch Hclose].
  rewrite <- (rev_involutive (start :: t)). apply in_map.
  apply filter_In. split.
  - simpl rev.
    apply (grow_complete (rev t) [start] [[start]]).
    + now left.
    + discriminate.
    + intros y Hy. apply Hincl. now apply in_rev in Hy.
    + change (rev t ++ [start]) with (rev (start :: t)). now apply NoDup_rev.
    + change (rev t ++ [start]) with (rev (start :: t)).
      apply rchain_rev. now rewrite rev_involutive.
    + rewrite length_rev. apply NoDup_incl_length; [|exact Hincl].
      now inversion Hnd.
  - unfold closes. destruct (rev (start :: t)) eqn:E; [|exact Hclose].
    simpl in E. now apply app_eq_nil in E as [_ E].
Qed.

(** The walks held are all different. *)

Lemma nodup_app {A : Type} (l l' : list A) :
  NoDup l -> NoDup l' -> (forall a, In a l -> ~ In a l') -> NoDup (l ++ l').
Proof.
  induction l as [|x l IH]; simpl; intros H1 H2 H; [exact H2|].
  inversion H1; subst. constructor.
  - rewrite in_app_iff. intros [Hx|Hx]; [contradiction|].
    now apply (H x (or_introl eq_refl)).
  - apply IH; auto.
Qed.

Lemma nodup_map_cons (w : list string) (xs : list string) :
  NoDup xs -> NoDup (map (fun x => x :: w) xs).
Proof.
  induction 1 as [|x xs Hx _ IH]; simpl; constructor; [|exact IH].
  intros H. apply in_map_iff in H as [y [E Hy]]. injection E as ->.
  contradiction.
Qed.

Lemma extend_nodup (ws : list (list string)) :
  NoDup later -> NoDup ws -> NoDup (extend g later ws).
Proof.
  intros HA. induction 1 as [|w ws Hw Hws IH]; [constructor|].
  assert (E : extend g later (w :: ws)
              = match w with
                | [] => []
                | cur :: _ =>
                    map (fun x => x :: w)
                      (filter (fun x => has_edge g cur x && negb (mem x w))
                         later)
                end ++ extend g later ws) by reflexivity.
  rewrite E. destruct w as [|cur rest]; [exact IH|].
  apply nodup_app; [|exact IH|].
  - apply nodup_map_cons. now apply NoDup_filter.
  - intros w' H1 H2.
    apply in_map_iff in H1 as [x [<- _]].
    apply extend_spec in H2 as [x' [cur' [rest' [E' [Hin _]]]]].
    injection E' as _ <- <-. contradiction.
Qed.

Lemma extend_length (ws : list (list string)) (len : nat) :
  (forall w, In w ws -> List.length w = len) ->
  forall w, In w (extend g later ws) -> List.length w = S len.
Proof.
  intros H w Hw. apply extend_spec in Hw as [x [cur [rest [-> [Hin _]]]]].
  simpl. f_equal. now apply (H _ Hin).
Qed.

Lemma grow_length (n : nat) (ws : list (list string)) (len : nat) :
  (forall w, In w ws -> List.length w = len) ->
  forall w, In w (grow g later n ws) -> len <= List.length w.
Proof.
  revert ws len; induction n as [|n IH]; intros ws len H w; simpl.
  - intros Hw. now rewrite (H _ Hw).
  - rewrite in_app_iff. intros [Hw|Hw]; [now rewrite (H _ Hw)|].
    apply (IH _ (S len)) in Hw; [lia|]. now apply extend_length.
Qed.

Lemma grow_nodup (n : nat) (ws : list (list string)) (len : nat) :
  NoDup later -> NoDup ws ->
  (forall w, In w ws -> List.length w = len) ->
  NoDup (grow g later n ws).
Proof.
  intros HA. revert ws len; induction n as [|n IH]; intros ws len Hnd Hlen;
    simpl; [exact Hnd|].
  apply nodup_app; [exact Hnd| |].
  - apply (IH _ (S len)); [now apply extend_nodup|].
    now apply extend_length.
  - intros w H1 H2. apply (grow_length _ _ (S len)) in H2.
    + rewrite (Hlen _ H1) in H2. lia.
    + now apply extend_length.
Qed.

Lemma nodup_map_rev (l : list (list string)) :
  NoDup l -> NoDup (map (@rev string) l).
Proof.
  induction 1 as [|w l Hw _ IH]; simpl; constructor; [|exact IH].
  intros H. apply in_map_iff in H as [w' [E Hw']].
  apply (f_equal (@rev string)) in E. rewrite !rev_involutive in E.
  now subst w'.
Qed.

Lemma cycles_from_nodup : NoDup later -> NoDup (cycles_from g start later).
Proof.
  intros HA. unfold cycles_from.
  apply nodup_map_rev.
  - apply NoDup_filter. apply (grow_nodup _ _ 1); [exact HA| |].
    + repeat constructor. intros [].
    + intros w [<-|[]]. reflexivity.
Qed.

End FromStart.

Lemma cycles_over_sound (vs : list string) (c : list string) :
  In c (cycles_over g vs) -> elementary_cycle g c /\ incl c vs.
Proof.
  induction vs as [|v later IH]; simpl; [intros []|].
  rewrite in_app_iff. intros [H|H].
  - apply cycles_from_sound in H as [He [t [-> Ht]]]. split; [exact He|].
    intros y [<-|Hy]; [now left | right; now apply Ht].
  - destruct (IH H) as [He Hi]. split; [exact He|].
    intros y Hy. right. now apply Hi.
Qed.

Lemma cycles_over_complete (vs : list string) (c : list string) :
  elementary_cycle g c -> incl c vs ->
  exists c', In c' (cycles_over g vs) /\ rotation c c'.
Proof.
  revert c; induction vs as [|v later IH]; intros c He Hi.
  - destruct c as [|x c]; [destruct He|].
    destruct (Hi x (or_introl eq_refl)).
  - destruct (in_dec string_dec v c) as [Hv|Hv].
    + apply in_split in Hv as [a [b ->]].
      assert (R : rotation (a ++ v :: b) (v :: b ++ a)).
      { now exists a, (v :: b). }
      pose proof (rotation_elementary g _ _ R He) as He'.
      exists (v :: b ++ a). split; [|exact R].
      simpl. apply in_app_iff. left. apply cycles_from_complete; [exact He'|].
      destruct He' as [Hnd _]. inversion Hnd as [|? ? Hnot _]; subst.
      intros y Hy.
      assert (Hy' : In y (a ++ v :: b)).
      { apply in_app_iff in Hy as [Hy|Hy]; apply in_app_iff;
          [right; now right | now left]. }
      destruct (Hi y Hy') as [<-|H]; [contradiction | exact H].
    + destruct (IH c He) as [c' [Hc' R]].
      * intros y Hy. destruct (Hi y Hy) as [<-|H]; [contradiction | exact H].
      * exists c'. split; [|exact R]. simpl. apply in_app_iff. now right.
Qed.

Lemma cycles_over_nodup (vs : list string) :
  NoDup vs -> NoDup (cycles_over g vs).
Proof.
  induction 1 as [|v later Hv Hnd IH]; simpl; [constructor|].
  apply nodup_app; [now apply cycles_from_nodup | exact IH|].
  intros c H1 H2. apply cycles_from_sound in H1 as [_ [t [-> _]]].
  apply cycles_over_sound in H2 as [_ Hi].
  apply Hv. apply Hi. now left.
Qed.

Lemma cycles_over_once (vs : list string) (c c' : list string) :
  NoDup vs -> In c (cycles_over g vs) -> In c' (cycles_over g vs) ->
  rotation c c' -> c = c'.
Proof.
  induction 1 as [|v later Hv Hnd IH]; simpl; [intros []|].
  rewrite !in_app_iff. intros [H1|H1] [H2|H2] R.
  - apply cycles_from_sound in H1 as [He [t [-> _]]]. destruct He as [Hn _].
    apply cycles_from_sound in H2 as [_ [t' [-> _]]].
    f_equal. now apply (rotation_same_head v).
  - exfalso. apply cycles_from_sound in H1 as [_ [t [-> _]]].
    apply cycles_over_sound in H2 as [_ Hi]. apply Hv, Hi.
    apply (Permutation_in _ (rotation_permutation _ _ R)). now left.
  - exfalso. apply cycles_from_sound in H2 as [_ [t [-> _]]].
    apply cycles_over_sound in H1 as [_ Hi]. apply Hv, Hi.
    apply (Permutation_in _ (Permutation_sym (rotation_permutation _ _ R))).
    now left.
  - now apply IH.
Qed.

Lemma dedup_In (x : string) (l : list string) : In x (dedup l) <-> In x l.
Proof.
  induction l as [|y l IH]; simpl; [tauto|].
  destruct (mem y l) eqn:E; simpl; rewrite IH.
  - apply mem_iff in E. split; [tauto|]. intros [<-|H]; tauto.
  - tauto.
Qed.

Lemma dedup_nodup (l : list string) : NoDup (dedup l).
Proof.
  induction l as [|y l IH]; simpl; [constructor|].
  destruct (mem y l) eqn:E; [exact IH|].
  constructor; [|exact IH]. rewrite dedup_In, <- mem_iff. congruence.
Qed.

(** Every node of a cycle has an edge that leaves it. *)
Lemma cycle_nodes_have_edges (c : list string) :
  elementary_cycle g c -> incl c (map fst (edges g)).
Proof.
  intros He x Hx. apply elementary_cycle_iff in He as [_ [_ Hp]].
  assert (H : exists y, In (x, y) (cycle_pairs c)).
  { apply in_split in Hx as [a [b ->]]. clear Hp.
    destruct b as [|y b].
    - induction a as [|xa a1 _] using rev_ind.
      + exists x. simpl. now left.
      + exists (hd x (a1 ++ [xa])).
        change ((a1 ++ [xa]) ++ [x]) with ((a1 ++ [xa]) ++ ([] ++ [x])).
        rewrite cycle_pairs_split. simpl.
        apply in_app_iff. right. right. left.
        f_equal. now destruct a1.
    - exists y. unfold cycle_pairs.
      destruct (a ++ x :: y :: b) as [|v t] eqn:E;
        [now destruct a|].
      rewrite <- E.
      replace ((a ++ x :: y :: b) ++ [v])
        with ((a ++ [x]) ++ y :: (b ++ [v]))
        by (rewrite <- !app_assoc; reflexivity).
      rewrite pairs_app. apply in_app_iff. right. now left. }
  destruct H as [y Hy].
  rewrite Forall_forall in Hp. specialize (Hp _ Hy). simpl in Hp.
  apply has_edge_iff in Hp. now apply (in_map fst) in Hp.
Qed.

Lemma reference_cycles_spec :
  lists_elementary_cycles g (reference_cycles g).
Proof.
  unfold reference_cycles. repeat split.
  - intros c Hc. now apply cycles_over_sound in Hc.
  - intros c Hc. apply cycles_over_complete; [exact Hc|].
    intros x Hx. apply dedup_In. now apply (cycle_nodes_have_edges c).
  - apply cycles_over_nodup, dedup_nodup.
  - intros c c'. apply cycles_over_once, dedup_nodup.
Qed.

End ReferenceCycles.

Lemma reference_simple_cycles_spec (g : Nx.DiGraph) :
  exists cs,
    GraphAnalyzer.reference_simple_cycles g = Ok cs
    /\ Nx.lists_elementary_cycles g cs.
Proof.
  exists (GraphAnalyzer.reference_cycles g). split; [reflexivity|].
  apply reference_cycles_spec.
Qed.

(** ** The claims on concrete inputs *)

Section Runs.
Import Nx GraphAnalyzer Env BaseParser Broken.

Lemma no_edge_no_cycle (g : DiGraph) (c : list string) :
  edges g = [] -> ~ elementary_cycle g c.
Proof.
  intros E He. apply elementary_cycle_iff in He as [Hne [_ Hp]].
  destruct c as [|v t]; [congruence|].
  assert (H : exists p, In p (cycle_pairs (v :: t))).
  { unfold cycle_pairs. destruct t as [|x t]; simpl; eexists; now left. }
  destruct H as [[x y] Hxy]. rewrite Forall_forall in Hp.
  specialize (Hp _ Hxy). simpl in Hp. apply has_edge_iff in Hp.
  now rewrite E in Hp.
Qed.

(** The file graph of the scenario: the parser records no import for
    either file (a [from . import b] has no module name), so the graph has
    its two nodes and no edge. *)
Lemma cycle_scenario_file_graph :
  map imports CycleScenario.parsed_files = [[]; []]
  /\ nodes CycleScenario.file_graph = ["a.py"; "b.py"]
  /\ edges CycleScenario.file_graph = []
  /\ find_circular_dependencies reference_simple_cycles
       CycleScenario.file_graph = [].
Proof. repeat split; reflexivity. Qed.

(** C1, as the code has it.  For the two files of the scenario the file
    graph has the nodes [a.py] and [b.py].  The parser records the calls as
    [b.fb] and [a.fa], which the name index, made of bare names and
    [Class.method] names, does not hold: the entity graph has the nodes
    [a.py::fa] and [b.py::fb] and no edge, so it has no cycle and
    [find_circular_dependencies] finds none in it. *)
Theorem cycle_scenario_outcome :
  map (fun pf => map calls (definitions pf)) CycleScenario.parsed_files
  = [[["b.fb"]]; [["a.fa"]]]
  /\ nodes CycleScenario.file_graph = ["a.py"; "b.py"]
  /\ nodes CycleScenario.entity_graph = ["a.py::fa"; "b.py::fb"]
  /\ edges CycleScenario.entity_graph = []
  /\ (forall c, ~ elementary_cycle CycleScenario.entity_graph c)
  /\ find_circular_dependencies reference_simple_cycles
       CycleScenario.entity_graph = [].
Proof.
  repeat split; try reflexivity; intros c; now apply no_edge_no_cycle.
Qed.


(** A sum of 601 terms parses, and its tree is too deep for the visitor:
    [parse_file] raises [RecursionError]; a sum of 101 terms gets its
    model. *)
Example long_sum_overruns_the_visitor :
  Env.parser_of [(Samples.sum_source 600, Samples.sum_module 600)]
    (Samples.sum_source 600)
  = Ok (Samples.sum_module 600)
  /\ Samples.parse_sum 600 = Raise RecursionError
  /\ Samples.parse_sum 100
     = Ok (mkParsedFile "/proj/sum.py" "python" [] [] [] 1
             (Samples.sum_source 100)).
Proof. repeat split; vm_compute; reflexivity. Qed.

(** C4, as the claim states it, fails: [a -> b] is on no cycle, and its
    flag is [True] after [mark_cycles] as it was before. *)
Lemma stale_edge_flag_survives :
  find_circular_dependencies reference_simple_cycles Samples.stale_flag = []
  /\ edges Samples.stale_flag = [("a", "b")]
  /\ edge_attr (mark_cycles reference_simple_cycles Samples.stale_flag)
       "a" "b" "in_cycle" = Some (PyBool true).
Proof. repeat split; reflexivity. Qed.

Lemma find_circular_dependencies_run :
  find_circular_dependencies reference_simple_cycles Samples.two_cycles
  = [["a"; "b"]; ["a"; "b"; "c"]].
Proof. reflexivity. Qed.

Lemma find_circular_dependencies_witness :
  (forall g, exists cs,
      reference_simple_cycles g = Ok cs /\ lists_elementary_cycles g cs)
  /\ let found :=
       find_circular_dependencies reference_simple_cycles Samples.two_cycles in
     (forall c, In c found ->
        elementary_cycle Samples.two_cycles c /\ 1 < List.length c)
     /\ (forall c, elementary_cycle Samples.two_cycles c ->
           1 < List.length c -> exists c', In c' found /\ rotation c c')
     /\ NoDup found
     /\ (forall c c', In c found -> In c' found -> rotation c c' -> c = c')
     /\ StronglySorted shorter found.
Proof.
  split; [exact reference_simple_cycles_spec|].
  exact (find_circular_dependencies_spec reference_simple_cycles
           reference_simple_cycles_spec Samples.two_cycles).
Defined.

Lemma mark_cycles_run :
  let g' := mark_cycles reference_simple_cycles Samples.two_cycles in
  map (fun n => node_attr g' n "in_cycle") (nodes g')
  = [Some (PyBool true); Some (PyBool true); Some (PyBool true);
     Some (PyBool false)]
  /\ map (fun e => edge_attr g' (fst e) (snd e) "in_cycle") (edges g')
     = [Some (PyBool true); Some (PyBool true); Some (PyBool true);
        Some (PyBool true); None].
Proof. split; reflexivity. Qed.

Lemma mark_cycles_witness :
  (forall g, exists cs,
      reference_simple_cycles g = Ok cs /\ lists_elementary_cycles g cs)
  /\ (exists b,
        node_attr (mark_cycles reference_simple_cycles Samples.two_cycles)
          "d" "in_cycle" = Some (PyBool b)
        /\ (b = true
            <-> exists c,
                  In c (find_circular_dependencies reference_simple_cycles
                          Samples.two_cycles)
                  /\ In "d" c))
  /\ mark_cycles reference_simple_cycles
       (mark_cycles reference_simple_cycles Samples.two_cycles)
     = mark_cycles reference_simple_cycles Samples.two_cycles.
Proof.
  split; [exact reference_simple_cycles_spec|].
  pose proof (mark_cycles_spec reference_simple_cycles
                reference_simple_cycles_spec Samples.two_cycles) as H.
  cbv zeta in H. destruct H as [_ [_ [Hn [_ [_ [_ [_ Hidem]]]]]]].
  split; [|exact Hidem].
  apply Hn. right. right. right. now left.
Defined.

Lemma python_syntax_error_witness :
  BaseParser._read_file (fs_of [("/proj/broken.py", broken_py)]) decode_ascii
    "/proj/broken.py" = Ok broken_py
  /\ parser_of [] broken_py = Raise SyntaxError
  /\ PythonParser.parse_file (fs_of [("/proj/broken.py", broken_py)])
       decode_ascii (parser_of []) recursion_limit "/proj/broken.py"
     = Ok (mkParsedFile "/proj/broken.py" "python" [] [] [] 1 broken_py).
Proof.
  split; [reflexivity|]. split; [reflexivity|].
  apply (python_syntax_error_gives_bare_model
           (fs_of [("/proj/broken.py", broken_py)]) decode_ascii (parser_of [])
           recursion_limit "/proj/broken.py" broken_py); reflexivity.
Defined.

Lemma js_fallback_witness :
  js_parse_file [("/proj/broken.js", broken_js)] [] regex_imports
    regex_comments "/proj/broken.js" = Ok broken_js_model
  /\ imports broken_js_model = regex_imports broken_js
  /\ definitions broken_js_model = []
  /\ comments broken_js_model = regex_comments broken_js.
Proof.
  split; [reflexivity|].
  destruct (js_results_primary_or_fallback
              (fs_of [("/proj/broken.js", broken_js)]) decode_ascii
              js_dict unit (js_parser_of []) dict_imports
              (fun d _ => dict_definitions d) unit (fun _ => None)
              (fun _ => Ok []) regex_imports regex_comments
              "/proj/broken.js" broken_js_model eq_refl)
    as [[t [E _]] | [_ H]]; [discriminate E | exact H].
Defined.

Lemma lines_of_code_witness :
  PythonParser.parse_file (fs_of [("/proj/broken.py", broken_py)])
    decode_ascii (parser_of []) recursion_limit "/proj/broken.py"
  = Ok (mkParsedFile "/proj/broken.py" "python" [] [] [] 1 broken_py)
  /\ exists bs,
       fs_of [("/proj/broken.py", broken_py)] "/proj/broken.py" = Some bs
       /\ broken_py = BaseParser.text_of decode_ascii bs
       /\ count_where code_line
            (PyStr.split PyStr.newline (BaseParser.text_of decode_ascii bs)) 1
       /\ List.length
            (PyStr.split PyStr.newline (BaseParser.text_of decode_ascii bs))
          = 3.
Proof.
  split; [reflexivity|].
  destruct (lines_of_code_counts_code_lines
              (fs_of [("/proj/broken.py", broken_py)]) decode_ascii
              js_dict unit (js_parser_of []) dict_imports
              (fun d _ => dict_definitions d) unit (fun _ => None)
              (fun _ => Ok []) regex_imports regex_comments (parser_of [])
              recursion_limit "/proj/broken.py"
              (mkParsedFile "/proj/broken.py" "python" [] [] [] 1 broken_py)
              (or_introl eq_refl))
    as [bs [Hopen [Hraw [_ [Hcount _]]]]].
  exists bs. split; [exact Hopen|]. split; [exact Hraw|].
  split; [exact Hcount|].
  injection Hopen as <-. reflexivity.
Defined.

(** The scenarios of the specification, run. *)

Example nesting_depth_three :
  PythonParser._calculate_nesting recursion_limit
    (Ast.FunctionDef false "f" ["x"] None 1 (Some 5)
       [Ast.Other [];
        Ast.Compound Ast.If
          [Ast.Name "x";
           Ast.Compound Ast.If
             [Ast.Name "x";
              Ast.Compound Ast.If [Ast.Name "x"; Ast.Other []]]]])
  = Ok 3
  /\ PythonParser._calculate_nesting recursion_limit
       (Ast.FunctionDef false "g" [] None 1 (Some 1)
          [Ast.Other []; Ast.Other []])
     = Ok 0.
Proof. split; reflexivity. Qed.

Example entry_point_is_not_stranded :
  find_stranded_nodes
    (add_node (add_node empty "main.py" []) "orphan.py" [])
    (Some ["main.py"])
  = ["orphan.py"].
Proof. reflexivity. Qed.

End Runs.

(** * Further properties *)

(** ** Well-formed graphs *)

Section WellFormed.
Import Nx.

Lemma nodes_add_node (g : DiGraph) (n : string) (a : attrs) :
  nodes (add_node g n a) = if has_node g n then nodes g else nodes g ++ [n].
Proof.
  unfold add_node. destruct (has_node g n); unfold nodes; simpl.
  - apply modify_keys.
  - now rewrite map_app.
Qed.

Lemma nodes_add_edge (g : DiGraph) (u v : string) (a : attrs) :
  nodes (add_edge g u v a)
  = let l := if has_node g u then nodes g else nodes g ++ [u] in
    if existsb (String.eqb v) l then l else l ++ [v].
Proof.
  unfold add_edge.
  set (g1 := if has_node g u then g else add_node g u []).
  assert (E1 : nodes g1 = if has_node g u then nodes g else nodes g ++ [u]).
  { unfold g1. destruct (has_node g u) eqn:Hu; [reflexivity|].
    now rewrite nodes_add_node, Hu. }
  set (g2 := if has_node g1 v then g1 else add_node g1 v []).
  assert (Hv : has_node g1 v = existsb (String.eqb v) (nodes g1)).
  { apply eq_true_iff_eq. rewrite has_node_iff, existsb_exists. split.
    - intros H. exists v. split; [exact H | apply String.eqb_refl].
    - intros [x [Hx E]]. apply String.eqb_eq in E. now subst. }
  assert (E2 : nodes g2 = if existsb (String.eqb v) (nodes g1)
                          then nodes g1 else nodes g1 ++ [v]).
  { unfold g2. rewrite <- Hv. destruct (has_node g1 v) eqn:H; [reflexivity|].
    now rewrite nodes_add_node, H. }
  cbv zeta. rewrite <- E1, <- E2.
  now destruct (has_edge g2 u v).
Qed.

Lemma add_edge_nodes_incl (g : DiGraph) (u v : string) (a : attrs) (x : string) :
  In x (nodes (add_edge g u v a)) <-> In x (nodes g) \/ x = u \/ x = v.
Proof.
  rewrite nodes_add_edge. cbv zeta.
  destruct (has_node g u) eqn:Hu.
  - apply has_node_iff in Hu.
    destruct (existsb (String.eqb v) (nodes g)) eqn:Hv.
    + apply existsb_exists in Hv as [y [Hy E]]. apply String.eqb_eq in E.
      subst y. split; [tauto|]. intros [H|[->| ->]]; assumption.
    + rewrite in_app_iff. simpl. split; [|intros [H|[->| ->]]]; intuition.
  - destruct (existsb (String.eqb v) (nodes g ++ [u])) eqn:Hv.
    + apply existsb_exists in Hv as [y [Hy E]]. apply String.eqb_eq in E.
      subst y. rewrite in_app_iff in *. simpl in *.
      split; [intuition|]. intros [H|[->| ->]]; intuition.
    + rewrite !in_app_iff. simpl. intuition.
Qed.

Lemma well_formed_empty : well_formed empty.
Proof.
  unfold well_formed, closed, nodes, edges. simpl.
  repeat split; try constructor; destruct H.
Qed.

Lemma well_formed_add_node (g : DiGraph) (n : string) (a : attrs) :
  well_formed g -> well_formed (add_node g n a).
Proof.
  intros [Hn [He Hc]]. unfold well_formed, closed.
  rewrite edges_add_node, nodes_add_node.
  destruct (has_node g n) eqn:H.
  { split; [exact Hn|]. split; [exact He|]. exact Hc. }
  split; [|split; [exact He|]].
  - apply nodup_app; [exact Hn | repeat constructor; intros [] |].
    intros x Hx [<-|[]]. apply has_node_iff in Hx. congruence.
  - intros u v Huv. destruct (Hc u v Huv).
    split; apply in_app_iff; now left.
Qed.

Lemma well_formed_add_edge (g : DiGraph) (u v : string) (a : attrs) :
  well_formed g -> well_formed (add_edge g u v a).
Proof.
  intros [Hn [He Hc]]. unfold well_formed, closed.
  split; [|split; [|intros u0 v0 H; split]].
  - rewrite nodes_add_edge. cbv zeta.
    assert (H1 : NoDup (if has_node g u then nodes g else nodes g ++ [u])).
    { destruct (has_node g u) eqn:H; [exact Hn|].
      apply nodup_app; [exact Hn | repeat constructor; intros [] |].
      intros x Hx [<-|[]]. apply has_node_iff in Hx. congruence. }
    destruct (existsb (String.eqb v) _) eqn:H2; [exact H1|].
    apply nodup_app; [exact H1 | repeat constructor; intros [] |].
    intros x Hx [<-|[]].
    assert (existsb (String.eqb v) (if has_node g u then nodes g
                                     else nodes g ++ [u]) = true).
    { apply existsb_exists. exists v. split; [exact Hx | apply String.eqb_refl]. }
    congruence.
  - unfold add_edge.
    set (g1 := if has_node g u then g else add_node g u []).
    set (g2 := if has_node g1 v then g1 else add_node g1 v []).
    assert (E : edges g2 = edges g).
    { unfold g2, g1. destruct (has_node g u); destruct (has_node _ v);
        now rewrite ?edges_add_node. }
    destruct (has_edge g2 u v) eqn:H; unfold edges in *; simpl.
    + now rewrite modify_keys, E.
    + rewrite map_app, E. simpl.
      apply nodup_app; [exact He | repeat constructor; intros [] |].
      intros x Hx [<-|[]].
      apply not_true_iff_false in H. apply H. apply has_edge_iff.
      unfold edges. now rewrite E.
  - destruct (edges_add_edge g u v a) as [E|E]; rewrite E in H.
    + apply add_edge_nodes_incl. left. now apply (Hc u0 v0).
    + apply add_edge_nodes_incl. apply in_app_iff in H as [H|[H|[]]].
      * left. now apply (Hc u0 v0).
      * injection H as <- <-. right. now left.
  - destruct (edges_add_edge g u v a) as [E|E]; rewrite E in H.
    + apply add_edge_nodes_incl. left. now apply (Hc u0 v0).
    + apply add_edge_nodes_incl. apply in_app_iff in H as [H|[H|[]]].
      * left. now apply (Hc u0 v0).
      * injection H as <- <-. right. now right.
Qed.

End WellFormed.

(** ** The queries of the analyzer *)

Section AnalyzerQueries.
Import PyStr Nx GraphAnalyzer.

Lemma out_degree_zero_iff (g : DiGraph) (n : string) :
  out_degree g n = 0 <-> forall v, ~ In (n, v) (edges g).
Proof.
  unfold out_degree. rewrite length_zero_iff_no_member. split.
  - intros H v Hv. specialize (H (n, v) Hv). simpl in H.
    now rewrite String.eqb_refl in H.
  - intros H [u v] Hx. simpl. destruct (String.eqb u n) eqn:E; [|reflexivity].
    apply String.eqb_eq in E. subst u. now apply H in Hx.
Qed.

(** X1.  A node is returned by [find_isolated_nodes] iff it is a node of the
    graph and no edge starts or ends at it; a self-loop is enough to keep a
    node out. *)
Theorem find_isolated_nodes_iff (g : DiGraph) (n : string) :
  In n (find_isolated_nodes g)
  <-> In n (nodes g)
      /\ forall u v, In (u, v) (edges g) -> u <> n /\ v <> n.
Proof.
  unfold find_isolated_nodes.
  rewrite filter_In, andb_true_iff, !Nat.eqb_eq.
  rewrite in_degree_zero_iff, out_degree_zero_iff. split.
  - intros [Hn [Hi Ho]]. split; [exact Hn|]. intros u v Huv.
    split; intros ->; [now apply (Ho v) | now apply (Hi u)].
  - intros [Hn H]. split; [exact Hn|]. split.
    + intros u Hu. now destruct (H u n Hu).
    + intros v Hv. now destruct (H n v Hv).
Qed.

(** X2.  The isolated nodes are the stranded nodes, found without entry
    points, that have no outgoing edge, in the same order; with entry
    points configured an isolated node is stranded unless a fragment occurs
    in its id. *)
Theorem isolated_nodes_among_stranded (g : DiGraph) :
  find_isolated_nodes g
  = filter (fun n => (out_degree g n =? 0)%nat) (find_stranded_nodes g None)
  /\ forall entry_points n,
       In n (find_isolated_nodes g) ->
       In n (find_stranded_nodes g (Some entry_points))
       \/ exists ep, In ep entry_points /\ occurs_in ep n.
Proof.
  split.
  - unfold find_isolated_nodes, find_stranded_nodes. simpl.
    induction (nodes g) as [|x l IH]; simpl; [reflexivity|].
    rewrite andb_true_r.
    destruct (in_degree g x =? 0)%nat; simpl; [|exact IH].
    destruct (out_degree g x =? 0)%nat; simpl; now rewrite IH.
  - intros eps n Hn. unfold find_isolated_nodes in Hn.
    apply filter_In in Hn as [Hn Hd]. apply andb_true_iff in Hd as [Hd _].
    destruct (existsb (fun ep => contains ep n) eps) eqn:E.
    + right. apply existsb_exists in E as [ep [Hep Hc]].
      exists ep. split; [exact Hep | now apply contains_iff].
    + left. unfold find_stranded_nodes. apply filter_In.
      split; [exact Hn|]. now rewrite Hd, E.
Qed.

(** X3.  [get_dependencies] and [get_dependents] of a node the graph lacks
    are empty; for a node of the graph they are the ends and the starts of
    its edges.  When every edge joins nodes of the graph the two are dual:
    [v] depends on nothing but what has [v] as dependent. *)
Theorem dependencies_and_dependents (g : DiGraph) (u v : string) :
  (In v (get_dependencies g u) <-> In u (nodes g) /\ In (u, v) (edges g))
  /\ (In u (get_dependents g v) <-> In v (nodes g) /\ In (u, v) (edges g))
  /\ (~ In u (nodes g) ->
      get_dependencies g u = [] /\ get_dependents g u = [])
  /\ (closed g ->
      (In v (get_dependencies g u) <-> In u (get_dependents g v))).
Proof.
  assert (D : In v (get_dependencies g u)
              <-> In u (nodes g) /\ In (u, v) (edges g)).
  { unfold get_dependencies, successors.
    destruct (has_node g u) eqn:H.
    - apply has_node_iff in H. rewrite in_map_iff. split.
      + intros [[a b] [E Hab]]. simpl in E. subst b.
        apply filter_In in Hab as [Hab Ha]. simpl in Ha.
        apply String.eqb_eq in Ha. subst a. now split.
      + intros [_ Huv]. exists (u, v). split; [reflexivity|].
        apply filter_In. split; [exact Huv|]. simpl. apply String.eqb_refl.
    - split; [intros []|]. intros [Hu _]. apply has_node_iff in Hu. congruence. }
  assert (P : In u (get_dependents g v)
              <-> In v (nodes g) /\ In (u, v) (edges g)).
  { unfold get_dependents, predecessors.
    destruct (has_node g v) eqn:H.
    - apply has_node_iff in H. rewrite in_map_iff. split.
      + intros [[a b] [E Hab]]. simpl in E. subst a.
        apply filter_In in Hab as [Hab Hb]. simpl in Hb.
        apply String.eqb_eq in Hb. subst b. now split.
      + intros [_ Huv]. exists (u, v). split; [reflexivity|].
        apply filter_In. split; [exact Huv|]. simpl. apply String.eqb_refl.
    - split; [intros []|]. intros [Hv _]. apply has_node_iff in Hv. congruence. }
  split; [exact D|]. split; [exact P|]. split.
  - intros Hu. unfold get_dependencies, get_dependents.
    destruct (has_node g u) eqn:H; [|now split].
    apply has_node_iff in H. contradiction.
  - intros Hc. rewrite D, P. split; intros [_ H]; split; try exact H;
      now destruct (Hc u v H).
Qed.

Lemma has_node_same_nodes (g g' : DiGraph) (n : string) :
  nodes g' = nodes g -> has_node g' n = has_node g n.
Proof.
  intros E. apply eq_true_iff_eq. now rewrite !has_node_iff, E.
Qed.

Lemma pairs_members (l : list string) (a b : string) :
  In (a, b) (pairs l) -> In a l /\ In b l.
Proof.
  induction l as [|x l IH]; [intros []|].
  destruct l as [|y t]; [intros []|].
  change (pairs (x :: y :: t)) with ((x, y) :: pairs (y :: t)).
  intros [E|H].
  - injection E as <- <-. split; [now left | right; now left].
  - destruct (IH H). split; now right.
Qed.

Lemma cycle_pairs_members (c : list string) (a b : string) :
  In (a, b) (cycle_pairs c) -> In a c /\ In b c.
Proof.
  destruct c as [|v t]; [intros []|].
  unfold cycle_pairs. intros H. apply pairs_members in H as [Ha Hb].
  rewrite in_app_iff in Ha, Hb. simpl in Ha, Hb.
  split; [destruct Ha as [Ha|[<-|[]]] | destruct Hb as [Hb|[<-|[]]]];
    simpl; tauto.
Qed.

Lemma edge_attr_edge (g : DiGraph) (u v k : string) (x : pyval) :
  edge_attr g u v k = Some x -> In (u, v) (edges g).
Proof.
  unfold edge_attr. intros H. apply has_edge_iff. unfold has_edge, Dict.mem.
  now destruct (Dict.get edge_eqb (u, v) (edge_table g)).
Qed.

(** X5.  On a graph whose edges join its nodes, an edge that carried no
    flag and is flagged by [mark_cycles] joins two nodes [mark_cycles]
    flags as well. *)
Theorem flagged_edge_joins_flagged_nodes
    (simple_cycles : DiGraph -> Result (list (list string))) (g : DiGraph)
    (u v : string) :
  closed g ->
  edge_attr g u v "in_cycle" = None ->
  edge_attr (mark_cycles simple_cycles g) u v "in_cycle" = Some (PyBool true) ->
  node_attr (mark_cycles simple_cycles g) u "in_cycle" = Some (PyBool true)
  /\ node_attr (mark_cycles simple_cycles g) v "in_cycle" = Some (PyBool true).
Proof.
  intros Hc Hfresh Hflag.
  assert (Huv : In (u, v) (edges g)).
  { apply edge_attr_edge in Hflag. now rewrite mark_cycles_edges in Hflag. }
  rewrite (marked_edge_attr simple_cycles g u v "in_cycle" Huv) in Hflag.
  simpl in Hflag.
  destruct (on_pairs _ (u, v)) eqn:E; [|congruence].
  apply on_pairs_iff, in_flat_map in E as [c [Hin Hp]].
  apply cycle_pairs_members in Hp as [Hu Hv].
  destruct (Hc u v Huv) as [Nu Nv].
  rewrite (marked_node_attr simple_cycles g u "in_cycle" Nu).
  rewrite (marked_node_attr simple_cycles g v "in_cycle" Nv). simpl.
  assert (M : forall x, In x c ->
             mem x (concat (find_circular_dependencies simple_cycles g)) = true).
  { intros x Hx. apply mem_iff, in_concat. now exists c. }
  now rewrite (M u Hu), (M v Hv).
Qed.

End AnalyzerQueries.

(** ** Dicts whose keys are compared by an equivalence *)

Section DictEquiv.
Context {K V : Type}.
Variable eqb : K -> K -> bool.
Hypothesis eqb_sym : forall a b, eqb a b = eqb b a.
Hypothesis eqb_trans :
  forall a b c, eqb a b = true -> eqb b c = true -> eqb a c = true.

Lemma eqb_congr (a b c : K) : eqb a b = true -> eqb a c = eqb b c.
Proof.
  intros H. apply eq_true_iff_eq. split; intros H'.
  - apply (eqb_trans b a c); [now rewrite eqb_sym | exact H'].
  - now apply (eqb_trans a b c).
Qed.

Lemma get_equiv (a b : K) (d : list (K * V)) :
  eqb a b = true -> Dict.get eqb a d = Dict.get eqb b d.
Proof.
  intros H. induction d as [|[k v] d IH]; simpl; [reflexivity|].
  rewrite (eqb_sym k a), (eqb_sym k b), (eqb_congr a b k H).
  now rewrite IH.
Qed.

Lemma get_modify_equiv (c k : K) (f : V -> V) (d : list (K * V)) :
  Dict.get eqb k (Dict.modify eqb c f d)
  = if eqb c k then option_map f (Dict.get eqb k d) else Dict.get eqb k d.
Proof.
  unfold Dict.modify. induction d as [|[k' v] d IH]; simpl.
  - now destruct (eqb c k).
  - destruct (eqb k' c) eqn:E; simpl.
    + rewrite <- (eqb_congr k' c k E) in *.
      destruct (eqb k' k); [reflexivity | exact IH].
    + destruct (eqb k' k) eqn:E'; [|exact IH].
      destruct (eqb c k) eqn:E''; [|reflexivity].
      rewrite (eqb_congr k' k c E'), eqb_sym in E. congruence.
Qed.

Lemma get_set_equiv (c k : K) (v : V) (d : list (K * V)) :
  Dict.get eqb k (Dict.set eqb c v d)
  = if eqb c k then Some v else Dict.get eqb k d.
Proof.
  induction d as [|[k' v'] d IH]; simpl; [reflexivity|].
  destruct (eqb k' c) eqn:E; simpl.
  - rewrite <- (eqb_congr k' c k E) in *. now destruct (eqb k' k).
  - destruct (eqb k' k) eqn:E'; [|exact IH].
    destruct (eqb c k) eqn:E''; [|reflexivity].
    rewrite (eqb_congr k' k c E'), eqb_sym in E. congruence.
Qed.

Lemma keys_modify (c : K) (f : V -> V) (d : list (K * V)) :
  map fst (Dict.modify eqb c f d) = map fst d.
Proof.
  unfold Dict.modify. rewrite map_map. apply map_ext.
  intros [k v]. simpl. now destruct (eqb k c).
Qed.

Lemma get_None_keys (c : K) (d : list (K * V)) :
  Dict.get eqb c d = None <-> Forall (fun k => eqb k c = false) (map fst d).
Proof.
  induction d as [|[k v] d IH]; simpl.
  - split; [constructor | reflexivity].
  - destruct (eqb k c) eqn:E.
    + split; [discriminate|]. intros H. inversion H. congruence.
    + rewrite IH. split; [now constructor | intros H; now inversion H].
Qed.

Lemma set_no_key (c : K) (v : V) (d : list (K * V)) :
  Dict.get eqb c d = None -> Dict.set eqb c v d = d ++ [(c, v)].
Proof.
  induction d as [|[k' v'] d IH]; simpl; [reflexivity|].
  destruct (eqb k' c); [discriminate|]. intros H. now rewrite IH.
Qed.

Lemma modify_no_key (c : K) (f : V -> V) (d : list (K * V)) :
  Dict.get eqb c d = None -> Dict.modify eqb c f d = d.
Proof.
  unfold Dict.modify. induction d as [|[k' v'] d IH]; simpl; [reflexivity|].
  destruct (eqb k' c); [discriminate|]. intros H. now rewrite IH.
Qed.

Lemma distinct_snoc (ks : list K) (c : K) :
  ForallOrdPairs (fun a b => eqb a b = false) ks ->
  Forall (fun k => eqb k c = false) ks ->
  ForallOrdPairs (fun a b => eqb a b = false) (ks ++ [c]).
Proof.
  induction 1 as [|a l Ha Hl IH]; intros Hc; simpl.
  - constructor; constructor.
  - inversion Hc; subst. constructor.
    + apply Forall_app. split; [exact Ha | now constructor].
    + now apply IH.
Qed.

End DictEquiv.

(** ** Clusters *)

Section Clusters.
Import Nx GraphAnalyzer.

Lemma py_eqb_sym (a b : pyval) : py_eqb a b = py_eqb b a.
Proof.
  destruct a as [|x|n|s], b as [|y|m|t]; simpl; try reflexivity.
  - now destruct x, y.
  - apply Nat.eqb_sym.
  - apply Nat.eqb_sym.
  - apply Nat.eqb_sym.
  - apply String.eqb_sym.
Qed.

Lemma py_eqb_trans (a b c : pyval) :
  py_eqb a b = true -> py_eqb b c = true -> py_eqb a c = true.
Proof.
  destruct a as [|x|n|s], b as [|y|m|t], c as [|z|p|u]; simpl;
    try discriminate; try reflexivity;
    rewrite ?Nat.eqb_eq, ?String.eqb_eq, ?Bool.eqb_true_iff;
    intros; subst; try congruence; try lia.
  now destruct x, z.
Qed.

Lemma cluster_of_node_attr (g : DiGraph) (n : string) :
  cluster_of g n
  = match node_attr g n "cluster" with
    | Some v => v
    | None => PyStr "unknown"
    end.
Proof.
  unfold cluster_of, node_attr.
  now destruct (Dict.get String.eqb n (node_table g)).
Qed.

#[local] Abbreviation distinct_keys :=
  (ForallOrdPairs (fun a b => py_eqb a b = false)).

Lemma get_add_to_cluster (g : DiGraph) (acc : list (pyval * list string))
    (n : string) (k : pyval) :
  Dict.get py_eqb k (add_to_cluster g acc n)
  = if py_eqb (cluster_of g n) k
    then Some (match Dict.get py_eqb k acc with
               | Some ms => ms ++ [n]
               | None => [n]
               end)
    else Dict.get py_eqb k acc.
Proof.
  unfold add_to_cluster. cbv zeta.
  rewrite (get_modify_equiv py_eqb py_eqb_sym py_eqb_trans).
  destruct (py_eqb (cluster_of g n) k) eqn:E.
  - unfold Dict.mem.
    rewrite (get_equiv py_eqb py_eqb_sym py_eqb_trans _ _ acc E).
    destruct (Dict.get py_eqb k acc) as [ms|] eqn:G.
    + now rewrite G.
    + now rewrite (get_set_equiv py_eqb py_eqb_sym py_eqb_trans), E.
  - destruct (Dict.mem py_eqb (cluster_of g n) acc); [reflexivity|].
    now rewrite (get_set_equiv py_eqb py_eqb_sym py_eqb_trans), E.
Qed.

Lemma get_fold_clusters (g : DiGraph) (l : list string)
    (acc : list (pyval * list string)) (k : pyval) :
  Dict.get py_eqb k (fold_left (add_to_cluster g) l acc)
  = match Dict.get py_eqb k acc,
          filter (fun n => py_eqb (cluster_of g n) k) l with
    | None, [] => None
    | None, ms => Some ms
    | Some ms0, ms => Some (ms0 ++ ms)
    end.
Proof.
  revert acc. induction l as [|n l IH]; intros acc; simpl.
  - destruct (Dict.get py_eqb k acc); [now rewrite app_nil_r | reflexivity].
  - rewrite IH, get_add_to_cluster.
    destruct (py_eqb (cluster_of g n) k).
    + destruct (Dict.get py_eqb k acc); [now rewrite <- app_assoc | reflexivity].
    + reflexivity.
Qed.

(** X6.  Looking a cluster value up in the result of [get_clusters] gives the
    nodes of the graph with that value as [cluster] attribute ('unknown'
    for a node without one), in the order of the graph; a value no node
    has is no key, so no group is empty. *)
Theorem get_clusters_lookup (g : DiGraph) (k : pyval) :
  Dict.get py_eqb k (get_clusters g)
  = match filter (fun n => py_eqb (cluster_of g n) k) (nodes g) with
    | [] => None
    | ms => Some ms
    end.
Proof. unfold get_clusters. now rewrite get_fold_clusters. Qed.

Lemma distinct_add_to_cluster (g : DiGraph) (acc : list (pyval * list string))
    (n : string) :
  distinct_keys (map fst acc) ->
  distinct_keys (map fst (add_to_cluster g acc n)).
Proof.
  intros H. unfold add_to_cluster. cbv zeta. rewrite keys_modify.
  unfold Dict.mem.
  destruct (Dict.get py_eqb (cluster_of g n) acc) eqn:G; [exact H|].
  rewrite (set_no_key _ _ _ _ G), map_app. simpl.
  apply (distinct_snoc py_eqb); [exact H|].
  now apply get_None_keys.
Qed.

Lemma members_modify (c : pyval) (n : string) (d : list (pyval * list string)) :
  distinct_keys (map fst d) ->
  Dict.mem py_eqb c d = true ->
  Permutation
    (concat (map snd (Dict.modify py_eqb c (fun ms => ms ++ [n]) d)))
    (n :: concat (map snd d)).
Proof.
  unfold Dict.mem.
  induction d as [|[k ms] d IH]; simpl; [discriminate|].
  intros Hd Hm. inversion Hd as [|a l Hk Hr]; subst.
  destruct (py_eqb k c) eqn:E.
  - fold (Dict.modify py_eqb c (fun ms => ms ++ [n]) d).
    rewrite modify_no_key.
    + simpl. rewrite <- app_assoc. simpl. symmetry. apply Permutation_middle.
    + apply get_None_keys. eapply Forall_impl; [|exact Hk].
      intros b Hb. simpl in Hb.
      rewrite py_eqb_sym.
      now rewrite <- (eqb_congr py_eqb py_eqb_sym py_eqb_trans k c b E).
  - fold (Dict.modify py_eqb c (fun ms => ms ++ [n]) d).
    rewrite (IH Hr Hm). symmetry. apply Permutation_middle.
Qed.

Lemma members_add_to_cluster (g : DiGraph) (acc : list (pyval * list string))
    (n : string) :
  distinct_keys (map fst acc) ->
  Permutation (concat (map snd (add_to_cluster g acc n)))
    (n :: concat (map snd acc)).
Proof.
  intros H. pose proof (distinct_add_to_cluster g acc n H) as H'.
  unfold add_to_cluster in *. cbv zeta in *. rewrite keys_modify in H'.
  unfold Dict.mem in *.
  destruct (Dict.get py_eqb (cluster_of g n) acc) eqn:G.
  - apply members_modify; [exact H|]. unfold Dict.mem. now rewrite G.
  - rewrite members_modify; [|exact H'|].
    + rewrite (set_no_key _ _ _ _ G), map_app, concat_app. simpl.
      now rewrite app_nil_r.
    + unfold Dict.mem.
      rewrite (get_set_equiv py_eqb py_eqb_sym py_eqb_trans).
      assert (R : py_eqb (cluster_of g n) (cluster_of g n) = true)
        by (destruct (cluster_of g n) as [|[]| |]; simpl;
            auto using Nat.eqb_refl, String.eqb_refl).
      now rewrite R.
Qed.

Lemma fold_clusters_partition (g : DiGraph) (l : list string)
    (acc : list (pyval * list string)) :
  distinct_keys (map fst acc) ->
  distinct_keys (map fst (fold_left (add_to_cluster g) l acc))
  /\ Permutation (concat (map snd (fold_left (add_to_cluster g) l acc)))
       (concat (map snd acc) ++ l).
Proof.
  revert acc. induction l as [|n l IH]; intros acc H; simpl.
  - now rewrite app_nil_r.
  - destruct (IH _ (distinct_add_to_cluster g acc n H)) as [D P].
    split; [exact D|]. rewrite P, (members_add_to_cluster g acc n H).
    simpl. apply Permutation_middle.
Qed.

(** X7.  [get_clusters] partitions the nodes: no two keys of the result are
    equal, and the groups together hold each node of the graph as often as
    the graph does. *)
Theorem get_clusters_partition (g : DiGraph) :
  ForallOrdPairs (fun a b => py_eqb a b = false) (map fst (get_clusters g))
  /\ Permutation (concat (map snd (get_clusters g))) (nodes g).
Proof.
  unfold get_clusters.
  apply (fold_clusters_partition g (nodes g) []). constructor.
Qed.

End Clusters.

(** ** Marking and the queries *)

Section MarkingAndQueries.
Import PyStr Nx GraphAnalyzer.

Lemma fold_left_ext_in {A B : Type} (f f' : A -> B -> A) (l : list B) (a : A) :
  (forall acc x, In x l -> f acc x = f' acc x) ->
  fold_left f l a = fold_left f' l a.
Proof.
  revert a. induction l as [|x l IH]; intros a H; simpl; [reflexivity|].
  rewrite (H a x) by now left. apply IH. intros acc y Hy. apply H. now right.
Qed.

(** X4.  [mark_cycles] annotates only: whatever [simple_cycles] is, the
    marked graph has the stranded nodes, the isolated nodes, the
    dependencies, the dependents and the clusters of the graph it was
    given, and is well formed when that graph is. *)
Theorem mark_cycles_keeps_queries
    (simple_cycles : DiGraph -> Result (list (list string))) (g : DiGraph) :
  let g' := mark_cycles simple_cycles g in
  (forall entry_points,
      find_stranded_nodes g' entry_points = find_stranded_nodes g entry_points)
  /\ find_isolated_nodes g' = find_isolated_nodes g
  /\ (forall n, get_dependencies g' n = get_dependencies g n)
  /\ (forall n, get_dependents g' n = get_dependents g n)
  /\ get_clusters g' = get_clusters g
  /\ (well_formed g -> well_formed g').
Proof.
  cbv zeta.
  pose proof (mark_cycles_nodes simple_cycles g) as En.
  pose proof (mark_cycles_edges simple_cycles g) as Ee.
  split; [|split; [|split; [|split; [|split]]]].
  - intros eps. unfold find_stranded_nodes, in_degree. now rewrite En, Ee.
  - unfold find_isolated_nodes, in_degree, out_degree. now rewrite En, Ee.
  - intros n. unfold get_dependencies, successors.
    now rewrite (has_node_same_nodes _ _ n En), Ee.
  - intros n. unfold get_dependents, predecessors.
    now rewrite (has_node_same_nodes _ _ n En), Ee.
  - unfold get_clusters. rewrite En. apply fold_left_ext_in.
    intros acc n Hn. unfold add_to_cluster.
    rewrite !cluster_of_node_attr.
    now rewrite (marked_node_attr simple_cycles g n "cluster" Hn).
  - intros [Hn [He Hc]]. unfold well_formed, closed. rewrite En, Ee.
    split; [exact Hn | split; [exact He | exact Hc]].
Qed.

End MarkingAndQueries.

(** ** The module map *)

Section ModuleMap.
Import PyStr Nx GraphBuilder.

Variable root : string.

#[local] Abbreviation rel := (fun pf => _get_relative_path root (file_path pf)).

Lemma get_set_string {V : Type} (c k : string) (v : V) (d : list (string * V)) :
  Dict.get String.eqb k (Dict.set String.eqb c v d)
  = if String.eqb c k then Some v else Dict.get String.eqb k d.
Proof.
  destruct (String.eqb c k) eqn:E.
  - apply String.eqb_eq in E. subst. apply get_set_same.
  - apply get_set_other. apply String.eqb_neq in E. congruence.
Qed.

Lemma get_set_if_absent (c k v : string) (m : module_map_t) :
  Dict.get String.eqb k (set_if_absent c v m)
  = if String.eqb c k
    then match Dict.get String.eqb k m with Some w => Some w | None => Some v end
    else Dict.get String.eqb k m.
Proof.
  unfold set_if_absent, Dict.mem.
  destruct (String.eqb c k) eqn:E.
  - apply String.eqb_eq in E. subst c.
    destruct (Dict.get String.eqb k m) eqn:G; [exact G|].
    apply get_set_same.
  - destruct (Dict.get String.eqb c m); [reflexivity|].
    now rewrite get_set_string, E.
Qed.

(** One file's step on the module map, seen from a key. *)
Lemma get_map_one_file (m : module_map_t) (pf : ParsedFile) (k : string) :
  Dict.get String.eqb k (map_one_file root m pf)
  = if existsb (String.eqb k) (assigned_keys root pf) then Some (rel pf)
    else if String.eqb (filename_key root pf) k
         then match Dict.get String.eqb k m with
              | Some w => Some w
              | None => Some (rel pf)
              end
         else Dict.get String.eqb k m.
Proof.
  unfold map_one_file, assigned_keys, filename_key. cbv zeta.
  destruct (String.eqb (language pf) "python").
  - set (mn := join "." _). set (fn := replace ".py" "" _).
    change (existsb (String.eqb k) [mn]) with (String.eqb k mn || false).
    rewrite get_set_if_absent, get_set_string, orb_false_r.
    rewrite (String.eqb_sym k mn).
    destruct (String.eqb mn k); destruct (String.eqb fn k); reflexivity.
  - set (mp := strip_first_ext _ _). set (dmp := ("./" ++ mp)%string).
    set (fn := OsPath.basename mp).
    change (existsb (String.eqb k) [mp; dmp])
      with (String.eqb k mp || (String.eqb k dmp || false)).
    rewrite get_set_if_absent, !get_set_string, orb_false_r.
    rewrite (String.eqb_sym k mp), (String.eqb_sym k dmp).
    destruct (String.eqb mp k); destruct (String.eqb dmp k);
      destruct (String.eqb fn k); reflexivity.
Qed.

Lemma existsb_eqb_In (k : string) (l : list string) :
  existsb (String.eqb k) l = true <-> In k l.
Proof.
  rewrite existsb_exists. split.
  - intros [y [Hy E]]. apply String.eqb_eq in E. now subst.
  - intros H. exists k. split; [exact H | apply String.eqb_refl].
Qed.

Lemma existsb_eqb_not_In (k : string) (l : list string) :
  existsb (String.eqb k) l = false <-> ~ In k l.
Proof.
  rewrite <- existsb_eqb_In. now destruct (existsb (String.eqb k) l).
Qed.

Lemma fold_left_invariant_in {A B : Type} (P : A -> Prop) (f : A -> B -> A)
    (l : list B) (a : A) :
  (forall x y, In y l -> P x -> P (f x y)) -> P a -> P (fold_left f l a).
Proof.
  revert a. induction l as [|y l IH]; intros a Hf Ha; simpl; [exact Ha|].
  apply IH.
  - intros x z Hz. apply Hf. now right.
  - apply Hf; [now left | exact Ha].
Qed.

Lemma module_map_sound (pfs : list ParsedFile) (k v : string) :
  Dict.get String.eqb k (_create_module_mapping root pfs) = Some v ->
  exists pf,
    In pf pfs
    /\ (In k (assigned_keys root pf) \/ filename_key root pf = k)
    /\ v = rel pf.
Proof.
  unfold _create_module_mapping. revert v.
  apply (fold_left_invariant_in
           (fun m => forall v, Dict.get String.eqb k m = Some v ->
                     exists pf, In pf pfs
                       /\ (In k (assigned_keys root pf)
                           \/ filename_key root pf = k)
                       /\ v = rel pf)).
  - intros m pf Hpf IH v. rewrite get_map_one_file.
    destruct (existsb (String.eqb k) (assigned_keys root pf)) eqn:A.
    + intros E. injection E as <-. apply existsb_eqb_In in A.
      exists pf. tauto.
    + destruct (String.eqb (filename_key root pf) k) eqn:F; [|apply IH].
      destruct (Dict.get String.eqb k m) as [w|]; [apply IH|].
      intros E. injection E as <-. apply String.eqb_eq in F.
      exists pf. tauto.
  - intros v. discriminate.
Qed.

Lemma module_map_grows (m : module_map_t) (pfs : list ParsedFile) (k : string) :
  Dict.get String.eqb k m <> None ->
  Dict.get String.eqb k (fold_left (map_one_file root) pfs m) <> None.
Proof.
  intros H0.
  apply (fold_left_invariant (fun m => Dict.get String.eqb k m <> None));
    [|exact H0].
  intros x pf H. rewrite get_map_one_file.
  destruct (existsb _ _); [discriminate|].
  destruct (String.eqb _ k); [|exact H].
  now destruct (Dict.get String.eqb k x).
Qed.

(** X8.  The module map has as keys exactly the keys the parsed files bring
    (dotted module name or extension-less path, and bare file name), and
    the value under a key is the relative path of a parsed file that brings
    this key. *)
Theorem module_map_keys (pfs : list ParsedFile) (k : string) :
  (forall v,
      Dict.get String.eqb k (_create_module_mapping root pfs) = Some v ->
      exists pf,
        In pf pfs
        /\ (In k (assigned_keys root pf) \/ filename_key root pf = k)
        /\ v = _get_relative_path root (file_path pf))
  /\ (Dict.mem String.eqb k (_create_module_mapping root pfs) = true
      <-> exists pf,
            In pf pfs
            /\ (In k (assigned_keys root pf) \/ filename_key root pf = k)).
Proof.
  split; [apply module_map_sound|]. unfold Dict.mem. split.
  - destruct (Dict.get String.eqb k (_create_module_mapping root pfs))
      as [v|] eqn:G; [|discriminate].
    intros _. destruct (module_map_sound pfs k v G) as [pf [H1 [H2 _]]].
    now exists pf.
  - intros [pf [Hpf Hk]]. apply in_split in Hpf as [l1 [l2 ->]].
    unfold _create_module_mapping. rewrite fold_left_app. simpl.
    pose proof (module_map_grows
                  (map_one_file root (fold_left (map_one_file root) l1 []) pf)
                  l2 k) as G.
    match goal with
    | |- match ?x with _ => _ end = true => destruct x; [reflexivity|]
    end.
    exfalso. apply G; [|reflexivity].
    rewrite get_map_one_file.
    destruct (existsb (String.eqb k) (assigned_keys root pf)) eqn:A;
      [discriminate|].
    apply existsb_eqb_not_In in A. destruct Hk as [Hk|Hk]; [contradiction|].
    rewrite Hk, String.eqb_refl.
    destruct (Dict.get String.eqb k (fold_left (map_one_file root) l1 []));
      intros E; discriminate E.
Qed.

Lemma module_map_keeps (m : module_map_t) (l : list ParsedFile)
    (pf : ParsedFile) (k : string) :
  (forall pf', In pf' l -> ~ In k (assigned_keys root pf')) ->
  Dict.get String.eqb k m = Some (rel pf) ->
  Dict.get String.eqb k (fold_left (map_one_file root) l m) = Some (rel pf).
Proof.
  revert m. induction l as [|pf' l IH]; intros m Hl Hm; simpl; [exact Hm|].
  apply IH.
  - intros p Hp. apply Hl. now right.
  - rewrite get_map_one_file.
    assert (A : existsb (String.eqb k) (assigned_keys root pf') = false)
      by (apply existsb_eqb_not_In, Hl; now left).
    rewrite A, Hm. now destruct (String.eqb _ k).
Qed.

(** X9.  Which file a key of the module map names.  A key a file assigns
    names that file unless a later file assigns it too; a bare file name
    that no file assigns names the first file it is the name of. *)
Theorem module_map_winner (l1 l2 : list ParsedFile) (pf : ParsedFile)
    (k : string) :
  (In k (assigned_keys root pf)
   /\ forall pf', In pf' l2 -> ~ In k (assigned_keys root pf'))
  \/ (filename_key root pf = k
      /\ (forall pf', In pf' (l1 ++ pf :: l2) ->
                      ~ In k (assigned_keys root pf'))
      /\ forall pf', In pf' l1 -> filename_key root pf' <> k) ->
  Dict.get String.eqb k (_create_module_mapping root (l1 ++ pf :: l2))
  = Some (_get_relative_path root (file_path pf)).
Proof.
  intros H. unfold _create_module_mapping. rewrite fold_left_app. simpl.
  set (m1 := fold_left (map_one_file root) l1 []).
  pose proof (fun m => module_map_keeps m l2 pf k) as Keep.
  destruct H as [[Hk Hl2]|[Hk [Hall Hl1]]].
  - apply Keep; [exact Hl2|]. rewrite get_map_one_file.
    apply existsb_eqb_In in Hk. now rewrite Hk.
  - apply Keep.
    + intros p Hp. apply Hall, in_app_iff. right. now right.
    + rewrite get_map_one_file.
      assert (A : existsb (String.eqb k) (assigned_keys root pf) = false).
      { apply existsb_eqb_not_In, Hall, in_app_iff. right. now left. }
      rewrite A, Hk, String.eqb_refl.
      destruct (Dict.get String.eqb k m1) as [w|] eqn:G; [|reflexivity].
      exfalso. unfold m1 in G.
      destruct (module_map_sound l1 k w G) as [p [Hp [[Ha|Hf] _]]].
      * apply (Hall p); [apply in_app_iff; now left | exact Ha].
      * now apply (Hl1 p).
Qed.

End ModuleMap.

(** ** The file graph *)

Section FileGraph.
Import PyStr Nx GraphBuilder.

Variable root : string.

#[local] Abbreviation rel := (fun pf => _get_relative_path root (file_path pf)).

Lemma add_edge_edges_iff (g : DiGraph) (u v : string) (a : attrs)
    (e : edge_key) :
  In e (edges (add_edge g u v a)) <-> In e (edges g) \/ e = (u, v).
Proof.
  unfold add_edge.
  set (g1 := if has_node g u then g else add_node g u []).
  set (g2 := if has_node g1 v then g1 else add_node g1 v []).
  assert (E : edges g2 = edges g).
  { unfold g2, g1.
    destruct (has_node g u); destruct (has_node _ v);
      now rewrite ?edges_add_node. }
  destruct (has_edge g2 u v) eqn:H; unfold edges in *; simpl.
  - rewrite modify_keys, E. apply has_edge_iff in H. unfold edges in H.
    rewrite E in H. split; [tauto|]. now intros [H'| ->].
  - rewrite map_app, in_app_iff, E. simpl. intuition.
Qed.

Lemma node_table_add_edge (g : DiGraph) (u v : string) (a : attrs) :
  has_node g u = true -> has_node g v = true ->
  node_table (add_edge g u v a) = node_table g.
Proof.
  intros Hu Hv. unfold add_edge. rewrite Hu, Hv.
  now destruct (has_edge g u v).
Qed.

Lemma fold_edges_spec {B : Type} (f : DiGraph -> B -> DiGraph)
    (N : list (string * attrs)) (P : B -> edge_key -> Prop) (l : list B) :
  (forall g x, In x l -> node_table g = N ->
     node_table (f g x) = N
     /\ forall e, In e (edges (f g x)) <-> In e (edges g) \/ P x e) ->
  forall g, node_table g = N ->
    node_table (fold_left f l g) = N
    /\ forall e, In e (edges (fold_left f l g))
                 <-> In e (edges g) \/ exists x, In x l /\ P x e.
Proof.
  induction l as [|x l IH]; intros Hf g Hg; simpl.
  - split; [exact Hg|]. intros e. split; [tauto|].
    intros [H|[x [[] _]]]. exact H.
  - destruct (Hf g x (or_introl eq_refl) Hg) as [N1 E1].
    destruct (IH (fun g y Hy => Hf g y (or_intror Hy)) _ N1) as [N2 E2].
    split; [exact N2|]. intros e. rewrite E2, E1. split.
    + intros [[H|H]|[y [Hy H]]]; [now left | right; exists x | right; exists y];
        tauto.
    + intros [H|[y [[<-|Hy] H]]]; [tauto | tauto | right; exists y; tauto].
Qed.

Lemma file_nodes (pfs : list ParsedFile) (g : DiGraph) :
  edges (fold_left (add_file_node root) pfs g) = edges g
  /\ forall n, In n (nodes (fold_left (add_file_node root) pfs g))
               <-> In n (nodes g) \/ exists pf, In pf pfs /\ n = rel pf.
Proof.
  revert g. induction pfs as [|pf pfs IH]; intros g; simpl.
  - split; [reflexivity|]. intros n. split; [tauto|].
    intros [H|[pf [[] _]]]. exact H.
  - destruct (IH (add_file_node root g pf)) as [E N].
    assert (E0 : edges (add_file_node root g pf) = edges g)
      by (unfold add_file_node; apply edges_add_node).
    assert (N0 : nodes (add_file_node root g pf)
                 = if has_node g (rel pf) then nodes g
                   else nodes g ++ [rel pf])
      by (unfold add_file_node; apply nodes_add_node).
    rewrite E0 in E.
    split; [exact E|]. intros n. rewrite N, N0.
    destruct (has_node g (rel pf)) eqn:H.
    + apply has_node_iff in H. split.
      * intros [H'|[p [Hp ->]]]; [now left | right; exists p; tauto].
      * intros [H'|[p [[<-|Hp] ->]]];
          [now left | now left | right; exists p; tauto].
    + rewrite in_app_iff. simpl. split.
      * intros [[H'|[<-|[]]]|[p [Hp ->]]];
          [now left | right; exists pf; tauto | right; exists p; tauto].
      * intros [H'|[p [[<-|Hp] ->]]];
          [tauto | tauto | right; exists p; tauto].
Qed.

Lemma probe_spec (m : module_map_t) (dir : string) (exts : list string)
    (t : string) :
  In t (probe m dir exts) ->
  exists ext, In ext exts /\ Dict.get String.eqb (dir ++ ext)%string m = Some t.
Proof.
  induction exts as [|ext exts IH]; simpl; [intros []|].
  destruct (Dict.get String.eqb (dir ++ ext)%string m) as [w|] eqn:G.
  - intros [<-|[]]. exists ext. tauto.
  - intros H. destruct (IH H) as [x [Hx E]]. exists x. tauto.
Qed.

Lemma probe_short (m : module_map_t) (dir : string) (exts : list string) :
  List.length (probe m dir exts) <= 1.
Proof.
  induction exts as [|ext exts IH]; simpl; [lia|].
  destruct (Dict.get String.eqb (dir ++ ext)%string m); simpl; lia.
Qed.

Lemma resolve_targets_are_files (pfs : list ParsedFile)
    (module source t : string) :
  In t (_resolve_import root module source (_create_module_mapping root pfs)
          pfs) ->
  exists pf, In pf pfs /\ t = rel pf.
Proof.
  unfold _resolve_import.
  destruct (Dict.get String.eqb module (_create_module_mapping root pfs))
    as [w|] eqn:G.
  - intros [<-|[]].
    destruct (module_map_sound root pfs module w G) as [pf [Hpf [_ E]]].
    now exists pf.
  - destruct (startswith "." module) eqn:S.
    + intros Ht. apply probe_spec in Ht as [ext [_ E]].
      destruct (module_map_sound root pfs _ t E) as [pf [Hpf [_ E']]].
      now exists pf.
    + intros Ht. apply in_map_iff in Ht as [pf [<- Hpf]].
      apply filter_In in Hpf as [Hpf _]. now exists pf.
Qed.

(** X10.  Against the module map of the parsed files, [_resolve_import]
    returns relative paths of parsed files only, and at most one of them
    when the module is a key of the map or starts with a dot. *)
Theorem resolve_import_targets (pfs : list ParsedFile) (module source : string) :
  let targets :=
    _resolve_import root module source (_create_module_mapping root pfs) pfs in
  (forall t, In t targets ->
             exists pf, In pf pfs /\ t = _get_relative_path root (file_path pf))
  /\ (Dict.mem String.eqb module (_create_module_mapping root pfs) = true
      \/ startswith "." module = true ->
      List.length targets <= 1).
Proof.
  cbv zeta. split; [intros t; apply resolve_targets_are_files|].
  unfold _resolve_import, Dict.mem.
  destruct (Dict.get String.eqb module (_create_module_mapping root pfs)).
  - intros _. simpl. lia.
  - intros [H|H]; [discriminate|]. rewrite H. apply probe_short.
Qed.

Lemma add_import_target_spec (N : list (string * attrs)) (source : string)
    (g : DiGraph) (t : string) :
  In source (map fst N) -> node_table g = N ->
  node_table (add_import_target source g t) = N
  /\ forall e, In e (edges (add_import_target source g t))
               <-> In e (edges g) \/ (e = (source, t) /\ In t (map fst N)).
Proof.
  intros Hs Hg. unfold add_import_target.
  destruct (has_node g t) eqn:H.
  - assert (Hs' : has_node g source = true)
      by (apply has_node_iff; unfold nodes; now rewrite Hg).
    rewrite (node_table_add_edge _ _ _ _ Hs' H).
    split; [exact Hg|]. intros e. rewrite add_edge_edges_iff.
    apply has_node_iff in H. unfold nodes in H. rewrite Hg in H. tauto.
  - split; [exact Hg|]. intros e. split; [tauto|].
    intros [H'|[_ H']]; [exact H'|].
    assert (has_node g t = true)
      by (apply has_node_iff; unfold nodes; now rewrite Hg).
    congruence.
Qed.

Lemma file_edge_loops (g0 : DiGraph) (pfs : list ParsedFile) :
  let g1 := fold_left (add_file_node root) pfs empty in
  let g := fill_file_graph root g0 pfs in
  node_table g = node_table g1
  /\ forall e,
       In e (edges g)
       <-> exists pf imp t,
             In pf pfs /\ In imp (imports pf)
             /\ In t (_resolve_import root (module imp) (file_path pf)
                        (_create_module_mapping root pfs) pfs)
             /\ e = (rel pf, t) /\ In t (nodes g1).
Proof.
  cbv zeta. unfold fill_file_graph. cbv zeta. change (clear g0) with empty.
  set (mm := _create_module_mapping root pfs).
  set (g1 := fold_left (add_file_node root) pfs empty).
  destruct (file_nodes pfs empty) as [E1 N1]. fold g1 in E1, N1.
  destruct (fold_edges_spec (add_file_edges root mm pfs) (node_table g1)
              (fun pf e =>
                 exists imp, In imp (imports pf)
                   /\ exists t,
                        In t (_resolve_import root (module imp) (file_path pf)
                                mm pfs)
                        /\ e = (rel pf, t) /\ In t (nodes g1)) pfs)
    with (g := g1) as [N E]; [|reflexivity|].
  - intros g pf Hpf Hg. unfold add_file_edges.
    apply (fold_edges_spec _ (node_table g1)
             (fun imp e =>
                exists t,
                  In t (_resolve_import root (module imp) (file_path pf)
                          mm pfs)
                  /\ e = (rel pf, t) /\ In t (nodes g1))); [|exact Hg].
    intros g' imp Himp Hg'. unfold add_import_edges.
    apply (fold_edges_spec _ (node_table g1)
             (fun t e => e = (rel pf, t) /\ In t (nodes g1))); [|exact Hg'].
    intros g'' t Ht Hg''. apply add_import_target_spec; [|exact Hg''].
    apply N1. right. now exists pf.
  - split; [exact N|]. intros e. rewrite E, E1. split.
    + intros [[]|[pf [Hpf [imp [Himp [t H]]]]]]. exists pf, imp, t. tauto.
    + intros [pf [imp [t H]]]. right. exists pf. split; [tauto|].
      exists imp. split; [tauto|]. exists t. tauto.
Qed.

(** X11.  The file graph [build_file_graph] leaves in the builder: it is
    well formed; its nodes are the relative paths of the parsed files; its
    edges run from the relative path of a parsed file to each target
    [_resolve_import] gives for one of its imports, the test that the target
    is a node of the graph rejecting none. *)
Theorem file_graph_structure (g0 : DiGraph) (pfs : list ParsedFile) :
  let g := fill_file_graph root g0 pfs in
  well_formed g
  /\ (forall n,
        In n (nodes g)
        <-> exists pf, In pf pfs /\ n = _get_relative_path root (file_path pf))
  /\ (forall u v,
        In (u, v) (edges g)
        <-> exists pf imp,
              In pf pfs /\ In imp (imports pf)
              /\ u = _get_relative_path root (file_path pf)
              /\ In v (_resolve_import root (module imp) (file_path pf)
                         (_create_module_mapping root pfs) pfs)).
Proof.
  cbv zeta. destruct (file_edge_loops g0 pfs) as [N E].
  assert (N1 : forall n,
             In n (nodes (fold_left (add_file_node root) pfs empty))
             <-> exists pf, In pf pfs /\ n = rel pf).
  { intros n. rewrite (proj2 (file_nodes pfs empty)).
    split; [|tauto]. now intros [[]|H]. }
  split; [|split].
  - unfold fill_file_graph. cbv zeta. apply fold_left_invariant.
    + intros g pf Hg. unfold add_file_edges. apply fold_left_invariant; [|exact Hg].
      intros g' imp Hg'. unfold add_import_edges.
      apply fold_left_invariant; [|exact Hg'].
      intros g'' t Hg''. unfold add_import_target.
      destruct (has_node g'' t); [now apply well_formed_add_edge | exact Hg''].
    + apply fold_left_invariant; [|apply well_formed_empty].
      intros g pf Hg. now apply well_formed_add_node.
  - intros n. unfold nodes at 1. rewrite N. apply N1.
  - intros u v. rewrite E. split.
    + intros [pf [imp [t [Hpf [Himp [Ht [Huv _]]]]]]].
      injection Huv as -> ->. exists pf, imp. tauto.
    + intros [pf [imp [Hpf [Himp [-> Hv]]]]].
      exists pf, imp, v. repeat (split; [assumption || reflexivity|]).
      apply N1.
      now apply (resolve_targets_are_files pfs (module imp) (file_path pf)).
Qed.

End FileGraph.

(** ** The attributes of the file nodes *)

Section FileNodeData.
Import PyStr Nx GraphBuilder GraphAnalyzer.

Variable root : string.

#[local] Abbreviation rel := (fun pf => _get_relative_path root (file_path pf)).

#[local] Abbreviation file_attrs :=
  (fun pf : ParsedFile =>
     [("file_path", PyStr (file_path pf));
      ("language", PyStr (language pf));
      ("lines_of_code", PyInt (lines_of_code pf));
      ("cluster", PyStr (_get_cluster (rel pf)));
      ("num_definitions", PyInt (List.length (definitions pf)));
      ("num_imports", PyInt (List.length (imports pf)))]).

Lemma get_add_node (g : DiGraph) (n n' : string) (a : attrs) :
  Dict.get String.eqb n' (node_table (add_node g n a))
  = if String.eqb n n'
    then Some (Dict.update String.eqb
                 (match Dict.get String.eqb n (node_table g) with
                  | Some old => old
                  | None => []
                  end) a)
    else Dict.get String.eqb n' (node_table g).
Proof.
  unfold add_node, has_node, Dict.mem.
  destruct (Dict.get String.eqb n (node_table g)) as [old|] eqn:G;
    cbn [node_table].
  - rewrite (get_modify_equiv String.eqb String.eqb_sym).
    + destruct (String.eqb n n') eqn:E; [|reflexivity].
      apply String.eqb_eq in E. subst n'. now rewrite G.
    + intros x y z Hx Hy. apply String.eqb_eq in Hx, Hy.
      subst. apply String.eqb_refl.
  - rewrite <- (set_no_key String.eqb n _ _ G). apply get_set_string.
Qed.

Lemma file_attrs_update (pf0 pf : ParsedFile) :
  Dict.update String.eqb (file_attrs pf0) (file_attrs pf) = file_attrs pf.
Proof. reflexivity. Qed.

(** The node loop of [build_file_graph]: a node holds the attributes of the
    last parsed file with its relative path. *)
Lemma file_node_table (pfs : list ParsedFile) (n : string) :
  Dict.get String.eqb n
    (node_table (fold_left (add_file_node root) pfs empty))
  = option_map file_attrs
      (find (fun pf => String.eqb (rel pf) n) (rev pfs)).
Proof.
  revert n. induction pfs as [|pf pfs IH] using rev_ind; intros n;
    [reflexivity|].
  rewrite fold_left_app, rev_app_distr. simpl.
  unfold add_file_node at 1. rewrite get_add_node.
  destruct (String.eqb (rel pf) n) eqn:E; [|apply IH].
  simpl. f_equal. rewrite IH.
  now destruct (find _ (rev pfs)).
Qed.

(** X12.  [get_node_data] on the file graph: a node carries the path, the
    language, the line count, the directory and the numbers of definitions
    and imports of the last parsed file with that relative path, and nothing
    else; any other name gets the empty dict. *)
Theorem file_node_data (g0 : DiGraph) (pfs : list ParsedFile) (n : string) :
  get_node_data (fill_file_graph root g0 pfs) n
  = match find (fun pf => String.eqb (_get_relative_path root (file_path pf)) n)
            (rev pfs) with
    | Some pf =>
        [("file_path", PyStr (file_path pf));
         ("language", PyStr (language pf));
         ("lines_of_code", PyInt (lines_of_code pf));
         ("cluster",
          PyStr (_get_cluster (_get_relative_path root (file_path pf))));
         ("num_definitions", PyInt (List.length (definitions pf)));
         ("num_imports", PyInt (List.length (imports pf)))]
    | None => []
    end.
Proof.
  unfold get_node_data, has_node, Dict.mem.
  rewrite (proj1 (file_edge_loops root g0 pfs)), file_node_table.
  now destruct (find _ (rev pfs)).
Qed.

(** X13.  [get_clusters] on the file graph groups the files by directory:
    under a directory name it holds the nodes whose [_get_cluster] is that
    name, and a name that is the directory of no node is no key. *)
Theorem file_graph_clusters (g0 : DiGraph) (pfs : list ParsedFile)
    (d : string) :
  Dict.get py_eqb (PyStr d) (get_clusters (fill_file_graph root g0 pfs))
  = match filter (fun n => String.eqb (_get_cluster n) d)
            (nodes (fill_file_graph root g0 pfs)) with
    | [] => None
    | ms => Some ms
    end.
Proof.
  unfold get_clusters. rewrite get_fold_clusters. simpl.
  set (g := fill_file_graph root g0 pfs).
  assert (E : filter (fun n => py_eqb (cluster_of g n) (PyStr d)) (nodes g)
              = filter (fun n => String.eqb (_get_cluster n) d) (nodes g)).
  { apply filter_ext_in. intros n Hn.
    apply has_node_iff in Hn. unfold has_node, Dict.mem in Hn.
    unfold cluster_of, g in *.
    rewrite (proj1 (file_edge_loops root g0 pfs)), file_node_table in *.
    destruct (find _ (rev pfs)) as [pf|] eqn:F; [|discriminate].
    apply find_some in F as [_ F]. apply String.eqb_eq in F.
    simpl. now rewrite F. }
  now rewrite E.
Qed.

End FileNodeData.

(** ** The entity graph *)

Section EntityGraph.
Import PyStr Nx GraphBuilder.

Variable root : string.

#[local] Abbreviation rel := (fun pf => _get_relative_path root (file_path pf)).

(** The node loop as one loop over [entities]. *)
#[local] Abbreviation enter :=
  (fun (st : entity_map_t * DiGraph) (e : string * Defn) =>
     add_entity_node (fst e) st (snd e)).

Lemma fold_left_map {A B C : Type} (f : A -> B -> A) (h : C -> B)
    (l : list C) (a : A) :
  fold_left f (map h l) a = fold_left (fun a x => f a (h x)) l a.
Proof. revert a. induction l as [|x l IH]; intros a; simpl; auto. Qed.

Lemma entity_loop_flat (pfs : list ParsedFile) (st : entity_map_t * DiGraph) :
  fold_left (add_entity_nodes root) pfs st
  = fold_left enter (entities root pfs) st.
Proof.
  revert st. induction pfs as [|pf pfs IH]; intros st; [reflexivity|].
  simpl. rewrite fold_left_app, IH. f_equal.
  unfold add_entity_nodes. now rewrite fold_left_map.
Qed.

Lemma get_enter (m : entity_map_t) (g : DiGraph) (e : string * Defn)
    (k : string) :
  Dict.get String.eqb k (fst (enter (m, g) e))
  = if existsb (String.eqb k) (entity_names (snd e)) then Some e
    else Dict.get String.eqb k m.
Proof.
  destruct e as [r d]. unfold add_entity_node, entity_names, opt_truthy.
  cbn [fst snd].
  destruct (parent d) as [p|]; [destruct (truthy p)|]; cbn [fst existsb];
    rewrite ?get_set_string, ?orb_false_r, !(String.eqb_sym k);
    repeat match goal with
           | |- context [String.eqb ?a k] => destruct (String.eqb a k)
           end; reflexivity.
Qed.

Lemma enter_graph (m : entity_map_t) (g : DiGraph) (e : string * Defn) :
  edges (snd (enter (m, g) e)) = edges g
  /\ nodes (snd (enter (m, g) e))
     = if has_node g (entity_id (fst e) (snd e)) then nodes g
       else nodes g ++ [entity_id (fst e) (snd e)].
Proof.
  unfold add_entity_node. cbn [snd].
  split; [apply edges_add_node | apply nodes_add_node].
Qed.

Lemma entity_loop (es : list (string * Defn)) (m : entity_map_t) (g : DiGraph) :
  let st := fold_left enter es (m, g) in
  (forall k,
      Dict.get String.eqb k (fst st)
      = match find (fun e => existsb (String.eqb k) (entity_names (snd e)))
                (rev es) with
        | Some e => Some e
        | None => Dict.get String.eqb k m
        end)
  /\ edges (snd st) = edges g
  /\ (forall n,
        In n (nodes (snd st))
        <-> In n (nodes g)
            \/ exists e, In e es /\ n = entity_id (fst e) (snd e))
  /\ (well_formed g -> well_formed (snd st)).
Proof.
  cbv zeta. induction es as [|e es IH] using rev_ind.
  - simpl. split; [reflexivity|]. split; [reflexivity|].
    split; [|exact (fun H => H)].
    intros n. split; [tauto|]. intros [H|[e [[] _]]]. exact H.
  - rewrite fold_left_app, rev_app_distr. cbn [fold_left rev app find].
    destruct (fold_left enter es (m, g)) as [m' g'] eqn:F. cbn [fst snd] in IH.
    destruct IH as [Hm [He [Hn Hw]]].
    destruct (enter_graph m' g' e) as [He' Hn'].
    split; [|split; [|split]].
    + intros k. rewrite get_enter.
      destruct (existsb (String.eqb k) (entity_names (snd e)));
        [reflexivity | apply Hm].
    + now rewrite He'.
    + intros n. rewrite Hn'.
      assert (Hin : In n (nodes g') \/ n = entity_id (fst e) (snd e)
                    <-> In n (nodes g)
                        \/ exists e', In e' (es ++ [e])
                                      /\ n = entity_id (fst e') (snd e')).
      { rewrite Hn. split.
        - intros [[H|[e' [H1 H2]]]| ->]; [now left | right | right].
          + exists e'. split; [apply in_app_iff; now left | exact H2].
          + exists e. split; [apply in_app_iff; right; now left | reflexivity].
        - intros [H|[e' [H1 H2]]]; [tauto|].
          apply in_app_iff in H1 as [H1|[<-|[]]]; [|now right].
          left. right. now exists e'. }
      rewrite <- Hin.
      destruct (has_node g' (entity_id (fst e) (snd e))) eqn:H.
      * apply has_node_iff in H. split; [tauto|]. now intros [H'| ->].
      * rewrite in_app_iff. simpl.
        split; [intros [H'|[<-|[]]] | intros [H'| ->]]; tauto.
    + intros H. unfold add_entity_node. cbn [snd].
      apply well_formed_add_node. now apply Hw.
Qed.

(** X14.  The name index of [build_entity_graph]: a name leads to the last
    definition, over all parsed files in order, that has it as name or as
    [parent.name]; a call to a name defined twice links to the later
    definition, wherever the caller is. *)
Theorem entity_index_lookup (pfs : list ParsedFile) (k : string) :
  Dict.get String.eqb k (entity_index root pfs)
  = find (fun e => existsb (String.eqb k) (entity_names (snd e)))
      (rev (entities root pfs)).
Proof.
  unfold entity_index. rewrite entity_loop_flat.
  pose proof (entity_loop (entities root pfs) [] empty) as L. cbv zeta in L.
  destruct L as [H _]. rewrite H. now destruct (find _ _).
Qed.

Lemma add_call_edge_spec (N : list (string * attrs)) (m : entity_map_t)
    (source : string) (g : DiGraph) (call : string) :
  In source (map fst N) -> node_table g = N ->
  node_table (add_call_edge m source g call) = N
  /\ forall e,
       In e (edges (add_call_edge m source g call))
       <-> In e (edges g)
           \/ exists tf td,
                Dict.get String.eqb call m = Some (tf, td)
                /\ e = (source, entity_id tf td)
                /\ In (entity_id tf td) (map fst N)
                /\ source <> entity_id tf td.
Proof.
  intros Hs Hg. unfold add_call_edge.
  destruct (Dict.get String.eqb call m) as [[tf td]|].
  - destruct (has_node g (entity_id tf td)) eqn:H; simpl.
    + destruct (String.eqb source (entity_id tf td)) eqn:E; simpl.
      * split; [exact Hg|]. intros e. split; [tauto|].
        intros [H'|[tf' [td' [H1 [_ [_ H2]]]]]]; [exact H'|].
        injection H1 as <- <-. apply String.eqb_eq in E. contradiction.
      * assert (Hs' : has_node g source = true)
          by (apply has_node_iff; unfold nodes; now rewrite Hg).
        rewrite (node_table_add_edge _ _ _ _ Hs' H).
        split; [exact Hg|]. intros e. rewrite add_edge_edges_iff.
        apply has_node_iff in H. unfold nodes in H. rewrite Hg in H.
        apply String.eqb_neq in E. split.
        -- intros [H'| ->]; [now left|]. right. exists tf, td. tauto.
        -- intros [H'|[tf' [td' [H1 [H2 _]]]]]; [now left|].
           injection H1 as <- <-. now right.
    + split; [exact Hg|]. intros e. split; [tauto|].
      intros [H'|[tf' [td' [H1 [_ [H2 _]]]]]]; [exact H'|].
      injection H1 as <- <-.
      assert (has_node g (entity_id tf td) = true)
        by (apply has_node_iff; unfold nodes; now rewrite Hg).
      congruence.
  - split; [exact Hg|]. intros e. split; [tauto|].
    intros [H'|[tf [td [H1 _]]]]; [exact H' | discriminate].
Qed.

(** X15.  The entity graph [build_entity_graph] leaves in the builder: it is
    well formed; its nodes are the ids of the definitions of the parsed
    files; its edges run from a definition to what the name index holds for
    one of its calls, unless that is the definition itself; the test that
    the target is a node of the graph rejects none. *)
Theorem entity_graph_structure (g0 : DiGraph) (pfs : list ParsedFile) :
  let g := fill_entity_graph root g0 pfs in
  well_formed g
  /\ (forall n,
        In n (nodes g)
        <-> exists r d, In (r, d) (entities root pfs) /\ n = entity_id r d)
  /\ (forall u v,
        In (u, v) (edges g)
        <-> exists r d call tf td,
              In (r, d) (entities root pfs) /\ In call (calls d)
              /\ Dict.get String.eqb call (entity_index root pfs)
                 = Some (tf, td)
              /\ u = entity_id r d /\ v = entity_id tf td /\ u <> v).
Proof.
  cbv zeta. unfold fill_entity_graph, entity_index. cbv zeta.
  change (clear g0) with empty. rewrite entity_loop_flat.
  pose proof (entity_loop (entities root pfs) [] empty) as L. cbv zeta in L.
  set (st := fold_left _ _ _) in L.
  repeat match goal with
         | |- context [fold_left ?f (entities root pfs) ?a] =>
             change (fold_left f (entities root pfs) a) with st
         end.
  clearbody st. destruct st as [m g1].
  cbn [fst snd] in *. destruct L as [Hm [He [Hn Hw]]].
  assert (Hn' : forall n, In n (nodes g1)
                          <-> exists r d, In (r, d) (entities root pfs)
                                          /\ n = entity_id r d).
  { intros n. rewrite Hn. split.
    - intros [[]|[[r d] [H1 H2]]]. now exists r, d.
    - intros [r [d [H1 H2]]]. right. now exists (r, d). }
  assert (Hpf : forall pf d, In pf pfs -> In d (definitions pf) ->
                             In (rel pf, d) (entities root pfs)).
  { intros pf d H1 H2. unfold entities. apply in_flat_map. exists pf.
    split; [exact H1|]. now apply in_map. }
  destruct (fold_edges_spec (add_entity_edges root m) (node_table g1)
              (fun pf e =>
                 exists d, In d (definitions pf)
                   /\ exists call, In call (calls d)
                        /\ exists tf td,
                             Dict.get String.eqb call m = Some (tf, td)
                             /\ e = (entity_id (rel pf) d, entity_id tf td)
                             /\ In (entity_id tf td) (nodes g1)
                             /\ entity_id (rel pf) d <> entity_id tf td) pfs)
    with (g := g1) as [N E]; [|reflexivity|].
  { intros g pf Hp Hg. unfold add_entity_edges.
    apply (fold_edges_spec _ (node_table g1)
             (fun d e =>
                exists call, In call (calls d)
                  /\ exists tf td,
                       Dict.get String.eqb call m = Some (tf, td)
                       /\ e = (entity_id (rel pf) d, entity_id tf td)
                       /\ In (entity_id tf td) (nodes g1)
                       /\ entity_id (rel pf) d <> entity_id tf td));
      [|exact Hg].
    intros g' d Hd Hg'. unfold add_defn_edges.
    apply (fold_edges_spec _ (node_table g1)
             (fun call e =>
                exists tf td,
                  Dict.get String.eqb call m = Some (tf, td)
                  /\ e = (entity_id (rel pf) d, entity_id tf td)
                  /\ In (entity_id tf td) (nodes g1)
                  /\ entity_id (rel pf) d <> entity_id tf td)); [|exact Hg'].
    intros g'' call Hcall Hg''. apply add_call_edge_spec; [|exact Hg''].
    apply Hn'. exists (rel pf), d. split; [now apply Hpf | reflexivity]. }
  split; [|split].
  - apply fold_left_invariant; [|apply Hw, well_formed_empty].
    intros g pf Hg. unfold add_entity_edges.
    apply fold_left_invariant; [|exact Hg].
    intros g' d Hg'. unfold add_defn_edges.
    apply fold_left_invariant; [|exact Hg'].
    intros g'' call Hg''. unfold add_call_edge.
    destruct (Dict.get String.eqb call m) as [[tf td]|]; [|exact Hg''].
    destruct (_ && _); [now apply well_formed_add_edge | exact Hg''].
  - intros n. unfold nodes at 1. rewrite N. apply Hn'.
  - intros u v. rewrite E, He. split.
    + intros [[]|(pf & Hp & d & Hd & call & Hc & tf & td & G & Huv & _ & Hne)].
      injection Huv as -> ->. exists (rel pf), d, call, tf, td.
      repeat (split; [first [assumption | reflexivity | now apply Hpf]|]).
      exact Hne.
    + intros (r & d & call & tf & td & Hrd & Hc & G & -> & -> & Hne). right.
      unfold entities in Hrd. apply in_flat_map in Hrd as [pf [Hp Hrd]].
      apply in_map_iff in Hrd as [d' [Ed Hd]]. injection Ed as <- <-.
      exists pf. split; [exact Hp|]. exists d'. split; [exact Hd|].
      exists call. split; [exact Hc|]. exists tf, td.
      repeat (split; [first [assumption | reflexivity]|]).
      split; [|exact Hne].
      apply Hn'. exists tf, td. split; [|reflexivity].
      rewrite Hm in G. destruct (find _ _) as [e|] eqn:F; [|discriminate].
      injection G as ->. apply find_some in F as [F _].
      now apply in_rev in F.
Qed.

End EntityGraph.

(** ** The walk over the syntax tree *)

Section AstWalk.
Import PyStr Ast PythonParser.

Lemma walk_levels_sound (k : nat) (level : list node) (x : node) :
  In x (walk_levels k level) -> exists y, In y level /\ subnode x y.
Proof.
  revert level. induction k as [|k IH]; intros level; simpl; [intros []|].
  rewrite in_app_iff. intros [H|H].
  - exists x. split; [exact H | constructor].
  - apply IH in H as [c [Hc Hx]].
    apply in_flat_map in Hc as [y [Hy Hc]].
    exists y. split; [exact Hy|]. now apply (subnode_child x c y).
Qed.

Lemma walk_levels_complete (k : nat) (level : list node) (y x : node) :
  In y level -> subnode x y -> height y <= k -> In x (walk_levels k level).
Proof.
  revert level y. induction k as [|k IH]; intros level y Hy Hx Hk.
  - destruct y; simpl in Hk; lia.
  - simpl. apply in_app_iff. inversion Hx as [|c n Hc Hxc]; subst.
    + now left.
    + right. apply (IH _ c).
      * apply in_flat_map. now exists y.
      * exact Hxc.
      * apply height_child in Hc. lia.
Qed.

(** The fuel of [walk] is enough: it lists the node and every descendant. *)
Lemma walk_spec (n x : node) : In x (walk n) <-> subnode x n.
Proof.
  unfold walk. split.
  - intros H. apply walk_levels_sound in H as [y [[<-|[]] H]]. exact H.
  - intros H. apply (walk_levels_complete _ _ n); [now left | exact H | lia].
Qed.

(** X16.  The Python parser looks at every node of the tree: an import
    statement at any depth gives its entries of [imports], a call at any
    depth below a function definition (nested functions included) is among
    the calls of that function, and nothing else is. *)
Theorem extraction_reaches_every_node (tree : node) :
  (forall imp,
      In imp (_extract_imports tree)
      <-> exists x, subnode x tree /\ In imp (imports_of_node x))
  /\ (forall call,
        In call (_extract_calls tree)
        <-> exists x, subnode x tree /\ In call (calls_of_node x))
  /\ (forall content c,
        In c (_extract_comments content tree)
        <-> In c (line_comments 1 (split newline content))
            \/ exists x, subnode x tree /\ In c (docstring_of_node x)).
Proof.
  assert (F : forall (A : Type) (f : node -> list A) (a : A),
             In a (flat_map f (walk tree))
             <-> exists x, subnode x tree /\ In a (f x)).
  { intros A f a. rewrite in_flat_map. split; intros [x [H1 H2]]; exists x;
      (split; [now apply walk_spec | exact H2]). }
  split; [|split].
  - intros imp. apply F.
  - intros call. apply F.
  - intros content c. unfold _extract_comments. cbv zeta.
    rewrite in_app_iff. now rewrite F.
Qed.

End AstWalk.

(** ** The definitions the Python parser records *)

Section PythonDefinitions.
Import PyStr Ast PythonParser.

(** What the fields of a recorded definition hold, by its type. *)
#[local] Abbreviation record_shape :=
  (fun d : Defn =>
     match type d with
     | CLASS => calls d = [] /\ nesting_depth d = 0 /\ parameters d = []
     | METHOD => GraphBuilder.opt_truthy (parent d) = true
     | FUNCTION => GraphBuilder.opt_truthy (parent d) = false
     | _ => False
     end).

Lemma visit_records (frames : nat) (cls : option string) (n : node)
    (ds : list Defn) (d : Defn) :
  visit frames cls n = Ok ds ->
  In d ds ->
  record_shape d
  /\ (parent d = cls
      \/ exists name doc lineno end_lineno children,
           subnode (ClassDef name doc lineno end_lineno children) n
           /\ parent d = Some name).
Proof.
  revert cls n ds. induction frames as [frames IH] using lt_wf_ind.
  intros cls n ds.
  destruct frames as [|[|frames]]; try discriminate. rewrite visit_SS.
  assert (Below : forall f cls' r,
             f < S (S frames) ->
             visit_each (visit f cls') (iter_child_nodes n) = Ok r ->
             In d r ->
             record_shape d
             /\ (parent d = cls'
                 \/ exists name doc lineno end_lineno children,
                      subnode (ClassDef name doc lineno end_lineno children) n
                      /\ parent d = Some name)).
  { intros f cls' r Hf E Hd.
    destruct (visit_each_members _ _ _ _ E Hd) as [c [dc [Hc [Ec Hdc]]]].
    destruct (IH f Hf cls' c dc Ec Hdc) as [Q [P|P]].
    - split; [exact Q | now left].
    - split; [exact Q|]. right.
      destruct P as (name & doc & l & e & ch & Hs & Hp).
      exists name, doc, l, e, ch. split; [|exact Hp].
      now apply (subnode_child _ c n). }
  destruct n as [doc body|names lineno|module names level lineno|is_async nm args doc lineno end_lineno children|nm doc lineno end_lineno children|kind children|func rest|id|value attr|children];
    try (intros E Hd; apply (Below frames cls ds); [lia | exact E | exact Hd]).
  - destruct (if is_async then frames else S frames) as [|g]; [discriminate|].
    destruct (_calculate_nesting g _) as [k|e]; [|discriminate]. simpl.
    intros E. injection E as <-. intros [<-|[]]. simpl.
    destruct (GraphBuilder.opt_truthy cls) eqn:E; simpl; split; auto.
  - destruct frames as [|f]; [discriminate|].
    destruct (visit_each (visit f (Some nm)) children) as [more|e] eqn:E;
      [|discriminate].
    simpl. intros H. injection H as <-. intros [<-|Hd]; [simpl; split; auto|].
    destruct (Below f (Some nm) more ltac:(lia) E Hd) as [Q [P|P]].
    + split; [exact Q|]. right. exists nm, doc, lineno, end_lineno, children.
      split; [constructor | exact P].
    + split; [exact Q | now right].
Qed.

(** X17.  The definitions [_extract_definitions] records when it returns: a
    class carries no calls, no parameters and nesting depth 0; a function
    is a method exactly when it has a non-empty parent; the parent of a
    definition is absent or the name of a class of the tree. *)
Theorem python_definition_records (frames : nat) (tree : node)
    (content : string) (ds : list Defn) (d : Defn) :
  _extract_definitions frames tree content = Ok ds ->
  In d ds ->
  match type d with
  | CLASS => calls d = [] /\ nesting_depth d = 0 /\ parameters d = []
  | METHOD => GraphBuilder.opt_truthy (parent d) = true
  | FUNCTION => GraphBuilder.opt_truthy (parent d) = false
  | _ => False
  end
  /\ (parent d = None
      \/ exists name doc lineno end_lineno children,
           subnode (ClassDef name doc lineno end_lineno children) tree
           /\ parent d = Some name).
Proof. unfold _extract_definitions. apply visit_records. Qed.

End PythonDefinitions.

(** ** Comment lines and code lines *)

Section CommentLines.
Import PyStr Ast PythonParser.

Lemma line_comments_spec (lines : list string) (i : nat) (c : Comment) :
  In c (line_comments i lines) ->
  is_docstring c = false /\ parent_entity c = None
  /\ i <= comment_line c < i + List.length lines.
Proof.
  revert i. induction lines as [|l lines IH]; intros i; simpl; [intros []|].
  rewrite in_app_iff. intros [H|H].
  - destruct (startswith "#" (strip l)); [|destruct H].
    destruct H as [<-|[]]. simpl. repeat split; lia.
  - apply IH in H. repeat split; try apply H; lia.
Qed.

Lemma line_comments_length (lines : list string) (i : nat) :
  List.length (line_comments i lines)
  = List.length (filter (fun l => startswith "#" (strip l)) lines).
Proof.
  revert i. induction lines as [|l lines IH]; intros i; simpl; [reflexivity|].
  rewrite length_app, IH.
  now destruct (startswith "#" (strip l)).
Qed.

Lemma docstring_of_node_flag (x : node) (c : Comment) :
  In c (docstring_of_node x) -> is_docstring c = true.
Proof.
  assert (E : forall doc p l,
             In c match doc with
                  | Some d => if truthy d then [mkComment d l true p] else []
                  | None => []
                  end -> is_docstring c = true).
  { intros [d|] p l; [|intros []].
    destruct (truthy d); [|intros []]. now intros [<-|[]]. }
  destruct x; simpl; try (intros []); try apply E.
  destruct is_async; [intros [] | apply E].
Qed.

Lemma line_kinds (s : string) :
  let a := startswith "#" s in
  let b := truthy s && negb (startswith_any ["#"; "//"] s) in
  let c := is_empty s || startswith "//" s in
  (a = true /\ b = false /\ c = false)
  \/ (a = false /\ b = true /\ c = false)
  \/ (a = false /\ b = false /\ c = true).
Proof.
  cbv zeta. unfold startswith_any, startswith, truthy. simpl existsb.
  rewrite orb_false_r.
  destruct s as [|ch s]; [simpl; tauto|].
  cbn [is_empty negb String.prefix andb orb].
  destruct (ascii_dec "#" ch) as [<-|N1]; [|destruct (ascii_dec "/" ch) as [<-|N2]].
  - destruct (ascii_dec "/" "#"); [discriminate|].
    destruct s; simpl; tauto.
  - destruct (String.prefix "/" s); simpl; tauto.
  - simpl. tauto.
Qed.

Lemma three_kinds {A : Type} (fa fb fc : A -> bool) (l : list A) :
  (forall x,
      (fa x = true /\ fb x = false /\ fc x = false)
      \/ (fa x = false /\ fb x = true /\ fc x = false)
      \/ (fa x = false /\ fb x = false /\ fc x = true)) ->
  List.length (filter fa l) + List.length (filter fb l)
  + List.length (filter fc l)
  = List.length l.
Proof.
  intros H. induction l as [|x l IH]; simpl; [reflexivity|].
  destruct (H x) as [[-> [-> ->]]|[[-> [-> ->]]|[-> [-> ->]]]]; simpl; lia.
Qed.

(** X18.  The line comments of the Python parser and the lines
    [_count_lines] counts never overlap: every line of the content is a
    comment line ([#] first), a counted line, or a line that is blank or
    starts with [//], and exactly one of these.  A comment that is no
    docstring carries the number of its line and no parent. *)
Theorem comment_and_code_lines (content : string) (tree : node) :
  let lines := split newline content in
  let line_part :=
    filter (fun c => negb (is_docstring c)) (_extract_comments content tree) in
  List.length line_part
  + BaseParser._count_lines content
  + List.length
      (filter (fun l => is_empty (strip l) || startswith "//" (strip l)) lines)
  = List.length lines
  /\ forall c, In c line_part ->
       parent_entity c = None /\ 1 <= comment_line c <= List.length lines.
Proof.
  cbv zeta. unfold _extract_comments. cbv zeta.
  set (lines := split newline content).
  assert (E : filter (fun c => negb (is_docstring c))
                (line_comments 1 lines
                 ++ flat_map docstring_of_node (walk tree))
              = line_comments 1 lines).
  { rewrite filter_app.
    rewrite (filter_none _ (flat_map docstring_of_node (walk tree))).
    - rewrite app_nil_r. apply forallb_filter_id. apply forallb_forall.
      intros c Hc. apply line_comments_spec in Hc as [-> _]. reflexivity.
    - apply Forall_forall.
      intros c Hc. apply in_flat_map in Hc as [x [_ Hc]].
      now rewrite (docstring_of_node_flag x c Hc). }
  rewrite E. split.
  - rewrite line_comments_length. unfold BaseParser._count_lines.
    fold lines. unfold BaseParser.counted.
    apply (three_kinds (fun l => startswith "#" (strip l))).
    intros l. apply line_kinds.
  - intros c Hc. apply line_comments_spec in Hc as [_ [Hp Hl]].
    split; [exact Hp | lia].
Qed.

End CommentLines.

(** ** The stranded-file check *)

Section StrandedFiles.
Import PyStr Nx GraphAnalyzer.

Lemma drop_suffix (n : nat) (s : string) :
  exists pre, s = (pre ++ drop n s)%string.
Proof.
  revert s. induction n as [|n IH]; intros s.
  - exists "". now destruct s.
  - destruct s as [|c s]; [now exists ""|].
    destruct (IH s) as [pre E]. exists (String c pre). simpl. now rewrite <- E.
Qed.

Lemma endswith_suffix (p s : string) :
  endswith p s = true -> exists pre, s = (pre ++ p)%string.
Proof.
  unfold endswith. intros H. apply andb_true_iff in H as [_ H].
  apply String.eqb_eq in H.
  destruct (drop_suffix (String.length s - String.length p) s) as [pre E].
  exists pre. now rewrite H in E.
Qed.

Lemma lower_app (a b : string) : lower (a ++ b) = (lower a ++ lower b)%string.
Proof. induction a as [|c a IH]; simpl; [reflexivity | now rewrite IH]. Qed.

Lemma string_app_assoc (a b c : string) :
  ((a ++ b) ++ c)%string = (a ++ (b ++ c))%string.
Proof. induction a as [|x a IH]; simpl; [reflexivity | now rewrite IH]. Qed.

(** The second test of [is_test] never decides. *)
Lemma test_suffix_has_test (node : string) :
  endswith "_test.py" node = true -> contains "test" (lower node) = true.
Proof.
  intros H. apply endswith_suffix in H as [pre ->].
  apply contains_iff. exists (lower pre ++ "_")%string, ".py"%string.
  rewrite lower_app. change (lower "_test.py") with "_test.py"%string.
  now rewrite string_app_assoc.
Qed.

Lemma check_nodes (g : DiGraph) (eps : list string) (l : list string)
    (issues : list UnusedCodeDetector.Issue) :
  fold_left (UnusedCodeDetector.check_node g eps) l issues
  = issues
    ++ map (UnusedCodeDetector.stranded_issue g)
         (filter (fun n => negb (contains "test" (lower n)))
            (filter
               (fun n => (in_degree g n =? 0)%nat
                         && negb (existsb (fun ep => contains ep n) eps))
               l)).
Proof.
  revert issues. induction l as [|n l IH]; intros issues; simpl.
  - now rewrite app_nil_r.
  - rewrite IH. unfold UnusedCodeDetector.check_node. cbv zeta.
    destruct (in_degree g n =? 0)%nat; simpl; [|reflexivity].
    destruct (existsb (fun ep => contains ep n) eps); simpl; [reflexivity|].
    destruct (contains "test" (lower n)) eqn:T; simpl; [reflexivity|].
    destruct (endswith "_test.py" n) eqn:S.
    + apply test_suffix_has_test in S. congruence.
    + simpl. now rewrite <- app_assoc.
Qed.

(** X19.  [_check_stranded_files] adds one issue for each node
    [find_stranded_nodes] returns for the same entry points, but the nodes
    with [test] in their lower-cased name; the test for the suffix
    [_test.py] changes nothing.  Run on the graph [mark_cycles] has marked,
    it adds the same issues. *)
Theorem stranded_file_issues
    (simple_cycles : DiGraph -> Result (list (list string)))
    (g : DiGraph) (entry_points : list string)
    (issues : list UnusedCodeDetector.Issue) :
  UnusedCodeDetector._check_stranded_files entry_points issues g
  = issues
    ++ map (UnusedCodeDetector.stranded_issue g)
         (filter (fun n => negb (contains "test" (lower n)))
            (find_stranded_nodes g (Some entry_points)))
  /\ UnusedCodeDetector._check_stranded_files entry_points issues
       (mark_cycles simple_cycles g)
     = UnusedCodeDetector._check_stranded_files entry_points issues g.
Proof.
  unfold UnusedCodeDetector._check_stranded_files. rewrite !check_nodes.
  split; [reflexivity|].
  rewrite mark_cycles_nodes. f_equal.
  assert (D : forall n, in_degree (mark_cycles simple_cycles g) n
                        = in_degree g n)
    by (intros n; unfold in_degree; now rewrite mark_cycles_edges).
  rewrite (filter_ext _ _ (fun n => f_equal (fun d => (d =? 0)%nat && _) (D n))).
  apply map_ext_in. intros n Hn.
  apply filter_In in Hn as [Hn _]. apply filter_In in Hn as [Hn _].
  unfold UnusedCodeDetector.stranded_issue.
  now rewrite (marked_node_attr simple_cycles g n "file_path" Hn).
Qed.

End StrandedFiles.

(** ** Relative paths *)

Section RelativePaths.
Import PyStr GraphBuilder.

#[local] Abbreviation noslash :=
  (fun c => forallb (fun x => negb (Ascii.eqb x slash)) (list_ascii_of_string c)).

Lemma split_noslash (x : string) : noslash x = true -> split slash x = [x].
Proof.
  induction x as [|c x IH]; simpl; [reflexivity|].
  intros H. apply andb_true_iff in H as [Hc Hx].
  apply negb_true_iff in Hc. rewrite Hc, (IH Hx). reflexivity.
Qed.

Lemma split_app_sep (x rest : string) :
  noslash x = true ->
  split slash (x ++ String slash rest) = x :: split slash rest.
Proof.
  induction x as [|c x IH]; simpl; [reflexivity|].
  intros H. apply andb_true_iff in H as [Hc Hx].
  apply negb_true_iff in Hc. rewrite Hc, (IH Hx). reflexivity.
Qed.

Lemma split_concat (l : list string) :
  l <> [] -> forallb PathLib.is_component l = true ->
  split slash (String.concat "/" l) = l.
Proof.
  induction l as [|x l IH]; [congruence|]. intros _ H.
  simpl in H. apply andb_true_iff in H as [Hx Hl].
  unfold PathLib.is_component in Hx. apply andb_true_iff in Hx as [_ Hx].
  destruct l as [|y l]; [now apply split_noslash|].
  change (String.concat "/" (x :: y :: l))
    with (x ++ String slash (String.concat "/" (y :: l)))%string.
  rewrite (split_app_sep _ _ Hx), IH; [reflexivity | discriminate | exact Hl].
Qed.

Lemma filter_components (l : list string) :
  forallb PathLib.is_component l = true ->
  filter (fun c => truthy c && negb (String.eqb c ".")) l = l.
Proof.
  induction l as [|x l IH]; simpl; [reflexivity|].
  intros H. apply andb_true_iff in H as [Hx Hl].
  unfold PathLib.is_component in Hx. apply andb_true_iff in Hx as [Hx _].
  now rewrite Hx, (IH Hl).
Qed.

Lemma absolute_path_parts (l : list string) :
  forallb PathLib.is_component l = true ->
  PathLib.of_string (String slash (String.concat "/" l))
  = PathLib.mkPath "/" l.
Proof.
  intros H. unfold PathLib.of_string. f_equal.
  - destruct l as [|x l]; [reflexivity|].
    simpl in H. apply andb_true_iff in H as [Hx _].
    unfold PathLib.is_component in Hx.
    apply andb_true_iff in Hx as [Hx Hs]. apply andb_true_iff in Hx as [Hx _].
    destruct x as [|c x]; [discriminate|].
    simpl in Hs. apply andb_true_iff in Hs as [Hc _].
    apply negb_true_iff, Ascii.eqb_neq in Hc.
    assert (E : exists t, String.concat "/" (String c x :: l) = String c t).
    { destruct l; simpl; eauto. }
    destruct E as [t ->]. unfold PathLib.root_of.
    destruct (Ascii.eqb_spec c slash) as [->|N]; [now contradiction Hc|].
    destruct c as [[] [] [] [] [] [] [] []]; try reflexivity.
    now contradiction N.
  - unfold PathLib.components.
    change (split slash (String slash (String.concat "/" l)))
      with (EmptyString :: split slash (String.concat "/" l)).
    destruct l as [|x l]; [reflexivity|].
    rewrite split_concat by (discriminate || exact H).
    match goal with
    | |- filter ?f (EmptyString :: ?r) = _ =>
        change (filter f (EmptyString :: r)) with (filter f r)
    end.
    now apply filter_components.
Qed.

Lemma strip_prefix_app (pre l : list string) :
  PathLib.strip_prefix pre (pre ++ l) = Some l.
Proof.
  induction pre as [|a pre IH]; simpl; [now destruct l|].
  now rewrite String.eqb_refl.
Qed.

(** X20.  [_get_relative_path] gives back the path below the root: for a
    root [/r1/.../rn] and a file [/r1/.../rn/p1/.../pm] under it, [m > 0],
    the result is [p1/.../pm]. *)
Theorem relative_path_below_root (root_parts rel_parts : list string) :
  forallb PathLib.is_component root_parts = true ->
  forallb PathLib.is_component rel_parts = true ->
  rel_parts <> [] ->
  _get_relative_path (String slash (String.concat "/" root_parts))
    (String slash (String.concat "/" (root_parts ++ rel_parts)))
  = String.concat "/" rel_parts.
Proof.
  intros Hr Hp Hne. unfold _get_relative_path.
  rewrite !absolute_path_parts
    by (rewrite ?forallb_app, ?Hr, ?Hp; reflexivity).
  unfold PathLib.relative_to. simpl PathLib.root. simpl PathLib.parts.
  rewrite String.eqb_refl, strip_prefix_app.
  unfold PathLib.to_string. simpl.
  destruct rel_parts; [congruence | reflexivity].
Qed.

Lemma startswith_slash (s : string) :
  startswith "/" s = true <-> exists t, s = String slash t.
Proof.
  unfold startswith. destruct s as [|c s]; cbn [String.prefix].
  - split; [discriminate | intros [t H]; discriminate].
  - destruct (ascii_dec "/" c) as [<-|N].
    + split; [intros _; now exists s | intros _; now destruct s].
    + split; [discriminate|]. intros [t H]. injection H as -> _.
      now contradiction N.
Qed.

Lemma root_of_empty (s : string) :
  PathLib.root_of s = ""%string <-> startswith "/" s = false.
Proof.
  destruct (startswith "/" s) eqn:E.
  - apply startswith_slash in E as [t ->]. split; [|discriminate].
    unfold PathLib.root_of.
    destruct t as [|c t]; [discriminate|].
    destruct (Ascii.eqb_spec c slash) as [->|N];
      [|destruct c as [[] [] [] [] [] [] [] []];
        first [discriminate | now contradiction N]].
    destruct t as [|c t]; [discriminate|].
    destruct c as [[] [] [] [] [] [] [] []]; discriminate.
  - split; [reflexivity|]. intros _.
    destruct s as [|c s]; [reflexivity|].
    destruct (Ascii.eqb_spec c slash) as [->|N].
    + assert (startswith "/" (String slash s) = true)
        by (apply startswith_slash; now exists s).
      congruence.
    + unfold PathLib.root_of.
      destruct c as [[] [] [] [] [] [] [] []]; try reflexivity.
      now contradiction N.
Qed.

(** X21.  With a root that is no absolute path, an absolute file path is
    never below the root: [_get_relative_path] falls back to the bare
    file name. *)
Theorem relative_path_of_absolute_file (root path : string) :
  startswith "/" root = false ->
  startswith "/" path = true ->
  _get_relative_path root path = OsPath.basename path.
Proof.
  intros Hr Hp. unfold _get_relative_path, PathLib.relative_to.
  simpl PathLib.root. apply root_of_empty in Hr. rewrite Hr.
  destruct (String.eqb_spec (PathLib.root_of path) "") as [E|N];
    [|reflexivity].
  apply root_of_empty in E. congruence.
Qed.

End RelativePaths.

(** ** Nesting depth *)

Section NestingDepth.
Import Ast PythonParser.

#[local] Abbreviation inner_depth :=
  (fun (n : node) (d : nat) => if increases_nesting n then S d else d).






End NestingDepth.

(** ** Runs of the further properties *)

Section FurtherRuns.
Import PyStr Nx GraphBuilder GraphAnalyzer.

Lemma two_cycles_closed : closed Samples.two_cycles.
Proof.
  intros u v H. vm_compute in H.
  repeat (destruct H as [H|H]; [injection H as <- <-; split; vm_compute; tauto|]).
  destruct H.
Qed.

Lemma flagged_edge_witness :
  node_attr (mark_cycles reference_simple_cycles Samples.two_cycles)
    "b" "in_cycle" = Some (PyBool true)
  /\ node_attr (mark_cycles reference_simple_cycles Samples.two_cycles)
       "c" "in_cycle" = Some (PyBool true).
Proof.
  apply (flagged_edge_joins_flagged_nodes reference_simple_cycles
           Samples.two_cycles "b" "c").
  - exact two_cycles_closed.
  - reflexivity.
  - reflexivity.
Defined.

Lemma utils_key_witness :
  Dict.get String.eqb "utils"
    (_create_module_mapping "/proj" [Samples.pkg_utils; Samples.top_utils])
  = Some "utils.py"%string.
Proof.
  apply (module_map_winner "/proj" [Samples.pkg_utils] [] Samples.top_utils
           "utils").
  left. split.
  - left. reflexivity.
  - intros pf' [].
Defined.

Lemma method_record_witness :
  GraphBuilder.opt_truthy (parent Samples.method_m) = true
  /\ (parent Samples.method_m = None
      \/ exists name doc lineno end_lineno children,
           Ast.subnode (Ast.ClassDef name doc lineno end_lineno children)
             Samples.class_tree
           /\ parent Samples.method_m = Some name).
Proof.
  apply (python_definition_records Env.recursion_limit Samples.class_tree ""
           [mkDefn "A" CLASS 1 4 None [] 0 None []; Samples.method_m]
           Samples.method_m).
  - reflexivity.
  - right. left. reflexivity.
Defined.

Lemma file_under_root_witness :
  _get_relative_path "/proj" "/proj/pkg/a.py" = "pkg/a.py"%string.
Proof.
  apply (relative_path_below_root ["proj"] ["pkg"; "a.py"]);
    [reflexivity | reflexivity | discriminate].
Defined.

Lemma bare_file_name_witness :
  _get_relative_path "." "/proj/a.py" = "a.py"%string.
Proof.
  apply (relative_path_of_absolute_file "." "/proj/a.py"); reflexivity.
Defined.

End FurtherRuns.

(** ** The parse loop of the command line *)

Section ParseLoop.
Import Nx GraphBuilder.

Variable python_parse_file : string -> Result ParsedFile.
Variable js_parse_file : string -> Result ParsedFile.

#[local] Abbreviation parse_of := (Cli.parse_of python_parse_file js_parse_file).

(** What the loop keeps of one file. *)
#[local] Abbreviation kept :=
  (fun fi => match parse_of fi with Ok pf => [pf] | Raise _ => [] end).
#[local] Abbreviation dropped :=
  (fun fi => match parse_of fi with Ok _ => [] | Raise _ => [Cli.path fi] end).

Lemma parse_loop_outcome (files : list Cli.FileInfo) (st : Cli.state) :
  Cli.parse_loop python_parse_file js_parse_file st files
  = Ok (Cli.mkState
          (Cli.parsed_files st ++ flat_map kept files)
          (Cli.entity_count st
           + list_sum (map (fun pf => List.length (definitions pf))
                         (flat_map kept files)))
          (Cli.warned st ++ flat_map dropped files)).
Proof.
  revert st. induction files as [|fi files IH]; intros st; simpl.
  - rewrite !app_nil_r, Nat.add_0_r. now destruct st.
  - unfold Cli.parse_step.
    destruct (Cli.parse_of python_parse_file js_parse_file fi) as [pf|e];
      simpl; rewrite IH; simpl.
    + rewrite <- app_assoc, Nat.add_assoc. reflexivity.
    + rewrite <- app_assoc. now destruct e.
Qed.

(** X23.  The parse loop of [analyze] never raises.  It keeps, in order,
    the models of the files whose parser returns, counts their
    definitions, and echoes a warning for each other file; the file graph
    built from what it keeps has a node for a file exactly when the parser
    returned for it. *)
Theorem parse_loop_keeps_parsed_files (directory : string)
    (files : list Cli.FileInfo) :
  exists st,
    Cli.parse_files python_parse_file js_parse_file files = Ok st
    /\ Cli.parsed_files st
       = flat_map
           (fun fi =>
              match Cli.parse_of python_parse_file js_parse_file fi with
              | Ok pf => [pf]
              | Raise _ => []
              end) files
    /\ Cli.entity_count st
       = list_sum (map (fun pf => List.length (definitions pf))
                     (Cli.parsed_files st))
    /\ Cli.warned st
       = flat_map
           (fun fi =>
              match Cli.parse_of python_parse_file js_parse_file fi with
              | Ok _ => []
              | Raise _ => [Cli.path fi]
              end) files
    /\ forall n,
         In n (nodes (deref (fst (build_file_graph (init directory)
                                    (Cli.parsed_files st)))
                        FileGraphObj))
         <-> exists fi pf,
               In fi files
               /\ Cli.parse_of python_parse_file js_parse_file fi = Ok pf
               /\ n = _get_relative_path directory (file_path pf).
Proof.
  unfold Cli.parse_files. rewrite parse_loop_outcome. simpl.
  eexists. split; [reflexivity|]. simpl.
  split; [reflexivity|]. split; [reflexivity|]. split; [reflexivity|].
  intros n. unfold nodes at 1.
  rewrite (proj1 (file_edge_loops directory empty _)).
  fold (nodes (fold_left (add_file_node directory) (flat_map kept files) empty)).
  rewrite (proj2 (file_nodes directory (flat_map kept files) empty)).
  split.
  - intros [[]|[pf [Hpf ->]]]. apply in_flat_map in Hpf as [fi [Hfi Hpf]].
    exists fi, pf. split; [exact Hfi|].
    destruct (Cli.parse_of python_parse_file js_parse_file fi) as [pf'|e];
      [|destruct Hpf].
    destruct Hpf as [->|[]]. now split.
  - intros (fi & pf & Hfi & E & ->). right. exists pf. split; [|reflexivity].
    apply in_flat_map. exists fi. split; [exact Hfi|]. rewrite E. now left.
Qed.

End ParseLoop.
